(** * git-aggregator: resolution of the aggregation configuration

    A shallow embedding of [get_repos] (git_aggregator/config.py) and the
    properties of the configuration resolver stated over it.

    The configuration is the value a YAML loader hands over: nested
    mappings, lists, text, integers, booleans and nulls.  Mappings keep
    their insertion order, as Python dictionaries do, and are association
    lists here.  Values are trees: no object occurs at two places of the
    configuration.  Text is a sequence of code points below 256.

    [get_repos] talks to three things besides its argument: the [os.path]
    functions, the [Repo] handle of a working copy and the logger.  They
    are the fields of [Runtime]; the calls made to the working copy and
    the warnings logged are kept in the state, next to the caller's
    mapping, which [get_repos] writes into. *)

From Stdlib Require Import ZArith String Ascii List Bool Lia DecimalString.
From stdpp Require Import base tactics option list strings gmap.

Open Scope string_scope.
Open Scope list_scope.

(** ** Python values *)

#[local] Set Warnings "-register-all".

Inductive pyval : Type :=
| PyNone
| PyBool (b : bool)
| PyInt (z : Z)
| PyStr (s : string)
| PyList (xs : list pyval)
| PyDict (kvs : list (pyval * pyval)).

(** A dictionary: its items, oldest first. *)
Abbreviation dict := (list (pyval * pyval)).

(** A value stands for a tree: the model has no object identity, and a
    mapping or list that one object graph holds at two places reads as
    two equal subtrees.  [pyval_eqb a b]: [a] and [b] are the same
    tree. *)
Fixpoint pyval_eqb (a b : pyval) : bool :=
  match a, b with
  | PyNone, PyNone => true
  | PyBool x, PyBool y => Bool.eqb x y
  | PyInt x, PyInt y => Z.eqb x y
  | PyStr x, PyStr y => String.eqb x y
  | PyList xs, PyList ys =>
      (fix all2 (xs ys : list pyval) : bool :=
         match xs, ys with
         | [], [] => true
         | x :: xs', y :: ys' => pyval_eqb x y && all2 xs' ys'
         | _, _ => false
         end) xs ys
  | PyDict kvs, PyDict kws =>
      (fix all2 (kvs kws : list (pyval * pyval)) : bool :=
         match kvs, kws with
         | [], [] => true
         | (k, v) :: kvs', (k', v') :: kws' =>
             pyval_eqb k k' && pyval_eqb v v' && all2 kvs' kws'
         | _, _ => false
         end) kvs kws
  | _, _ => false
  end.

(** The number of places of the tree [v] that hold [m]: [v] itself, an
    element of a list, a key or a value of a mapping, at any depth. *)
Fixpoint places (m v : pyval) : nat :=
  (if pyval_eqb m v then 1 else 0)
  + match v with
    | PyList xs => list_sum (map (places m) xs)
    | PyDict kvs =>
        list_sum (map (fun kv => match kv with
                                 | (k, w) => places m k + places m w
                                 end) kvs)
    | _ => 0
    end.

(** [bool(v)]: what [if v], [not v] and [v or w] look at. *)
Definition py_bool (v : pyval) : bool :=
  match v with
  | PyNone => false
  | PyBool b => b
  | PyInt z => negb (Z.eqb z 0)
  | PyStr s => negb (String.eqb s "")
  | PyList xs => match xs with [] => false | _ => true end
  | PyDict kvs => match kvs with [] => false | _ => true end
  end.

(** [v or w] *)
Definition py_or (v w : pyval) : pyval := if py_bool v then v else w.

(** Values that hash: the ones a set or a dictionary key can hold. *)
Definition hashable (v : pyval) : bool :=
  match v with
  | PyList _ | PyDict _ => false
  | _ => true
  end.

(** [a == b] on values that hash.  [True == 1] and [False == 0]; text
    equals text only. *)
Definition key_eq (a b : pyval) : bool :=
  match a, b with
  | PyNone, PyNone => true
  | PyBool x, PyBool y => Bool.eqb x y
  | PyBool x, PyInt y | PyInt y, PyBool x => Z.eqb (Z.b2z x) y
  | PyInt x, PyInt y => Z.eqb x y
  | PyStr x, PyStr y => String.eqb x y
  | _, _ => false
  end.

(** ** Sets, as [set()] with [add] and [in] use them *)

Definition set_mem (x : pyval) (s : list pyval) : bool := existsb (key_eq x) s.

Definition set_add (x : pyval) (s : list pyval) : list pyval :=
  if set_mem x s then s else s ++ [x].

(** ** Dictionaries with text keys *)

(** The value stored under the text key [key], if any. *)
Fixpoint dict_get (key : string) (d : dict) : option pyval :=
  match d with
  | [] => None
  | (k, v) :: rest =>
      if key_eq (PyStr key) k then Some v else dict_get key rest
  end.

(** [key in d] *)
Definition dict_has (key : string) (d : dict) : bool :=
  match dict_get key d with Some _ => true | None => false end.

(** [d.get(key, default)] *)
Definition dict_get_default (key : string) (default : pyval) (d : dict) : pyval :=
  match dict_get key d with Some v => v | None => default end.

(** [d[key] = v]: an existing key keeps its place, a new one goes last. *)
Fixpoint dict_set (key : string) (v : pyval) (d : dict) : dict :=
  match d with
  | [] => [(PyStr key, v)]
  | (k, w) :: rest =>
      if key_eq (PyStr key) k then (k, v) :: rest
      else (k, w) :: dict_set key v rest
  end.

(** ** Text *)

(** [sep.join(words)] *)
Fixpoint join (sep : string) (words : list string) : string :=
  match words with
  | [] => ""
  | [w] => w
  | w :: ws => w +:+ sep +:+ join sep ws
  end.

(** [s.split(sep)] for a one-character separator: every occurrence cuts,
    so two separators in a row leave an empty piece between them. *)
Fixpoint split (sep : ascii) (s : string) : list string :=
  match s with
  | EmptyString => [""]
  | String c rest =>
      if Ascii.eqb c sep then "" :: split sep rest
      else match split sep rest with
           | [] => [String c ""]
           | w :: ws => String c w :: ws
           end
  end.

(** [c.isspace()] for a code point below 256: tab to carriage return,
    the four separators 28 to 31, the space, NEL and the no-break space. *)
Definition isspace (c : ascii) : bool :=
  let n := nat_of_ascii c in
  (Nat.leb 9 n && Nat.leb n 13) || (Nat.leb 28 n && Nat.leb n 32)
  || Nat.eqb n 133 || Nat.eqb n 160.

(** [s.split()]: cut at runs of white space, no empty piece.  [word] is
    the piece being read. *)
Fixpoint split_whitespace_from (word : string) (s : string) : list string :=
  match s with
  | EmptyString => if String.eqb word "" then [] else [word]
  | String c rest =>
      if isspace c then
        (if String.eqb word "" then [] else [word])
          ++ split_whitespace_from "" rest
      else split_whitespace_from (word +:+ String c "") rest
  end.

Definition split_whitespace (s : string) : list string :=
  split_whitespace_from "" s.

(** The characters of a text, as iterating over it yields them. *)
Fixpoint chars (s : string) : list pyval :=
  match s with
  | EmptyString => []
  | String c rest => PyStr (String c "") :: chars rest
  end.

(** [s.startswith(p)] *)
Definition startswith (p s : string) : bool := String.prefix p s.

(** ** The record built for one directory *)

Record remote_dict : Type := { name : pyval; url : pyval }.

Record target_dict : Type := { remote : option string; branch : string }.

(** What [fetch_all] holds in the end: the configured value as it came,
    or the [frozenset] made of it. *)
Inductive fetch_scope : Type :=
| AsGiven (v : pyval)
| Frozenset (members : list pyval).

Record repo_dict : Type := {
  cwd : string;
  defaults : pyval;
  force : bool;
  skip_dry_run : pyval;
  apply_patch : pyval;
  skip_repo_init : pyval;
  remotes : list remote_dict;
  merges : list pyval;
  fetch_all : fetch_scope;
  target : target_dict;
  shell_command_after : pyval
}.

(** ** Exceptions *)

Inductive exn : Type :=
| ConfigException (msg : string)
| AttributeError
| TypeError
| KeyError
| GitError (msg : string).

Inductive result (A : Type) : Type :=
| Ok (a : A)
| Raise (e : exn).

Arguments Ok {A} a.
Arguments Raise {A} e.

Definition result_bind {A B : Type} (r : result A) (f : A -> result B) : result B :=
  match r with
  | Ok a => f a
  | Raise e => Raise e
  end.

(** What a method of another module does: it returns, or raises an
    exception with some message. *)
Inductive reply (A : Type) : Type :=
| Returned (a : A)
| Failed (msg : string).

Arguments Returned {A} a.
Arguments Failed {A} msg.

(** What the logger is handed: a formatted message or an exception. *)
Inductive warning : Type :=
| Message (text : string)
| Caught (e : exn).

(** ** What [get_repos] calls *)

(** Modelled from the spec: class [Repo] is defined in repo.py.  The spec
    describes it as a handle to the working copy of one directory with
    three operations, [listRemotes], [setRemote] and [queryRemoteRef].
    The constructor stores the directory and may be called whether or not
    the directory exists.  A plain object is true in a condition. *)
Record Repo : Type := { repo_cwd : string }.

Definition repo_bool (r : option Repo) : bool :=
  match r with Some _ => true | None => false end.

(** The calls made on a [Repo] handle. *)
Inductive call : Type :=
| GetRemotes (dir : string)
| SetRemote (dir : string) (remote_name remote_url : pyval)
| QueryRemoteRef (dir : string) (remote_name ref : string).

(** The functions of other modules, over the state [world] of the disk
    and of the remote repositories.
    - [isabs], [abspath], [path_exists]: [os.path].
    - [str_repr]: [repr] of a text, used by [str] of a list or mapping.
    - [ishex]: the hex-ref predicate of repo.py.
    - [_get_remotes], [_set_remote], [query_remote_ref]: the methods of
      [Repo]; each may raise.  [query_remote_ref] returns the kind of the
      ref, [None] when the remote does not have it, and a hash. *)
Class Runtime (world : Type) : Type := {
  isabs : string -> bool;
  abspath : string -> string;
  path_exists : world -> string -> bool;
  str_repr : string -> string;
  ishex : string -> bool;
  _get_remotes : world -> string -> reply (list (string * string));
  _set_remote : world -> string -> pyval -> pyval -> reply world;
  query_remote_ref :
    world -> string -> string -> string -> reply (option string * string)
}.

(** ** State and the monad of [get_repos] *)

(** [input] is the caller's mapping as it reads now; [git] the world the
    working copies live in; [calls] and [warnings] what was asked of the
    working copies and what was logged, oldest first. *)
Record state (world : Type) : Type := {
  input : dict;
  git : world;
  calls : list call;
  warnings : list warning
}.

Arguments input {world} s.
Arguments git {world} s.
Arguments calls {world} s.
Arguments warnings {world} s.

Definition M (world A : Type) : Type := state world -> result A * state world.

Definition ret {world A : Type} (a : A) : M world A := fun s => (Ok a, s).

Definition raise {world A : Type} (e : exn) : M world A := fun s => (Raise e, s).

Definition bind {world A B : Type} (m : M world A) (f : A -> M world B) : M world B :=
  fun s =>
    match m s with
    | (Ok a, s') => f a s'
    | (Raise e, s') => (Raise e, s')
    end.

(** A computation that touches no state. *)
Definition lift {world A : Type} (r : result A) : M world A := fun s => (r, s).

(** [try: body except: handler]; the handler raises again what it does
    not handle. *)
Definition try_except {world A : Type} (body : M world A)
    (handler : exn -> M world A) : M world A :=
  fun s =>
    match body s with
    | (Ok a, s') => (Ok a, s')
    | (Raise e, s') => handler e s'
    end.

Declare Scope py_scope.
Delimit Scope py_scope with py.

Notation "'let*' x := m 'in' k" := (bind m (fun x => k))
  (at level 10, x pattern, m at level 100, k at level 200) : py_scope.
Notation "m ;; k" := (bind m (fun _ => k))
  (at level 100, k at level 200, right associativity) : py_scope.

(** *** What a computation does to the state *)

(** Two states that differ at most in what the caller's mapping reads. *)
Definition same_effects {world : Type} (s t : state world) : Prop :=
  git s = git t /\ calls s = calls t /\ warnings s = warnings t.

(** [m] does not look at the caller's mapping: from two such states it
    ends the same way, in two such states. *)
Definition blind {world A : Type} (m : M world A) : Prop :=
  forall s t,
    same_effects s t ->
    fst (m s) = fst (m t) /\ same_effects (snd (m s)) (snd (m t)).

(** [m] and [m'] end the same way, in states with the same effects, when
    they start in states with the same effects. *)
Definition same_run {world A : Type} (m m' : M world A) : Prop :=
  forall s t,
    same_effects s t ->
    fst (m s) = fst (m' t) /\ same_effects (snd (m s)) (snd (m' t)).

(** Every run of [m] takes a state to one that [R] relates to it. *)
Definition stepwise {world A : Type} (R : relation (state world))
    (m : M world A) : Prop :=
  forall s r s', m s = (r, s') -> R s s'.

(** The calls of [s'] are those of [s] followed by calls that satisfy
    [P]. *)
Definition adds {world : Type} (P : call -> bool) (s s' : state world) : Prop :=
  exists cs, calls s' = calls s ++ cs /\ forallb P cs = true.

Section Resolver.

Context {world : Type} {runtime : Runtime world}.

Local Open Scope py_scope.

(** *** [str] and [repr] *)

(** [repr(v)]; [str(v)] differs on text only. *)
Fixpoint py_repr (v : pyval) : string :=
  match v with
  | PyNone => "None"
  | PyBool true => "True"
  | PyBool false => "False"
  | PyInt z => NilZero.string_of_int (Z.to_int z)
  | PyStr s => str_repr s
  | PyList xs => "[" +:+ join ", " (map py_repr xs) +:+ "]"
  | PyDict kvs =>
      "{" +:+ join ", "
                (map (fun kv => match kv with
                                | (k, w) => py_repr k +:+ ": " +:+ py_repr w
                                end) kvs)
          +:+ "}"
  end.

Definition py_str (v : pyval) : string :=
  match v with
  | PyStr s => s
  | _ => py_repr v
  end.

(** *** Effects *)

Definition logged (msg : warning) (s : state world) : state world :=
  {| input := input s; git := git s; calls := calls s;
     warnings := warnings s ++ [msg] |}.

Definition log_warning (msg : warning) : M world unit :=
  fun s => (Ok tt, logged msg s).

Definition record (c : call) (s : state world) : state world :=
  {| input := input s; git := git s; calls := calls s ++ [c];
     warnings := warnings s |}.

(** [merge[key] = v], where [merge] is entry [i] of the [merges] list of
    the [k]-th directory.  The entry is the caller's object: the caller's
    mapping reads the new value from now on.  The write goes to the
    object; in the tree that is the place of the entry, and only that
    place when the object is held nowhere else.  A configuration that
    holds one mapping at two places (a YAML alias does that) reads the
    new value at both: what is said of [input] below is said of
    configurations that hold the mappings written to at one place
    ([merges_held_once]). *)
Definition write_merge (k i : nat) (merge : pyval) (config : dict) : dict :=
  alter (fun item =>
           match item with
           | (directory, PyDict repo_data) =>
               match dict_get "merges" repo_data with
               | Some (PyList merge_data) =>
                   (directory,
                    PyDict (dict_set "merges"
                              (PyList (<[i := merge]> merge_data)) repo_data))
               | _ => item
               end
           | _ => item
           end) k config.

Definition setitem (k i : nat) (merge : pyval) (key : string) (v : pyval)
  : M world pyval :=
  match merge with
  | PyDict fields =>
      fun s =>
        let merge' := PyDict (dict_set key v fields) in
        (Ok merge', {| input := write_merge k i merge' (input s);
                       git := git s; calls := calls s;
                       warnings := warnings s |})
  | _ => raise TypeError
  end.

(** [v[key]] for a text key: a mapping has the key or not, nothing else
    takes one. *)
Definition getitem (v : pyval) (key : string) : result pyval :=
  match v with
  | PyDict fields =>
      match dict_get key fields with
      | Some w => Ok w
      | None => Raise KeyError
      end
  | _ => Raise TypeError
  end.

(** [v.split(' ')]: text has the method. *)
Definition py_split (v : pyval) : result (list string) :=
  match v with
  | PyStr text => Ok (split " " text)
  | _ => Raise AttributeError
  end.

(** [v.get]: mappings have the method. *)
Definition py_mapping (v : pyval) : result dict :=
  match v with
  | PyDict kvs => Ok kvs
  | _ => Raise AttributeError
  end.

(** [v.items()] *)
Definition py_items (v : pyval) : result dict :=
  match v with
  | PyDict kvs => Ok kvs
  | _ => Raise AttributeError
  end.

(** What [for x in v] runs over. *)
Definition py_iter (v : pyval) : result (list pyval) :=
  match v with
  | PyList xs => Ok xs
  | PyDict kvs => Ok (map fst kvs)
  | PyStr s => Ok (chars s)
  | _ => Raise TypeError
  end.

(** *** Lines 30-31: the directory *)

Definition resolve_directory (directory : pyval) : result string :=
  match directory with
  | PyStr d => Ok (if isabs d then d else abspath d)
  | _ => Raise TypeError
  end.

(** *** Lines 41-57: remotes given in the configuration *)

Fixpoint remotes_loop (directory : string) (items : dict)
    (acc : list remote_dict) (remote_names : list pyval)
  : result (list remote_dict * list pyval) :=
  match items with
  | [] => Ok (acc, remote_names)
  | (remote_name, url) :: rest =>
      if negb (py_bool url) then
        Raise (ConfigException
                 (directory +:+ ": No url defined for remote "
                    +:+ py_str remote_name +:+ "."))
      else
        remotes_loop directory rest
          (acc ++ [{| name := remote_name; url := url |}])
          (set_add remote_name remote_names)
  end.

Definition configured_remotes (directory : string) (v : pyval)
  : result (list remote_dict * list pyval) :=
  result_bind (py_items (py_or v (PyDict []))) (fun remotes_data =>
  result_bind (remotes_loop directory remotes_data [] []) (fun found =>
  match snd found with
  | [] => Raise (ConfigException
                   (directory +:+ ": You should at least define one remote."))
  | _ => Ok found
  end)).

(** *** Lines 59-70: remotes read from the working copy *)

Fixpoint discovered_loop (items : list (string * string))
    (acc : list remote_dict) (remote_names : list pyval)
  : list remote_dict * list pyval :=
  match items with
  | [] => (acc, remote_names)
  | (remote_name, url) :: rest =>
      discovered_loop rest
        (acc ++ [{| name := PyStr remote_name; url := PyStr url |}])
        (set_add (PyStr remote_name) remote_names)
  end.

Definition discovered_remotes (directory : string)
  : M world (list remote_dict * list pyval) :=
  fun s =>
    let s' := record (GetRemotes directory) s in
    match _get_remotes (git s) directory with
    | Returned found => (Ok (discovered_loop found [] []), s')
    | Failed _ =>
        (Raise (ConfigException (directory +:+ ": remotes is not defined.")), s')
    end.

(** *** Lines 74-80: the handle used to check the merges *)

Definition call_set_remote (tmp_repo : Repo) (r : remote_dict) : M world unit :=
  fun s =>
    let s' := record (SetRemote (repo_cwd tmp_repo) (name r) (url r)) s in
    match _set_remote (git s) (repo_cwd tmp_repo) (name r) (url r) with
    | Returned w =>
        (Ok tt, {| input := input s'; git := w; calls := calls s';
                   warnings := warnings s' |})
    | Failed msg => (Raise (GitError msg), s')
    end.

Fixpoint set_remotes_loop (tmp_repo : Repo) (rs : list remote_dict)
  : M world unit :=
  match rs with
  | [] => ret tt
  | r :: rest => call_set_remote tmp_repo r ;; set_remotes_loop tmp_repo rest
  end.

Definition open_repo (directory : string) (rs : list remote_dict)
    (skip_merge_check : bool) : M world (option Repo) :=
  if negb skip_merge_check then
    let tmp_repo := {| repo_cwd := directory |} in
    fun s =>
      if path_exists (git s) (repo_cwd tmp_repo) then
        (set_remotes_loop tmp_repo rs ;; ret (Some tmp_repo)) s
      else (Ok (Some tmp_repo), s)
  else ret None.

(** *** Lines 82-101: the two shapes of a merge entry *)

Definition dquote : string := String (ascii_of_nat 34) EmptyString.

Definition parse_merge (k i : nat) (directory : string) (merge : pyval)
  : M world pyval :=
  try_except
    (let* parts := lift (py_split merge) in
     if negb (Nat.eqb (length parts) 2) then
       raise (ConfigException
                (directory +:+ ": Merge must be formatted as "
                   +:+ dquote +:+ "remote_name ref" +:+ dquote +:+ "."))
     else
       ret (PyDict [(PyStr "remote", PyStr (nth 0 parts EmptyString));
                    (PyStr "ref", PyStr (nth 1 parts EmptyString))]))
    (fun e =>
       match e with
       | AttributeError =>
           try_except
             (let* r := lift (getitem merge "remote") in
              let* merge1 := setitem k i merge "remote" (PyStr (py_str r)) in
              let* f := lift (getitem merge1 "ref") in
              setitem k i merge1 "ref" (PyStr (py_str f)))
             (fun e' =>
                match e' with
                | KeyError =>
                    raise (ConfigException
                             (directory +:+ ": Merge lacks mandatory "
                                +:+ "`remote` or `ref` keys."))
                | _ => raise e'
                end)
       | _ => raise e
       end).

(** *** Lines 102-120: one merge entry *)

(** [tmp_repo.query_remote_ref]: [None] has no such method. *)
Definition bound_repo (tmp_repo : option Repo) : result Repo :=
  match tmp_repo with
  | Some repo => Ok repo
  | None => Raise AttributeError
  end.

Definition call_query_remote_ref (repo : Repo) (remote_name ref : pyval)
  : M world (option string * string) :=
  fun s =>
    let s' := record (QueryRemoteRef (repo_cwd repo) (py_str remote_name)
                        (py_str ref)) s in
    match query_remote_ref (git s) (repo_cwd repo) (py_str remote_name)
            (py_str ref) with
    | Returned found => (Ok found, s')
    | Failed msg => (Raise (GitError msg), s')
    end.

(** The body of the [try] of lines 108-119: [true] when it ends in
    [continue]. *)
Definition check_ref (directory : string) (tmp_repo : option Repo)
    (merge : pyval) : M world bool :=
  try_except
    (let* repo := lift (bound_repo tmp_repo) in
     let* remote_name := lift (getitem merge "remote") in
     let* ref := lift (getitem merge "ref") in
     let* (rtype, sha) := call_query_remote_ref repo remote_name ref in
     match rtype with
     | None =>
         let* ref' := lift (getitem merge "ref") in
         if negb (ishex (py_str ref')) then
           let* remote_name' := lift (getitem merge "remote") in
           log_warning
             (Message (directory +:+ " - Ref: " +:+ py_str ref'
                         +:+ " does not exists in remote "
                         +:+ py_str remote_name')) ;;
           ret true
         else ret false
     | Some _ => ret false
     end)
    (fun e => log_warning (Caught e) ;; ret false).

(** One turn of the loop: the entry to append, or [None] after [continue]. *)
Definition resolve_merge (k i : nat) (directory : string)
    (remote_names : list pyval) (skip_merge_check : bool)
    (tmp_repo : option Repo) (merge0 : pyval) : M world (option pyval) :=
  let* merge := parse_merge k i directory merge0 in
  let* remote_name := lift (getitem merge "remote") in
  if negb (set_mem remote_name remote_names) then
    raise (ConfigException
             (directory +:+ ": Merge remote " +:+ py_str remote_name
                +:+ " not defined in remotes."))
  else
    let* dropped :=
      (if negb skip_merge_check && repo_bool tmp_repo
       then check_ref directory tmp_repo merge
       else ret false) in
    if (dropped : bool) then ret None else ret (Some merge).

Fixpoint merges_loop (k i : nat) (directory : string)
    (remote_names : list pyval) (skip_merge_check : bool)
    (tmp_repo : option Repo) (merge_data : list pyval) (acc : list pyval)
  : M world (list pyval) :=
  match merge_data with
  | [] => ret acc
  | merge :: rest =>
      let* kept := resolve_merge k i directory remote_names skip_merge_check
                     tmp_repo merge in
      merges_loop k (S i) directory remote_names skip_merge_check tmp_repo rest
        (match kept with Some m => acc ++ [m] | None => acc end)
  end.

(** *** Lines 71-127: the merges of a directory *)

Definition resolve_merges (k : nat) (directory : string)
    (rs : list remote_dict) (remote_names : list pyval)
    (skip_merge_check : bool) (repo_data : dict) : M world (list pyval) :=
  if dict_has "merges" repo_data then
    let merge_data :=
      py_or (dict_get_default "merges" PyNone repo_data) (PyList []) in
    let* tmp_repo := open_repo directory rs skip_merge_check in
    let* entries := lift (py_iter merge_data) in
    let* found := merges_loop k 0 directory remote_names skip_merge_check
                    tmp_repo entries [] in
    match found with
    | [] => raise (ConfigException
                     (directory +:+ ": You should at least define one merge."))
    | _ => ret found
    end
  else raise (ConfigException (directory +:+ ": merges is not defined.")).

(** *** Lines 129-133: which remotes to fetch in full *)

(** [frozenset(xs)]: the members of [xs], each once; a member that does
    not hash is a [TypeError]. *)
Fixpoint frozenset (xs : list pyval) (members : list pyval)
  : result (list pyval) :=
  match xs with
  | [] => Ok members
  | x :: rest =>
      if hashable x then frozenset rest (set_add x members)
      else Raise TypeError
  end.

Definition normalize_fetch_all (v : pyval) : result fetch_scope :=
  match v with
  | PyStr _ => result_bind (frozenset [v] []) (fun m => Ok (Frozenset m))
  | PyList xs => result_bind (frozenset xs []) (fun m => Ok (Frozenset m))
  | _ => Ok (AsGiven v)
  end.

(** *** Lines 138-158: the target *)

Definition resolve_target (directory : string) (remote_names : list pyval)
    (repo_data : dict) : result target_dict :=
  let parts :=
    split_whitespace (py_str (dict_get_default "target" (PyStr "") repo_data)) in
  result_bind
    (match length parts with
     | 0 => Ok (None, "_git_aggregated")
     | 1 => Ok (None, nth 0 parts EmptyString)
     | 2 => Ok (Some (nth 0 parts EmptyString), nth 1 parts EmptyString)
     | _ => Raise (ConfigException
                     (directory +:+ ": Target must be formatted as "
                        +:+ dquote +:+ "[remote_name] branch_name" +:+ dquote))
     end)
    (fun found =>
       match fst found with
       | Some remote_name =>
           if negb (set_mem (PyStr remote_name) remote_names) then
             Raise (ConfigException
                      (directory +:+ ": Target remote " +:+ remote_name
                         +:+ " not defined in remotes."))
           else Ok {| remote := fst found; branch := snd found |}
       | None => Ok {| remote := fst found; branch := snd found |}
       end).

(** *** Lines 159-167: the commands to run afterwards *)

Definition resolve_commands (repo_data : dict) : pyval :=
  match dict_get "shell_command_after" repo_data with
  | Some cmds =>
      if py_bool cmds then
        match cmds with
        | PyStr _ => PyList [cmds]
        | _ => cmds
        end
      else PyList []
  | None => PyList []
  end.

(** *** Lines 29-168: one directory *)

Definition get_repo (k : nat) (directory0 repo_data0 : pyval)
    (force skip_merge_check : bool) : M world repo_dict :=
  let* directory := lift (resolve_directory directory0) in
  let* repo_data := lift (py_mapping repo_data0) in
  let* (rs, remote_names) :=
    (if dict_has "remotes" repo_data
     then lift (configured_remotes directory
                  (dict_get_default "remotes" PyNone repo_data))
     else discovered_remotes directory) in
  let* found := resolve_merges k directory rs remote_names skip_merge_check
                  repo_data in
  let* scope := lift (normalize_fetch_all
                        (dict_get_default "fetch_all" (PyBool false) repo_data)) in
  let* destination := lift (resolve_target directory remote_names repo_data) in
  ret {| cwd := directory;
         defaults := dict_get_default "defaults" (PyDict []) repo_data;
         force := force;
         skip_dry_run := dict_get_default "skip_dry_run" (PyBool false) repo_data;
         apply_patch := dict_get_default "apply_patch" (PyBool false) repo_data;
         skip_repo_init :=
           dict_get_default "skip_repo_init" (PyBool false) repo_data;
         remotes := rs;
         merges := found;
         fetch_all := scope;
         target := destination;
         shell_command_after := resolve_commands repo_data |}.

(** *** Lines 28-169 *)

Fixpoint get_repos_loop (k : nat) (items : dict)
    (force skip_merge_check : bool) (repo_list : list repo_dict)
  : M world (list repo_dict) :=
  match items with
  | [] => ret repo_list
  | (directory, repo_data) :: rest =>
      let* r := get_repo k directory repo_data force skip_merge_check in
      get_repos_loop (S k) rest force skip_merge_check (repo_list ++ [r])
  end.

(** The state [get_repos] starts in: the mapping as the caller passed it,
    nothing asked of the working copies yet, nothing logged. *)
Definition enter (config : dict) (w : world) : state world :=
  {| input := config; git := w; calls := []; warnings := [] |}.

Definition get_repos (config : dict) (force skip_merge_check : bool)
    (w : world) : result (list repo_dict) * state world :=
  get_repos_loop 0 config force skip_merge_check [] (enter config w).

End Resolver.

Arguments get_repos {world _} config force skip_merge_check w.
Arguments get_repos_loop {world _} k items force skip_merge_check repo_list s.
Arguments get_repo {world _} k directory0 repo_data0 force skip_merge_check s.

(** ** Configurations and runtimes used in the examples *)

Definition hexdigit (c : ascii) : bool :=
  let n := nat_of_ascii c in
  (Nat.leb 48 n && Nat.leb n 57) || (Nat.leb 65 n && Nat.leb n 70)
  || (Nat.leb 97 n && Nat.leb n 102).

Fixpoint all_hexdigits (s : string) : bool :=
  match s with
  | EmptyString => true
  | String c rest => hexdigit c && all_hexdigits rest
  end.

(** A runtime over a world with nothing in it: paths are POSIX and
    relative ones are taken from /srv, every directory is on disk or none
    is, no working copy lists its remotes, setting a remote always works
    and every ref query gets the same [answer]. *)
Definition scripted (on_disk : bool) (answer : reply (option string * string))
  : Runtime unit :=
  {| isabs := startswith "/";
     abspath := fun d => "/srv/" +:+ d;
     path_exists := fun _ _ => on_disk;
     str_repr := fun s => "'" +:+ s +:+ "'";
     ishex := all_hexdigits;
     _get_remotes := fun _ _ => Failed "not a git repository";
     _set_remote := fun _ _ _ _ => Returned tt;
     query_remote_ref := fun _ _ _ _ => answer |}.

Definition origin_only : pyval := PyDict [(PyStr "origin", PyStr "u")].

(** [{D: {remotes: {origin: "u"}, merges: ["origin 14.0"]}}] *)
Definition minimal_config (D : string) : dict :=
  [(PyStr D, PyDict [(PyStr "remotes", origin_only);
                     (PyStr "merges", PyList [PyStr "origin 14.0"])])].

(** The same with the merge written [{remote: origin, ref: "14.0"}]. *)
Definition mapping_config (D : string) : dict :=
  [(PyStr D, PyDict [(PyStr "remotes", origin_only);
                     (PyStr "merges",
                      PyList [PyDict [(PyStr "remote", PyStr "origin");
                                      (PyStr "ref", PyStr "14.0")]])])].

(** The record both resolve to. *)
Definition minimal_repo (directory : string) (force : bool) : repo_dict :=
  {| cwd := directory;
     defaults := PyDict [];
     force := force;
     skip_dry_run := PyBool false;
     apply_patch := PyBool false;
     skip_repo_init := PyBool false;
     remotes := [{| name := PyStr "origin"; url := PyStr "u" |}];
     merges := [PyDict [(PyStr "remote", PyStr "origin");
                        (PyStr "ref", PyStr "14.0")]];
     fetch_all := AsGiven (PyBool false);
     target := {| remote := None; branch := "_git_aggregated" |};
     shell_command_after := PyList [] |}.

(** The minimal configuration with [target: "origin agg"]. *)
Definition targeted_config (D : string) : dict :=
  [(PyStr D, PyDict [(PyStr "remotes", origin_only);
                     (PyStr "merges", PyList [PyStr "origin 14.0"]);
                     (PyStr "target", PyStr "origin agg")])].

(** No working copy is on disk and no remote answers. *)
Definition offline : Runtime unit := scripted false (Failed "offline").

(** The working copies are on disk; no remote has the ref asked for. *)
Definition unknown_ref : Runtime unit := scripted true (Returned (None, "")).

(** The working copies are on disk; the remotes do not answer in time. *)
Definition timed_out : Runtime unit := scripted true (Failed "timed out").

(** The handle to the working copy of /srv/D. *)
Definition handle : Repo := {| repo_cwd := "/srv/D" |}.

(** Three directories, the second without merges. *)
Definition second_of_three : dict :=
  minimal_config "a"
    ++ (PyStr "b", PyDict [(PyStr "remotes", origin_only)])
    :: minimal_config "c".

(** ** The invariants of a record *)

(** [remote_name] is the name of one of the remotes of [r]. *)
Definition names_remote (r : repo_dict) (remote_name : pyval) : bool :=
  existsb (fun rd => key_eq remote_name (name rd)) (remotes r).

(** The remote of every merge is a text, the name of a remote of the
    record, and so is the remote of the target when it has one. *)
Definition foreign_keys_hold (r : repo_dict) : bool :=
  forallb (fun merge =>
             match getitem merge "remote" with
             | Ok (PyStr remote_name) => names_remote r (PyStr remote_name)
             | _ => false
             end) (merges r)
  && match remote (target r) with
     | Some remote_name => names_remote r (PyStr remote_name)
     | None => true
     end.

(** [known names rs]: every member of the set [names] is the name of one
    of the remotes [rs]. *)
Definition known (names : list pyval) (rs : list remote_dict) : Prop :=
  forall x, set_mem x names = true ->
            existsb (fun rd => key_eq x (name rd)) rs = true.

(** A merge that passes names a member of [remote_names]. *)
Definition names_member (remote_names : list pyval) (merge : pyval) : Prop :=
  exists remote_name,
    getitem merge "remote" = Ok (PyStr remote_name)
    /\ set_mem (PyStr remote_name) remote_names = true.

(** ** The fetch scope *)

(** No two members of [s] are equal: [s] is a set. *)
Fixpoint distinct (s : list pyval) : bool :=
  match s with
  | [] => true
  | x :: rest => negb (set_mem x rest) && distinct rest
  end.

(** What the record of a directory configured as [repo_data] holds in
    [fetch_all]. *)
Definition fetch_scope_of (repo_data : dict) (scope : fetch_scope) : Prop :=
  match dict_get "fetch_all" repo_data with
  | None => scope = AsGiven (PyBool false)
  | Some (PyStr remote_name) => scope = Frozenset [PyStr remote_name]
  | Some (PyList xs) =>
      exists members,
        scope = Frozenset members
        /\ distinct members = true
        /\ forall x, set_mem x members = set_mem x xs
  | Some v => scope = AsGiven v
  end.

(** [fetch_all] is false or a set. *)
Definition false_or_set (r : repo_dict) : Prop :=
  fetch_all r = AsGiven (PyBool false)
  \/ exists members, fetch_all r = Frozenset members.

(** [{D: {remotes: {origin: "u"}, merges: ["origin 14.0"],
          fetch_all: true}}] *)
Definition fetch_everything : dict :=
  [(PyStr "D", PyDict [(PyStr "remotes", origin_only);
                       (PyStr "merges", PyList [PyStr "origin 14.0"]);
                       (PyStr "fetch_all", PyBool true)])].

(** ** The calls made on the working copies *)

Definition is_set_remote (c : call) : bool :=
  match c with
  | SetRemote _ _ _ => true
  | _ => false
  end.

(** ** Configurations of the expected shape *)

Definition is_mapping (v : pyval) : bool :=
  match v with PyDict _ => true | _ => false end.

(** A merge entry is a text or a mapping. *)
Definition is_merge_entry (v : pyval) : bool :=
  match v with PyStr _ | PyDict _ => true | _ => false end.

(** [remotes]: nothing, or a mapping. *)
Definition remotes_shaped (v : pyval) : bool :=
  negb (py_bool v) || is_mapping v.

(** [merges]: nothing, or a list of entries. *)
Definition merges_shaped (v : pyval) : bool :=
  negb (py_bool v)
  || match v with
     | PyList entries => forallb is_merge_entry entries
     | _ => false
     end.

(** [fetch_all]: a list holds values that hash. *)
Definition fetch_all_shaped (v : pyval) : bool :=
  match v with
  | PyList xs => forallb hashable xs
  | _ => true
  end.

Definition shaped_at (key : string) (shape : pyval -> bool) (fields : dict)
  : bool :=
  match dict_get key fields with
  | Some v => shape v
  | None => true
  end.

(** A directory: a text key and a mapping whose [remotes], [merges] and
    [fetch_all], when present, have the shapes above. *)
Definition entry_shaped (item : pyval * pyval) : bool :=
  match item with
  | (PyStr _, PyDict fields) =>
      shaped_at "remotes" remotes_shaped fields
      && shaped_at "merges" merges_shaped fields
      && shaped_at "fetch_all" fetch_all_shaped fields
  | _ => false
  end.

Definition well_shaped (config : dict) : bool := forallb entry_shaped config.

(** An exception [get_repos] may end with, for a directory resolved to
    [directory]: a configuration error whose message starts with the
    directory, a colon and a space.  Other exceptions are accepted unless
    [strict]. *)
Definition acceptable (strict : bool) (directory : string) (e : exn) : bool :=
  match e with
  | ConfigException msg => startswith (directory +:+ ": ") msg
  | _ => negb strict
  end.

(** [{D: {remotes: {origin: "u"}, merges: [14]}}] *)
Definition integer_merge : dict :=
  [(PyStr "D", PyDict [(PyStr "remotes", origin_only);
                       (PyStr "merges", PyList [PyInt 14])])].

(** [{D: {remotes: {origin: "u"}, merges: ["upstream 14.0"]}}] *)
Definition unknown_remote : dict :=
  [(PyStr "D", PyDict [(PyStr "remotes", origin_only);
                       (PyStr "merges", PyList [PyStr "upstream 14.0"])])].

(** The value of a directory holds a list of merges. *)
Definition has_merge_list (repo_data : pyval) : bool :=
  match repo_data with
  | PyDict fields =>
      match dict_get "merges" fields with
      | Some (PyList _) => true
      | _ => false
      end
  | _ => false
  end.

(** A merge entry that is a mapping has text under [remote] and [ref]. *)
Definition text_at (key : string) (fields : dict) : bool :=
  match dict_get key fields with
  | Some (PyStr _) | None => true
  | Some _ => false
  end.

Definition merge_is_text (merge : pyval) : bool :=
  match merge with
  | PyDict fields => text_at "remote" fields && text_at "ref" fields
  | _ => true
  end.

Definition merges_are_text (item : pyval * pyval) : bool :=
  match snd item with
  | PyDict fields =>
      match dict_get "merges" fields with
      | Some (PyList merge_data) => forallb merge_is_text merge_data
      | _ => true
      end
  | _ => true
  end.

(** No object written to is held twice: every merge entry that is a
    mapping whose remote or ref is no text is held at one place of the
    configuration.  Two places that hold one object hold equal trees, so
    an entry equal to no other value of the tree is shared with none. *)
Definition merges_held_once (config : dict) : bool :=
  forallb
    (fun item : pyval * pyval =>
       match snd item with
       | PyDict fields =>
           match dict_get "merges" fields with
           | Some (PyList merge_data) =>
               forallb (fun merge =>
                          merge_is_text merge
                          || Nat.eqb (places merge (PyDict config)) 1)
                 merge_data
           | _ => true
           end
       | _ => true
       end) config.

(** [{D: {remotes: {origin: "u"}, merges: [{remote: origin, ref: 14}]}}] *)
Definition integer_ref : dict :=
  [(PyStr "D", PyDict [(PyStr "remotes", origin_only);
                       (PyStr "merges",
                        PyList [PyDict [(PyStr "remote", PyStr "origin");
                                        (PyStr "ref", PyInt 14)]])])].

(** The same after [get_repos]: the ref reads ["14"]. *)
Definition integer_ref_after : dict :=
  [(PyStr "D", PyDict [(PyStr "remotes", origin_only);
                       (PyStr "merges",
                        PyList [PyDict [(PyStr "remote", PyStr "origin");
                                        (PyStr "ref", PyStr "14")]])])].

Section Statements.

Context {world : Type} {runtime : Runtime world}.

(** From [s] to [s'], if [directory] is not on disk in [s]: the world is
    the same and no remote was set. *)
Definition sets_nothing_if_absent (directory : string) (s s' : state world)
  : Prop :=
  path_exists (git s) directory = false ->
  git s' = git s /\ adds (fun c => negb (is_set_remote c)) s s'.

(** Calls are only ever added. *)
Definition grows : relation (state world) := adds (fun _ => true).

(** The ref of [merge] was asked of its remote, from [directory]. *)
Definition queried (directory : string) (cs : list call) (merge : pyval)
  : Prop :=
  exists remote_name ref,
    getitem merge "remote" = Ok remote_name
    /\ getitem merge "ref" = Ok ref
    /\ In (QueryRemoteRef directory (py_str remote_name) (py_str ref)) cs.

(** What [parse_merge] does, step by step: the values it stores at the
    place of the entry, oldest first, and how it ends. *)
Definition parse_outcome (directory : string) (merge : pyval)
  : list pyval * result pyval :=
  match merge with
  | PyStr text =>
      let parts := split " " text in
      ([],
       if Nat.eqb (length parts) 2 then
         Ok (PyDict [(PyStr "remote", PyStr (nth 0 parts EmptyString));
                     (PyStr "ref", PyStr (nth 1 parts EmptyString))])
       else
         Raise (ConfigException
                  (directory +:+ ": Merge must be formatted as "
                     +:+ dquote +:+ "remote_name ref" +:+ dquote +:+ ".")))
  | PyDict fields =>
      let lacks :=
        ConfigException (directory +:+ ": Merge lacks mandatory "
                           +:+ "`remote` or `ref` keys.") in
      match dict_get "remote" fields with
      | None => ([], Raise lacks)
      | Some r =>
          let fields1 := dict_set "remote" (PyStr (py_str r)) fields in
          match dict_get "ref" fields1 with
          | None => ([PyDict fields1], Raise lacks)
          | Some f =>
              let fields2 := dict_set "ref" (PyStr (py_str f)) fields1 in
              ([PyDict fields1; PyDict fields2], Ok (PyDict fields2))
          end
      end
  | _ => ([], Raise TypeError)
  end.

(** The state after the values [stored] went, one after the other, to
    entry [i] of the merges of directory [k]. *)
Definition written (k i : nat) (stored : list pyval) (s : state world)
  : state world :=
  {| input := fold_left (fun config merge => write_merge k i merge config)
                stored (input s);
     git := git s; calls := calls s; warnings := warnings s |}.

(** [fields] with the value under [key], if there is one, replaced by its
    text. *)
Definition coerced (key : string) (fields : dict) : dict :=
  match dict_get key fields with
  | Some v => dict_set key (PyStr (py_str v)) fields
  | None => fields
  end.

(** A merge entry as [get_repos] leaves it: as it was, or, for a mapping,
    with its remote and its ref replaced by their text. *)
Definition merge_rewritten (before after : pyval) : Prop :=
  after = before
  \/ exists fields,
       before = PyDict fields
       /\ after = PyDict (coerced "ref" (coerced "remote" fields)).

(** A directory as [get_repos] leaves it: the same key, and the same
    value but for the entries of its list of merges. *)
Definition entry_rewritten (before after : pyval * pyval) : Prop :=
  fst after = fst before
  /\ (snd after = snd before
      \/ exists fields merge_data merge_data',
           snd before = PyDict fields
           /\ dict_get "merges" fields = Some (PyList merge_data)
           /\ snd after
              = PyDict (dict_set "merges" (PyList merge_data') fields)
           /\ Forall2 merge_rewritten merge_data merge_data').

Definition config_rewritten (before after : dict) : Prop :=
  Forall2 entry_rewritten before after.

(** The caller's mapping reads the same. *)
Definition keeps_input : relation (state world) :=
  fun s s' => input s' = input s.

(** Setting a remote never fails. *)
Definition set_remote_works : Prop :=
  forall (w : world) directory remote_name remote_url,
  exists w', _set_remote w directory remote_name remote_url = Returned w'.

(** Whatever [m] raises satisfies [P]. *)
Definition raises_only {A : Type} (P : exn -> bool) (m : M world A) : Prop :=
  forall s e s', m s = (Raise e, s') -> P e = true.

End Statements.

(** ** Further properties of the resolver *)

Definition is_get_remotes (c : call) : bool :=
  match c with
  | GetRemotes _ => true
  | _ => false
  end.

(** From [s] to [s']: the world is the same, nothing was logged, and the
    only calls made listed the remotes of a working copy. *)
Definition lists_remotes_only {world : Type} (s s' : state world) : Prop :=
  git s' = git s /\ warnings s' = warnings s /\ adds is_get_remotes s s'.

(** A merge of a record: a mapping with text under [remote] and [ref]. *)
Definition text_fields (merge : pyval) : bool :=
  match getitem merge "remote", getitem merge "ref" with
  | Ok (PyStr _), Ok (PyStr _) => true
  | _, _ => false
  end.

(** A record has a remote and a merge at least, and its merges are
    mappings with text fields. *)
Definition record_complete (r : repo_dict) : bool :=
  match remotes r, merges r with
  | _ :: _, _ :: _ => forallb text_fields (merges r)
  | _, _ => false
  end.

(** A text with no white space in it. *)
Fixpoint no_space (s : string) : bool :=
  match s with
  | EmptyString => true
  | String c rest => negb (isspace c) && no_space rest
  end.

(** A word: not empty, no white space. *)
Definition is_word (s : string) : bool :=
  negb (String.eqb s "") && no_space s.

(** The target of a record is made of words. *)
Definition target_in_words (r : repo_dict) : bool :=
  is_word (branch (target r))
  && match remote (target r) with
     | Some remote_name => is_word remote_name
     | None => true
     end.

(** How many times [c] occurs in [s]. *)
Fixpoint count_char (c : ascii) (s : string) : nat :=
  match s with
  | EmptyString => 0
  | String c' rest => (if Ascii.eqb c' c then 1 else 0) + count_char c rest
  end.

(** *** What a configuration must be like to resolve *)

(** A merge entry: a text with one space, or a mapping with both keys. *)
Definition merge_accepted (merge : pyval) : bool :=
  match merge with
  | PyStr text => Nat.eqb (count_char " " text) 1
  | PyDict fields => dict_has "remote" fields && dict_has "ref" fields
  | _ => false
  end.

(** [merges]: not empty, and entries as above. *)
Definition merges_accepted (v : pyval) : bool :=
  py_bool v
  && match v with
     | PyList entries => forallb merge_accepted entries
     | PyDict kvs => forallb merge_accepted (map fst kvs)
     | PyStr text => forallb merge_accepted (chars text)
     | _ => false
     end.

(** [remotes]: a mapping, not empty, with a url for each name. *)
Definition remotes_accepted (v : pyval) : bool :=
  match v with
  | PyDict kvs => py_bool v && forallb (fun kv => py_bool (snd kv)) kvs
  | _ => false
  end.

(** The remote made of an item of the [remotes] mapping. *)
Definition remote_of (kv : pyval * pyval) : remote_dict :=
  {| name := fst kv; url := snd kv |}.

(** The remote made of a name and a url listed by a working copy. *)
Definition listed_remote (nu : string * string) : remote_dict :=
  {| name := PyStr (fst nu); url := PyStr (snd nu) |}.

(** Commands as a record holds them: the empty list, or a value that is
    true in a condition and is no text. *)
Definition commands_listed (v : pyval) : bool :=
  match v with
  | PyStr _ => false
  | PyList [] => true
  | _ => py_bool v
  end.

(** The commands of the record of [item], by what is configured under
    [shell_command_after]: nothing, or a value that is false in a
    condition, gives the empty list; a text gives the list of that one
    command; any other value is held as it is. *)
Definition commands_of (item : pyval * pyval) (r : repo_dict) : Prop :=
  commands_listed (shell_command_after r) = true
  /\ exists fields,
       snd item = PyDict fields
       /\ (dict_get "shell_command_after" fields = None ->
           shell_command_after r = PyList [])
       /\ (forall cmds,
              dict_get "shell_command_after" fields = Some cmds ->
              py_bool cmds = false ->
              shell_command_after r = PyList [])
       /\ (forall text,
              dict_get "shell_command_after" fields = Some (PyStr text) ->
              text <> "" ->
              shell_command_after r = PyList [PyStr text])
       /\ (forall cmds,
              dict_get "shell_command_after" fields = Some cmds ->
              py_bool cmds = true ->
              (forall text, cmds <> PyStr text) ->
              shell_command_after r = cmds).

(** The minimal configuration with [shell_command_after: "make"]. *)
Definition commanded_config (D : string) : dict :=
  [(PyStr D, PyDict [(PyStr "remotes", PyDict [(PyStr "origin", PyStr "u")]);
                     (PyStr "merges", PyList [PyStr "origin 14.0"]);
                     (PyStr "shell_command_after", PyStr "make")])].

Section MoreStatements.

Context {world : Type} {runtime : Runtime world}.

(** [os.path.abspath] where the path is not absolute already. *)
Definition absolute (D : string) : string := if isabs D then D else abspath D.

(** The record of [item] starts as the loop starts it: the directory made
    absolute, the flag, and the options as configured, [False] or the
    empty mapping when they are not. *)
Definition heads (forced : bool) (item : pyval * pyval) (r : repo_dict) : Prop :=
  exists D fields,
    item = (PyStr D, PyDict fields)
    /\ cwd r = absolute D
    /\ force r = forced
    /\ defaults r = dict_get_default "defaults" (PyDict []) fields
    /\ skip_dry_run r = dict_get_default "skip_dry_run" (PyBool false) fields
    /\ apply_patch r = dict_get_default "apply_patch" (PyBool false) fields
    /\ skip_repo_init r
       = dict_get_default "skip_repo_init" (PyBool false) fields.

(** The target of the record of [item] reads as configured: its remote
    and its branch are the words of the configured value, and with no
    word the branch is [_git_aggregated]. *)
Definition target_reads (item : pyval * pyval) (r : repo_dict) : Prop :=
  exists fields,
    snd item = PyDict fields
    /\ let parts :=
         split_whitespace
           (py_str (dict_get_default "target" (PyStr "") fields)) in
       match remote (target r) with
       | Some remote_name => parts = [remote_name; branch (target r)]
       | None =>
           parts = [branch (target r)]
           \/ (parts = [] /\ branch (target r) = "_git_aggregated")
       end.

(** Lines 40-70 as [get_repo] runs them: the remotes of the directory
    and their names, configured or listed by the working copy. *)
Definition resolve_remotes (directory : string) (repo_data : dict)
  : M world (list remote_dict * list pyval) :=
  if dict_has "remotes" repo_data
  then lift (configured_remotes directory
               (dict_get_default "remotes" PyNone repo_data))
  else discovered_remotes directory.

(** The remote and the ref a merge entry names: the two parts of a text,
    the text of the two fields of a mapping. *)
Definition merge_fields (merge0 : pyval) : option (string * string) :=
  match merge0 with
  | PyStr text =>
      match split " " text with
      | [remote_name; ref] => Some (remote_name, ref)
      | _ => None
      end
  | PyDict fields =>
      match dict_get "remote" fields, dict_get "ref" fields with
      | Some r, Some f => Some (py_str r, py_str f)
      | _, _ => None
      end
  | _ => None
  end.

(** The query made for a merge entry that passes the cross-check: it
    names a remote and a ref, and the remote is one of [remote_names]. *)
Definition query_of (directory : string) (remote_names : list pyval)
    (merge0 : pyval) : option call :=
  match merge_fields merge0 with
  | Some (remote_name, ref) =>
      if set_mem (PyStr remote_name) remote_names
      then Some (QueryRemoteRef directory remote_name ref)
      else None
  | None => None
  end.

(** One query for each entry, in order, up to the first entry that does
    not pass. *)
Fixpoint queries_of (directory : string) (remote_names : list pyval)
    (entries : list pyval) : list call :=
  match entries with
  | [] => []
  | merge0 :: rest =>
      match query_of directory remote_names merge0 with
      | Some c => c :: queries_of directory remote_names rest
      | None => []
      end
  end.

(** The call that sets remote [r] on the working copy of [directory]. *)
Definition set_call (directory : string) (r : remote_dict) : call :=
  SetRemote directory (name r) (url r).

(** [target]: two words at most. *)
Definition target_accepted (fields : dict) : bool :=
  Nat.leb (length (split_whitespace
                     (py_str (dict_get_default "target" (PyStr "") fields))))
    2.

(** A directory that may resolve: a text key, and a mapping with merges,
    whose remotes, target and [fetch_all] are as above. *)
Definition entry_accepted (item : pyval * pyval) : bool :=
  match item with
  | (PyStr _, PyDict fields) =>
      match dict_get "merges" fields with
      | Some v => merges_accepted v
      | None => false
      end
      && shaped_at "remotes" remotes_accepted fields
      && target_accepted fields
      && shaped_at "fetch_all" fetch_all_shaped fields
  | _ => false
  end.

(** No remote has any ref. *)
Definition nothing_found : Prop :=
  forall (w : world) directory remote_name ref,
  exists sha,
    query_remote_ref w directory remote_name ref = Returned (None, sha).

(** The ref a merge entry asks for: the second part of a text, the text
    of the [ref] of a mapping. *)
Definition asked_ref (merge0 : pyval) : option string :=
  match merge0 with
  | PyStr text => Some (nth 1 (split " " text) EmptyString)
  | PyDict fields => option_map py_str (dict_get "ref" fields)
  | _ => None
  end.

Definition no_hash_asked (merge0 : pyval) : bool :=
  match asked_ref merge0 with
  | Some ref => negb (ishex ref)
  | None => true
  end.

(** No merge entry of the directory asks for a ref that looks like a
    hash. *)
Definition no_hash (item : pyval * pyval) : bool :=
  match snd item with
  | PyDict fields =>
      match py_iter (py_or (dict_get_default "merges" PyNone fields)
                       (PyList [])) with
      | Ok entries => forallb no_hash_asked entries
      | Raise _ => true
      end
  | _ => true
  end.

End MoreStatements.

(** ** Loading a configuration file: [load_config] *)

(** [s.lstrip()], [s.rstrip()] and [s.strip()]: without the white space
    at the ends. *)
Fixpoint lstrip (s : string) : string :=
  match s with
  | EmptyString => EmptyString
  | String c rest => if isspace c then lstrip rest else s
  end.

Fixpoint rstrip (s : string) : string :=
  match s with
  | EmptyString => EmptyString
  | String c rest =>
      match rstrip rest with
      | EmptyString => if isspace c then EmptyString else String c EmptyString
      | kept => String c kept
      end
  end.

Definition strip (s : string) : string := lstrip (rstrip s).

(** [s[1:]] *)
Definition after_first (s : string) : string :=
  match s with
  | EmptyString => EmptyString
  | String _ rest => rest
  end.

(** [c in s] for a character *)
Definition has_char (c : ascii) (s : string) : bool :=
  Nat.ltb 0 (count_char c s).

(** What [load_config] may raise: an exception of the resolver's kinds,
    a [ValueError] (that of an assignment to two names, line 207, or one
    that opening a file, [Template.substitute] or [yaml.load] raised),
    and any other exception of those three. *)
Inductive load_exn : Type :=
| Resolving (e : exn)
| ValueError
| Outside (msg : string).

(** A step of [load_config]: a value, or the exception that ends it. *)
Inductive attempt (A : Type) : Type :=
| Got (a : A)
| GaveUp (e : load_exn).

Arguments Got {A} a.
Arguments GaveUp {A} e.

Definition attempt_bind {A B : Type} (x : attempt A) (f : A -> attempt B)
  : attempt B :=
  match x with
  | Got a => f a
  | GaveUp e => GaveUp e
  end.

(** The functions of other modules [load_config] calls, besides those of
    [Runtime].
    - [isfile], [splitext]: [os.path].
    - [read]: [open(path).read()]; [readlines]: the lines of a file, as
      iterating over the open file yields them.
    - [environ]: [os.environ].
    - [substitute]: [Template(text).substitute(mapping)].
    - [yaml_load]: [yaml.load(text, Loader=yaml.SafeLoader)].
    The last four return or raise, and what they raise is theirs to
    choose: a [ValueError] as well ([substitute] on a stray [$], a file
    that does not decode) as anything else ([KeyError] for a name that
    stands for nothing, [OSError], a YAML error). *)
Class Loading (world : Type) : Type := {
  isfile : world -> string -> bool;
  splitext : string -> string * string;
  read : world -> string -> attempt string;
  readlines : world -> string -> attempt (list string);
  environ : world -> gmap string string;
  substitute : string -> gmap string string -> attempt string;
  yaml_load : string -> attempt pyval
}.

(** Lines 202-208: one line of the file of variables. *)
Definition env_line (environment : gmap string string) (line0 : string)
  : attempt (gmap string string) :=
  let line := strip line0 in
  if startswith "#" line then Got environment
  else if has_char "=" line then
    match split "=" line with
    | [key; value] => Got (<[strip key := strip value]> environment)
    | _ => GaveUp ValueError
    end
  else Got environment.

Fixpoint env_lines (lines : list string) (environment : gmap string string)
  : attempt (gmap string string) :=
  match lines with
  | [] => Got environment
  | line :: rest =>
      attempt_bind (env_line environment line) (env_lines rest)
  end.


(** A line that counts: not a comment, with a [=]. *)
Definition assigns (line0 : string) : bool :=
  let line := strip line0 in
  negb (startswith "#" line) && has_char "=" line.

(** A name or a value written plainly: no white space, no [=]. *)
Definition plain (s : string) : bool :=
  no_space s && Nat.eqb (count_char "=" s) 0.

Section Loader.

Context {world : Type} {runtime : Runtime world} {loading : Loading world}.

(** Lines 199-209: the variables to expand, those of the process over
    those of the file. *)
Definition load_environment (env_file : option string) (w : world)
  : attempt (gmap string string) :=
  attempt_bind
    (match env_file with
     | Some path =>
         if isfile w path then
           attempt_bind (readlines w path) (fun lines => env_lines lines ∅)
         else Got ∅
     | None => Got ∅
     end)
    (fun environment => Got (environ w ∪ environment)).

(** Line 218: [get_repos(conf or {}, ...)]; a document that is no
    mapping has no [items]. *)
Definition resolve_document (conf : pyval) (force skip_merge_check : bool)
    (w : world) : attempt (result (list repo_dict) * state world) :=
  match py_or conf (PyDict []) with
  | PyDict config => Got (get_repos config force skip_merge_check w)
  | _ => GaveUp (Resolving AttributeError)
  end.

(** Lines 172-218.  [Got] holds what [get_repos] gave; [GaveUp] what was
    raised before [get_repos] was called. *)
Definition load_config (config : string) (expand_env : bool)
    (env_file : option string) (force skip_merge_check : bool) (w : world)
  : attempt (result (list repo_dict) * state world) :=
  if negb (path_exists w config) then
    GaveUp (Resolving (ConfigException
                         ("Unable to find configuration file: " +:+ config)))
  else
    let file_extension := after_first (snd (splitext config)) in
    if negb (String.eqb file_extension "yaml"
             || String.eqb file_extension "yml") then
      GaveUp (Resolving
                (ConfigException
                   ("Only .yaml and .yml configuration files are supported "
                      +:+ "(got " +:+ file_extension +:+ ")")))
    else
      attempt_bind
        (if expand_env then
           attempt_bind (load_environment env_file w) (fun environment =>
           attempt_bind (read w config) (fun text =>
           substitute text environment))
         else read w config)
        (fun text =>
           attempt_bind (yaml_load text) (fun conf =>
           resolve_document conf force skip_merge_check w)).

End Loader.

(** A loader for the examples: one file of variables, /srv/vars, with
    the given lines; every configuration file reads the same and parses
    to [document]; nothing is substituted; the process has one variable,
    HOME. *)
Definition scripted_loading (lines : list string) (document : pyval)
  : Loading unit :=
  {| isfile := fun _ path => String.eqb path "/srv/vars";
     splitext := fun path =>
       if String.eqb path "/srv/repos.yaml" then ("/srv/repos", ".yaml")
       else (path, "");
     read := fun _ _ => Got "./D: ...";
     readlines := fun _ _ => Got lines;
     environ := fun _ => {[ "HOME" := "/root" ]};
     substitute := fun text _ => Got text;
     yaml_load := fun _ => Got document |}.

(** ** The monad *)

Section Monad.

Context {world : Type}.

Lemma bind_ok {A B : Type} (m : M world A) (f : A -> M world B) s a s1 :
  m s = (Ok a, s1) -> bind m f s = f a s1.
Proof. intros Hm. unfold bind. now rewrite Hm. Qed.

Lemma bind_raise {A B : Type} (m : M world A) (f : A -> M world B) s e s1 :
  m s = (Raise e, s1) -> bind m f s = (Raise e, s1).
Proof. intros Hm. unfold bind. now rewrite Hm. Qed.

Lemma bind_assoc {A B C : Type} (m : M world A) (f : A -> M world B)
    (g : B -> M world C) s :
  bind (bind m f) g s = bind m (fun a => bind (f a) g) s.
Proof. unfold bind. now destruct (m s) as [[a | e] s1]. Qed.

Lemma bind_lift_ok {A B : Type} (a : A) (f : A -> M world B) (s : state world) :
  bind (lift (Ok a)) f s = f a s.
Proof. reflexivity. Qed.

Lemma bind_inv {A B : Type} (m : M world A) (f : A -> M world B) s r s2 :
  bind m f s = (r, s2) ->
  (exists e, m s = (Raise e, s2) /\ r = Raise e)
  \/ (exists a s1, m s = (Ok a, s1) /\ f a s1 = (r, s2)).
Proof.
  unfold bind. destruct (m s) as [[a | e] s1]; intros Hr.
  - right. eauto.
  - left. exists e. now inversion Hr.
Qed.

Lemma bind_ok_inv {A B : Type} (m : M world A) (f : A -> M world B) s b s2 :
  bind m f s = (Ok b, s2) ->
  exists a s1, m s = (Ok a, s1) /\ f a s1 = (Ok b, s2).
Proof.
  intros Hr. apply bind_inv in Hr as [(e & _ & He) | Hr]; [discriminate | exact Hr].
Qed.

End Monad.

(** ** The loop over the directories *)

Section Loop.

Context {world : Type} {runtime : Runtime world}.

(** Running the loop over [before ++ after] is running it over [before]
    and going on with [after] from where that ends. *)
Lemma get_repos_loop_app (before after : dict) force skip :
  forall k repo_list s,
    get_repos_loop k (before ++ after) force skip repo_list s =
    bind (get_repos_loop k before force skip repo_list)
         (fun found => get_repos_loop (k + length before) after force skip found) s.
Proof.
  induction before as [| [directory repo_data] before IH]; intros k repo_list s.
  - cbn. now rewrite Nat.add_0_r.
  - cbn [app get_repos_loop length]. rewrite bind_assoc.
    destruct (get_repo k directory repo_data force skip s) as [[r | e] s1] eqn:Hr.
    + rewrite !(bind_ok _ _ _ _ _ Hr), IH.
      now replace (S k + length before) with (k + S (length before)) by lia.
    + now rewrite !(bind_raise _ _ _ _ _ Hr).
Qed.

End Loop.

(** ** The steps do not read the caller's mapping *)

Section Blind.

Context {world : Type} {runtime : Runtime world}.

Lemma blind_ret {A : Type} (a : A) : blind (@ret world A a).
Proof. intros s t Hst. now split. Qed.

Lemma blind_raise {A : Type} (e : exn) : blind (@raise world A e).
Proof. intros s t Hst. now split. Qed.

Lemma blind_lift {A : Type} (x : result A) : blind (@lift world A x).
Proof. intros s t Hst. now split. Qed.

Lemma blind_bind {A B : Type} (m : M world A) (f : A -> M world B) :
  blind m -> (forall a, blind (f a)) -> blind (bind m f).
Proof.
  intros Hm Hf s t Hst. unfold bind. destruct (Hm s t Hst) as [Hr Hst'].
  destruct (m s) as [[a | e] s1], (m t) as [[a' | e'] t1]; cbn [fst snd] in *;
    try discriminate.
  - injection Hr as <-. now apply Hf.
  - injection Hr as <-. now split.
Qed.

Lemma blind_try_except {A : Type} (body : M world A) handler :
  blind body -> (forall e, blind (handler e)) -> blind (try_except body handler).
Proof.
  intros Hbody Hhandler s t Hst. unfold try_except.
  destruct (Hbody s t Hst) as [Hr Hst'].
  destruct (body s) as [[a | e] s1], (body t) as [[a' | e'] t1];
    cbn [fst snd] in *; try discriminate.
  - injection Hr as <-. now split.
  - injection Hr as <-. now apply Hhandler.
Qed.

Lemma blind_log_warning msg : blind (@log_warning world msg).
Proof.
  intros s t (Hgit & Hcalls & Hwarnings). split; [reflexivity |].
  unfold log_warning, logged, same_effects. cbn. now rewrite Hwarnings.
Qed.

Lemma blind_setitem k i merge key v : blind (@setitem world k i merge key v).
Proof.
  unfold setitem. destruct merge; try apply blind_raise.
  intros s t Hst. now split.
Qed.

Lemma blind_discovered_remotes directory : blind (discovered_remotes directory).
Proof.
  intros s t (Hgit & Hcalls & Hwarnings). unfold discovered_remotes.
  rewrite Hgit. unfold record, same_effects.
  destruct (_get_remotes (git t) directory); cbn; now rewrite Hcalls.
Qed.

Lemma blind_call_query_remote_ref repo remote_name ref :
  blind (call_query_remote_ref repo remote_name ref).
Proof.
  intros s t (Hgit & Hcalls & Hwarnings). unfold call_query_remote_ref.
  rewrite Hgit. unfold record, same_effects.
  destruct (query_remote_ref _ _ _ _); cbn; now rewrite Hcalls.
Qed.

Lemma blind_call_set_remote tmp_repo r : blind (call_set_remote tmp_repo r).
Proof.
  intros s t (Hgit & Hcalls & Hwarnings). unfold call_set_remote.
  rewrite Hgit. unfold record, same_effects.
  destruct (_set_remote _ _ _ _); cbn; now rewrite Hcalls.
Qed.

Lemma blind_set_remotes_loop tmp_repo rs : blind (set_remotes_loop tmp_repo rs).
Proof.
  induction rs as [| r rs IH]; cbn [set_remotes_loop].
  - apply blind_ret.
  - apply blind_bind; [apply blind_call_set_remote | intros _; exact IH].
Qed.

Lemma blind_open_repo directory rs skip : blind (open_repo directory rs skip).
Proof.
  unfold open_repo. destruct skip; cbn [negb]; [apply blind_ret |].
  intros s t Hst. destruct Hst as (Hgit & Hcalls & Hwarnings).
  rewrite Hgit. destruct (path_exists _ _).
  - apply blind_bind;
      [apply blind_set_remotes_loop | intros _; apply blind_ret | now split].
  - now split.
Qed.

End Blind.

(** Breaks a computation into its steps, for [blind]. *)
Ltac blind_steps :=
  repeat first
    [ apply blind_ret
    | apply blind_raise
    | apply blind_lift
    | apply blind_log_warning
    | apply blind_setitem
    | apply blind_discovered_remotes
    | apply blind_call_query_remote_ref
    | apply blind_open_repo
    | apply blind_bind; [| intros ?]
    | apply blind_try_except; [| intros ?]
    | match goal with
      | |- blind (match ?x with _ => _ end) => destruct x
      | |- blind (let (_, _) := ?x in _) => destruct x
      end ].

Section BlindLoops.

Context {world : Type} {runtime : Runtime world}.

Lemma blind_merges_loop k directory remote_names skip tmp_repo merge_data :
  forall i acc,
    blind (merges_loop k i directory remote_names skip tmp_repo merge_data acc).
Proof.
  induction merge_data as [| merge merge_data IH]; intros i acc;
    cbn [merges_loop]; [apply blind_ret |].
  apply blind_bind; [unfold resolve_merge; blind_steps | intros kept; apply IH].
Qed.

Lemma blind_get_repo k directory repo_data force skip :
  blind (get_repo k directory repo_data force skip).
Proof.
  unfold get_repo, resolve_merges. blind_steps; apply blind_merges_loop.
Qed.

Lemma blind_get_repos_loop force skip (items : dict) :
  forall k repo_list, blind (get_repos_loop k items force skip repo_list).
Proof.
  induction items as [| [directory repo_data] items IH]; intros k repo_list;
    cbn [get_repos_loop]; [apply blind_ret |].
  apply blind_bind; [apply blind_get_repo | intros r; apply IH].
Qed.

End BlindLoops.

(** ** The whole function on small configurations *)

Section Examples.

Context {world : Type} {runtime : Runtime world}.

(** C10: on the empty mapping [get_repos] returns the empty list, whatever
    the two flags are; it raises nothing, asks nothing of any working copy
    and logs nothing. *)
Theorem get_repos_empty (force skip_merge_check : bool) (w : world) :
  get_repos [] force skip_merge_check w = (Ok [], enter [] w).
Proof. reflexivity. Qed.

(** C3: the configuration [{D: {remotes: {origin: "u"}, merges: ["origin
    14.0"]}}], resolved without the merge check, gives exactly one record:
    remotes [[{origin, u}]], merges [[{origin, 14.0}]], no target remote,
    target branch [_git_aggregated], [fetch_all] false and no command.
    Its directory is [D] made absolute, and the mapping is left as it
    was. *)
Theorem get_repos_minimal (D : string) (force : bool) (w : world) :
  get_repos (minimal_config D) force true w =
  (Ok [minimal_repo (if isabs D then D else abspath D) force],
   enter (minimal_config D) w).
Proof. reflexivity. Qed.

(** C9: without the merge check, the merge written as the text [origin
    14.0] and the merge written as the mapping [{remote: origin, ref:
    "14.0"}] resolve to the same merges list, the one entry [{remote:
    origin, ref: 14.0}]. *)
Theorem merge_shapes_agree (D : string) (force : bool) (w : world) :
  exists from_text from_mapping,
    fst (get_repos (minimal_config D) force true w) = Ok from_text
    /\ fst (get_repos (mapping_config D) force true w) = Ok from_mapping
    /\ map merges from_text = map merges from_mapping
    /\ map merges from_text =
         [[PyDict [(PyStr "remote", PyStr "origin");
                   (PyStr "ref", PyStr "14.0")]]].
Proof.
  exists [minimal_repo (if isabs D then D else abspath D) force],
         [minimal_repo (if isabs D then D else abspath D) force].
  repeat split; reflexivity.
Qed.

(** C2: when the directories before one resolve and that one raises,
    [get_repos] raises the same exception and returns no list; it stops
    in the state that directory left.  Nothing after that directory is
    looked at: with other directories after it, [get_repos] raises the
    same exception, having made the same calls and logged the same
    warnings. *)
Theorem get_repos_fail_fast (before after : dict) (directory repo_data : pyval)
    (force skip_merge_check : bool) (w : world)
    (found : list repo_dict) (e : exn) (s1 s2 : state world) :
  get_repos_loop 0 before force skip_merge_check []
    (enter (before ++ (directory, repo_data) :: after) w) = (Ok found, s1) ->
  get_repo (length before) directory repo_data force skip_merge_check s1
    = (Raise e, s2) ->
  get_repos (before ++ (directory, repo_data) :: after) force skip_merge_check w
    = (Raise e, s2)
  /\ forall after',
      exists s2',
        get_repos (before ++ (directory, repo_data) :: after') force
          skip_merge_check w = (Raise e, s2')
        /\ same_effects s2 s2'.
Proof.
  intros Hbefore Hraise.
  assert (Hhere : get_repos (before ++ (directory, repo_data) :: after) force
                    skip_merge_check w = (Raise e, s2)).
  { unfold get_repos.
    rewrite get_repos_loop_app, (bind_ok _ _ _ _ _ Hbefore).
    cbn [get_repos_loop]. now rewrite (bind_raise _ _ _ _ _ Hraise). }
  split; [exact Hhere |]. intros after'.
  set (t0 := enter (before ++ (directory, repo_data) :: after') w).
  destruct (blind_get_repos_loop force skip_merge_check before 0 []
              (enter (before ++ (directory, repo_data) :: after) w) t0)
    as [Hfound Hs1]; [now split |].
  rewrite Hbefore in Hfound, Hs1.
  destruct (get_repos_loop 0 before force skip_merge_check [] t0)
    as [found' t1] eqn:Hbefore'.
  cbn [fst snd] in Hfound, Hs1. subst found'.
  destruct (blind_get_repo (length before) directory repo_data force
              skip_merge_check s1 t1 Hs1) as [He Hs2].
  rewrite Hraise in He, Hs2.
  destruct (get_repo (length before) directory repo_data force
              skip_merge_check t1) as [e' t2] eqn:Hraise'.
  cbn [fst snd] in He, Hs2. subst e'.
  exists t2. split; [| exact Hs2].
  unfold get_repos. fold t0.
  rewrite get_repos_loop_app, (bind_ok _ _ _ _ _ Hbefore').
  cbn [get_repos_loop]. now rewrite (bind_raise _ _ _ _ _ Hraise').
Qed.

End Examples.

(** ** Inversion of the steps *)

Section Inversion.

Context {world : Type} {runtime : Runtime world}.

Lemma ret_inv {A : Type} (a : A) (s : state world) r s' :
  ret a s = (r, s') -> r = Ok a /\ s' = s.
Proof. unfold ret. intros Hr. now inversion Hr. Qed.

Lemma raise_inv {A : Type} (e : exn) (s : state world) (r : result A) s' :
  raise e s = (r, s') -> r = Raise e /\ s' = s.
Proof. unfold raise. intros Hr. now inversion Hr. Qed.

Lemma lift_inv {A : Type} (x : result A) (s : state world) r s' :
  lift x s = (r, s') -> x = r /\ s' = s.
Proof. unfold lift. intros Hr. now inversion Hr. Qed.

Lemma try_except_inv {A : Type} (body : M world A) handler s r s' :
  try_except body handler s = (r, s') ->
  (exists a, body s = (Ok a, s') /\ r = Ok a)
  \/ (exists e s1, body s = (Raise e, s1) /\ handler e s1 = (r, s')).
Proof.
  unfold try_except. destruct (body s) as [[a | e] s1]; intros Hr.
  - left. exists a. now inversion Hr.
  - right. eauto.
Qed.

(** What the loop returns is what it was given followed by one record
    for each directory, each returned by [get_repo]. *)
Lemma get_repos_loop_ok force skip (items : dict) :
  forall k repo_list s found s',
    get_repos_loop k items force skip repo_list s = (Ok found, s') ->
    exists new,
      found = repo_list ++ new
      /\ Forall2 (fun item r =>
                    exists k1 s1 s2,
                      get_repo k1 (fst item) (snd item) force skip s1 = (Ok r, s2))
           items new.
Proof.
  induction items as [| [directory repo_data] items IH];
    intros k repo_list s found s' Hrun.
  - apply ret_inv in Hrun as [[= <-] _]. exists []. split.
    + now rewrite app_nil_r.
    + constructor.
  - cbn [get_repos_loop] in Hrun.
    apply bind_ok_inv in Hrun as (r & s1 & Hr & Hrest).
    apply IH in Hrest as (new & -> & Hnew).
    exists (r :: new). split.
    + now rewrite <- app_assoc.
    + constructor; [cbn [fst snd]; eauto | exact Hnew].
Qed.

End Inversion.

(** ** Dictionaries *)

Section Dictionaries.

Lemma dict_get_set_same (key : string) (v : pyval) (d : dict) :
  dict_get key (dict_set key v d) = Some v.
Proof.
  induction d as [| [k w] d IH]; cbn [dict_get dict_set].
  - cbn [key_eq]. now rewrite String.eqb_refl.
  - destruct (key_eq (PyStr key) k) eqn:Hk; cbn [dict_get]; now rewrite Hk.
Qed.

Lemma dict_get_set_other (key key' : string) (v : pyval) (d : dict) :
  String.eqb key key' = false ->
  dict_get key (dict_set key' v d) = dict_get key d.
Proof.
  intros Hne. induction d as [| [k w] d IH]; cbn [dict_get dict_set].
  - cbn [key_eq]. now rewrite Hne.
  - destruct (key_eq (PyStr key') k) eqn:Hk'; cbn [dict_get].
    + destruct (key_eq (PyStr key) k) eqn:Hk; [| reflexivity].
      destruct k; try discriminate. cbn [key_eq] in Hk, Hk'.
      apply String.eqb_eq in Hk, Hk'. subst.
      now rewrite String.eqb_refl in Hne.
    + now rewrite IH.
Qed.

(** Storing what is there already changes nothing. *)
Lemma dict_set_same (key : string) (v : pyval) (d : dict) :
  dict_get key d = Some v -> dict_set key v d = d.
Proof.
  induction d as [| [k w] d IH]; cbn [dict_get dict_set]; [discriminate |].
  destruct (key_eq (PyStr key) k).
  - now intros [= ->].
  - intros Hget. now rewrite IH.
Qed.

Lemma dict_set_twice (key : string) (v v' : pyval) (d : dict) :
  dict_set key v' (dict_set key v d) = dict_set key v' d.
Proof.
  induction d as [| [k w] d IH]; cbn [dict_set].
  - cbn [key_eq]. now rewrite String.eqb_refl.
  - destruct (key_eq (PyStr key) k) eqn:Hk; cbn [dict_set]; rewrite Hk;
      [reflexivity | now rewrite IH].
Qed.

End Dictionaries.

(** ** The shapes of a merge entry *)

Section Shapes.

Context {world : Type} {runtime : Runtime world}.

Lemma parse_merge_run (k i : nat) (directory : string) (merge : pyval)
    (s : state world) :
  parse_merge k i directory merge s =
  (snd (parse_outcome directory merge),
   written k i (fst (parse_outcome directory merge)) s).
Proof.
  destruct s as [config w cs ws].
  destruct merge as [| b | z | text | xs | fields]; try reflexivity.
  - unfold parse_merge, parse_outcome, try_except, bind, lift, raise, ret.
    cbn [py_split fst snd].
    now destruct (Nat.eqb (length (split " " text)) 2).
  - unfold parse_merge, parse_outcome, try_except, bind, lift, raise, ret,
      setitem, getitem, written.
    cbn [py_split fst snd].
    destruct (dict_get "remote" fields) as [r |]; [| reflexivity].
    cbn [input git calls warnings].
    now destruct (dict_get "ref" (dict_set "remote" (PyStr (py_str r)) fields)).
Qed.

(** An entry that parses has its two fields, both text. *)
Lemma parse_outcome_fields (directory : string) (merge0 merge : pyval) :
  snd (parse_outcome directory merge0) = Ok merge ->
  exists remote_name ref,
    getitem merge "remote" = Ok (PyStr remote_name)
    /\ getitem merge "ref" = Ok (PyStr ref).
Proof.
  destruct merge0 as [| b | z | text | xs | fields]; try discriminate;
    cbn [parse_outcome snd].
  - destruct (Nat.eqb _ 2); [| discriminate]. intros [= <-].
    eexists _, _. split; reflexivity.
  - destruct (dict_get "remote" fields) as [r |]; [| discriminate].
    destruct (dict_get "ref" _) as [f |]; [| discriminate].
    cbn [snd]. intros [= <-]. exists (py_str r), (py_str f).
    unfold getitem.
    rewrite dict_get_set_same, dict_get_set_other, dict_get_set_same; auto.
Qed.

End Shapes.

(** ** The names a record may refer to *)

Section ForeignKeys.

Context {world : Type} {runtime : Runtime world}.

(** For a text, to be named by a record is to be the name of one of its
    remotes. *)
Lemma names_remote_text (r : repo_dict) (remote_name : string) :
  names_remote r (PyStr remote_name) = true
  <-> In (PyStr remote_name) (map name (remotes r)).
Proof.
  unfold names_remote. rewrite existsb_exists, in_map_iff. split.
  - intros (rd & Hin & Heq). exists rd. split; [| exact Hin].
    destruct (name rd); try discriminate. cbn [key_eq] in Heq.
    now apply String.eqb_eq in Heq as ->.
  - intros (rd & Hname & Hin). exists rd. split; [exact Hin |].
    rewrite Hname. cbn [key_eq]. apply String.eqb_refl.
Qed.

Lemma set_mem_add (x y : pyval) (s : list pyval) :
  set_mem x (set_add y s) = true -> key_eq x y = true \/ set_mem x s = true.
Proof.
  unfold set_add. destruct (set_mem y s); [now right |].
  unfold set_mem. rewrite existsb_app. cbn. rewrite orb_false_r.
  intros [Hs | Hy]%orb_true_iff; auto.
Qed.

Lemma known_add names rs remote_name remote_url :
  known names rs ->
  known (set_add remote_name names)
        (rs ++ [{| name := remote_name; url := remote_url |}]).
Proof.
  intros Hknown x Hx. rewrite existsb_app.
  apply set_mem_add in Hx as [Hx | Hx].
  - cbn. now rewrite Hx, orb_true_r.
  - now rewrite (Hknown x Hx).
Qed.

Lemma remotes_loop_known directory items :
  forall acc names rs names',
    remotes_loop directory items acc names = Ok (rs, names') ->
    known names acc -> known names' rs.
Proof.
  induction items as [| [remote_name remote_url] items IH];
    intros acc names rs names' Hloop Hknown.
  - now inversion Hloop; subst.
  - cbn [remotes_loop] in Hloop.
    destruct (negb (py_bool remote_url)); [discriminate |].
    eapply IH; [exact Hloop | now apply known_add].
Qed.

Lemma configured_remotes_known directory v rs names :
  configured_remotes directory v = Ok (rs, names) -> known names rs.
Proof.
  unfold configured_remotes, result_bind.
  destruct (py_items _) as [remotes_data |]; [| discriminate].
  destruct (remotes_loop _ _ _ _) as [[rs' names'] |] eqn:Hloop; [| discriminate].
  cbn [snd]. destruct names'; [discriminate |].
  intros [= <- <-]. eapply remotes_loop_known; [exact Hloop |].
  intros x Hx. discriminate.
Qed.

Lemma discovered_loop_known items :
  forall acc names, known names acc ->
    known (snd (discovered_loop items acc names))
          (fst (discovered_loop items acc names)).
Proof.
  induction items as [| [remote_name remote_url] items IH];
    intros acc names Hknown; [exact Hknown |].
  cbn [discovered_loop]. apply IH. now apply known_add.
Qed.

Lemma discovered_remotes_known directory s rs names s' :
  discovered_remotes directory s = (Ok (rs, names), s') -> known names rs.
Proof.
  unfold discovered_remotes.
  destruct (_get_remotes _ _) as [found |]; [| discriminate].
  intros [= Hfound _].
  pose proof (discovered_loop_known found [] []) as Hknown.
  rewrite Hfound in Hknown. apply Hknown. intros x Hx. discriminate.
Qed.

Lemma resolve_merge_kept k i directory remote_names skip tmp_repo merge0 s
    merge s' :
  resolve_merge k i directory remote_names skip tmp_repo merge0 s
    = (Ok (Some merge), s') ->
  names_member remote_names merge.
Proof.
  unfold resolve_merge. intros Hrun.
  apply bind_ok_inv in Hrun as (merge1 & s1 & Hparse & Hrun).
  rewrite parse_merge_run in Hparse. injection Hparse as Hparse _.
  apply parse_outcome_fields in Hparse as (remote_name & ref & Hremote & _).
  apply bind_ok_inv in Hrun as (v & s2 & [Hget _]%lift_inv & Hrun).
  assert (v = PyStr remote_name) as -> by congruence.
  destruct (set_mem (PyStr remote_name) remote_names) eqn:Hmem;
    cbn [negb] in Hrun.
  - apply bind_ok_inv in Hrun as ([|] & s3 & _ & Hrun);
      apply ret_inv in Hrun as [[= Hm] _].
    subst merge1. now exists remote_name.
  - now apply raise_inv in Hrun as [[=] _].
Qed.

Lemma merges_loop_members directory remote_names skip tmp_repo k merge_data :
  forall i acc s found s',
    merges_loop k i directory remote_names skip tmp_repo merge_data acc s
      = (Ok found, s') ->
    Forall (names_member remote_names) acc ->
    Forall (names_member remote_names) found.
Proof.
  induction merge_data as [| merge0 merge_data IH];
    intros i acc s found s' Hrun Hacc.
  - now apply ret_inv in Hrun as [[= <-] _].
  - cbn [merges_loop] in Hrun.
    apply bind_ok_inv in Hrun as (kept & s1 & Hkept & Hrun).
    eapply IH; [exact Hrun |].
    destruct kept as [merge |]; [| exact Hacc].
    apply Forall_app. split; [exact Hacc |].
    constructor; [| constructor]. eapply resolve_merge_kept, Hkept.
Qed.

Lemma resolve_merges_members k directory rs remote_names skip repo_data s
    found s' :
  resolve_merges k directory rs remote_names skip repo_data s = (Ok found, s') ->
  Forall (names_member remote_names) found.
Proof.
  unfold resolve_merges. destruct (dict_has "merges" repo_data).
  - intros Hrun.
    apply bind_ok_inv in Hrun as (tmp_repo & s1 & _ & Hrun).
    apply bind_ok_inv in Hrun as (entries & s2 & _ & Hrun).
    apply bind_ok_inv in Hrun as (merges0 & s3 & Hloop & Hrun).
    destruct merges0 as [| m merges0].
    + now apply raise_inv in Hrun as [[=] _].
    + apply ret_inv in Hrun as [[= ->] _].
      eapply merges_loop_members; [exact Hloop | constructor].
  - intros Hrun. now apply raise_inv in Hrun as [[=] _].
Qed.

Lemma resolve_target_member directory remote_names repo_data t remote_name :
  resolve_target directory remote_names repo_data = Ok t ->
  remote t = Some remote_name ->
  set_mem (PyStr remote_name) remote_names = true.
Proof.
  unfold resolve_target, result_bind.
  destruct (match length _ with 0 => _ | _ => _ end) as [[r b] |];
    [| discriminate].
  cbn [fst snd]. destruct r as [r |].
  - destruct (set_mem (PyStr r) remote_names) eqn:Hmem; cbn [negb];
      [| discriminate].
    intros [= <-] [= <-]. exact Hmem.
  - intros [= <-]. discriminate.
Qed.

Lemma get_repo_foreign_keys k directory repo_data force skip s r s' :
  get_repo k directory repo_data force skip s = (Ok r, s') ->
  foreign_keys_hold r = true.
Proof.
  unfold get_repo. intros Hrun.
  apply bind_ok_inv in Hrun as (d & s1 & _ & Hrun).
  apply bind_ok_inv in Hrun as (rd & s2 & _ & Hrun).
  apply bind_ok_inv in Hrun as ([rs remote_names] & s3 & Hremotes & Hrun).
  apply bind_ok_inv in Hrun as (found & s4 & Hmerges & Hrun).
  apply bind_ok_inv in Hrun as (scope & s5 & _ & Hrun).
  apply bind_ok_inv in Hrun as (destination & s6 & Htarget & Hrun).
  apply ret_inv in Hrun as [[= ->] _].
  assert (Hknown : known remote_names rs).
  { destruct (dict_has "remotes" rd).
    - apply lift_inv in Hremotes as [Hremotes _].
      eapply configured_remotes_known, Hremotes.
    - eapply discovered_remotes_known, Hremotes. }
  apply resolve_merges_members in Hmerges.
  apply lift_inv in Htarget as [Htarget _].
  unfold foreign_keys_hold, names_remote. cbn [remotes merges target].
  apply andb_true_iff. split.
  - apply forallb_forall. intros merge Hin.
    rewrite Forall_forall in Hmerges.
    destruct (Hmerges merge) as (remote_name & -> & Hmem).
    + now apply list_elem_of_In.
    + now apply Hknown.
  - destruct (remote destination) as [remote_name |] eqn:Hremote; [| reflexivity].
    apply Hknown. eapply resolve_target_member; eauto.
Qed.

(** C1: every record [get_repos] returns keeps its foreign keys: the
    remote of each of its merges is the name of one of its remotes, and
    so is the remote of its target when the target has one. *)
Theorem get_repos_foreign_keys (config : dict) (force skip_merge_check : bool)
    (w : world) (found : list repo_dict) (s' : state world) :
  get_repos config force skip_merge_check w = (Ok found, s') ->
  Forall (fun r => foreign_keys_hold r = true) found.
Proof.
  unfold get_repos. intros Hrun.
  apply get_repos_loop_ok in Hrun as (new & -> & Hnew). cbn [app].
  induction Hnew as [| item r items new (k & s1 & s2 & Hr) _ IH];
    constructor; [| exact IH].
  eapply get_repo_foreign_keys, Hr.
Qed.

End ForeignKeys.

(** ** Sets *)

Section Sets.

Lemma key_eq_sym (a b : pyval) : key_eq a b = key_eq b a.
Proof.
  destruct a, b; cbn; try reflexivity.
  - now destruct b, b0.
  - apply Z.eqb_sym.
  - apply String.eqb_sym.
Qed.

Lemma key_eq_trans (a b c : pyval) :
  key_eq a b = true -> key_eq b c = true -> key_eq a c = true.
Proof.
  destruct a, b; cbn; try discriminate; destruct c; cbn; try discriminate;
    rewrite ?Z.eqb_eq, ?String.eqb_eq, ?Bool.eqb_true_iff;
    try congruence.
  intros <- Hb. now destruct b0, b.
Qed.

Lemma set_mem_eq (x y : pyval) (s : list pyval) :
  key_eq x y = true -> set_mem y s = true -> set_mem x s = true.
Proof.
  unfold set_mem. intros Hxy (z & Hin & Hyz)%existsb_exists.
  apply existsb_exists. exists z. split; [exact Hin |].
  eapply key_eq_trans; eauto.
Qed.

Lemma set_mem_set_add (x y : pyval) (s : list pyval) :
  set_mem x (set_add y s) = key_eq x y || set_mem x s.
Proof.
  unfold set_add. destruct (set_mem y s) eqn:Hy.
  - destruct (key_eq x y) eqn:Hxy; [| reflexivity].
    cbn. eapply set_mem_eq; eauto.
  - unfold set_mem. rewrite existsb_app. cbn.
    now rewrite orb_false_r, orb_comm.
Qed.

Lemma distinct_snoc (s : list pyval) (y : pyval) :
  distinct s = true -> set_mem y s = false -> distinct (s ++ [y]) = true.
Proof.
  induction s as [| x s IH]; intros Hs Hy; [reflexivity |].
  cbn in Hs, Hy |- *.
  apply andb_true_iff in Hs as [Hx Hs].
  apply orb_false_iff in Hy as [Hyx Hy].
  rewrite IH by assumption. rewrite andb_true_r.
  unfold set_mem in *. rewrite existsb_app. cbn.
  rewrite orb_false_r, key_eq_sym, Hyx, orb_false_r. exact Hx.
Qed.

Lemma distinct_set_add (s : list pyval) (y : pyval) :
  distinct s = true -> distinct (set_add y s) = true.
Proof.
  intros Hs. unfold set_add. destruct (set_mem y s) eqn:Hy; [exact Hs |].
  now apply distinct_snoc.
Qed.

Lemma frozenset_members (xs : list pyval) :
  forall members found,
    frozenset xs members = Ok found ->
    distinct members = true ->
    distinct found = true
    /\ forall x, set_mem x found = set_mem x members || set_mem x xs.
Proof.
  induction xs as [| y xs IH]; intros members found Hfound Hmembers.
  - injection Hfound as <-. split; [exact Hmembers |].
    intros x. now rewrite orb_false_r.
  - cbn [frozenset] in Hfound. destruct (hashable y); [| discriminate].
    apply IH in Hfound as [Hdistinct Hmem]; [| now apply distinct_set_add].
    split; [exact Hdistinct |]. intros x.
    rewrite Hmem, set_mem_set_add. cbn.
    now rewrite orb_assoc, (orb_comm (key_eq x y)).
Qed.

End Sets.

(** ** The fetch scope of a record *)

Section FetchScope.

Context {world : Type} {runtime : Runtime world}.

Lemma normalize_fetch_all_scope (repo_data : dict) (scope : fetch_scope) :
  normalize_fetch_all (dict_get_default "fetch_all" (PyBool false) repo_data)
    = Ok scope ->
  fetch_scope_of repo_data scope.
Proof.
  unfold fetch_scope_of, dict_get_default.
  destruct (dict_get "fetch_all" repo_data) as [v |];
    [| now intros [= <-]].
  destruct v; try (now intros [= <-]).
  unfold normalize_fetch_all, result_bind.
  destruct (frozenset xs []) as [members |] eqn:Hmembers; [| discriminate].
  intros [= <-]. exists members.
  apply frozenset_members in Hmembers as [Hdistinct Hmem]; [| reflexivity].
  split; [reflexivity |]. split; [exact Hdistinct |]. exact Hmem.
Qed.

Lemma get_repo_fetch_all k directory repo_data force skip s r s' :
  get_repo k directory repo_data force skip s = (Ok r, s') ->
  exists fields, repo_data = PyDict fields /\ fetch_scope_of fields (fetch_all r).
Proof.
  unfold get_repo. intros Hrun.
  apply bind_ok_inv in Hrun as (d & s1 & _ & Hrun).
  apply bind_ok_inv in Hrun as (rd & s2 & Hmapping & Hrun).
  apply bind_ok_inv in Hrun as ([rs remote_names] & s3 & _ & Hrun).
  apply bind_ok_inv in Hrun as (found & s4 & _ & Hrun).
  apply bind_ok_inv in Hrun as (scope & s5 & Hscope & Hrun).
  apply bind_ok_inv in Hrun as (destination & s6 & _ & Hrun).
  apply ret_inv in Hrun as [[= ->] _].
  apply lift_inv in Hmapping as [Hmapping _].
  apply lift_inv in Hscope as [Hscope _].
  exists rd. split.
  - destruct repo_data; try discriminate. now injection Hmapping as ->.
  - now apply normalize_fetch_all_scope.
Qed.

(** C7, as the code has it: the [fetch_all] of a returned record is [false]
    when the key is absent, the one-member set of a text, the set of the
    members of a list, and any other configured value as it came, [true]
    included. *)
Theorem get_repos_fetch_all (config : dict) (force skip_merge_check : bool)
    (w : world) (found : list repo_dict) (s' : state world) :
  get_repos config force skip_merge_check w = (Ok found, s') ->
  Forall2 (fun item r =>
             exists fields,
               snd item = PyDict fields
               /\ fetch_scope_of fields (fetch_all r))
    config found.
Proof.
  unfold get_repos. intros Hrun.
  apply get_repos_loop_ok in Hrun as (new & -> & Hnew). cbn [app].
  induction Hnew as [| item r items new (k & s1 & s2 & Hr) _ IH];
    constructor; [| exact IH].
  eapply get_repo_fetch_all, Hr.
Qed.

End FetchScope.

(** ** The check of a merge against its remote *)

Section RefCheck.

Context {world : Type} {runtime : Runtime world}.

(** C4: with the merge check on and a handle to the working copy, take a
    merge entry of either shape whose remote is defined.  If the query
    answers that the remote does not have the ref, and the ref does not
    look like a hash, the entry is not appended: the turn of the loop
    ends without an error, a warning is logged, and the loop goes on with
    the list it had.  If the query raises, the exception is logged as a
    warning and the entry is appended. *)
Theorem ref_check_drops_or_keeps (k i : nat) (directory : string)
    (remote_names : list pyval) (repo : Repo) (merge0 merge : pyval)
    (remote_name ref : pyval) (s s1 : state world) :
  parse_merge k i directory merge0 s = (Ok merge, s1) ->
  getitem merge "remote" = Ok remote_name ->
  getitem merge "ref" = Ok ref ->
  set_mem remote_name remote_names = true ->
  let answer :=
    query_remote_ref (git s1) (repo_cwd repo) (py_str remote_name) (py_str ref) in
  let asked :=
    record (QueryRemoteRef (repo_cwd repo) (py_str remote_name) (py_str ref)) s1 in
  (forall sha,
      answer = Returned (None, sha) -> ishex (py_str ref) = false ->
      let s2 :=
        logged (Message (directory +:+ " - Ref: " +:+ py_str ref
                           +:+ " does not exists in remote "
                           +:+ py_str remote_name)) asked in
      resolve_merge k i directory remote_names false (Some repo) merge0 s
        = (Ok None, s2)
      /\ forall rest acc,
          merges_loop k i directory remote_names false (Some repo)
            (merge0 :: rest) acc s
          = merges_loop k (S i) directory remote_names false (Some repo)
              rest acc s2)
  /\ (forall msg,
         answer = Failed msg ->
         let s2 := logged (Caught (GitError msg)) asked in
         resolve_merge k i directory remote_names false (Some repo) merge0 s
           = (Ok (Some merge), s2)
         /\ forall rest acc,
             merges_loop k i directory remote_names false (Some repo)
               (merge0 :: rest) acc s
             = merges_loop k (S i) directory remote_names false (Some repo)
                 rest (acc ++ [merge]) s2).
Proof.
  intros Hparse Hremote Href Hmem answer asked.
  assert (Hturn : forall dropped s2,
             check_ref directory (Some repo) merge s1 = (Ok dropped, s2) ->
             resolve_merge k i directory remote_names false (Some repo) merge0 s
             = (Ok (if dropped then None else Some merge), s2)).
  { intros dropped s2 Hcheck. unfold resolve_merge.
    rewrite (bind_ok _ _ _ _ _ Hparse).
    unfold bind at 1. unfold lift at 1. rewrite Hremote, Hmem.
    cbn [negb andb repo_bool]. rewrite (bind_ok _ _ _ _ _ Hcheck).
    now destruct dropped. }
  split.
  - intros sha Hanswer Hhex s2.
    assert (Hcheck : check_ref directory (Some repo) merge s1 = (Ok true, s2)).
    { unfold check_ref, try_except, bind, lift, call_query_remote_ref.
      cbn [bound_repo]. rewrite Hremote, Href. fold answer. rewrite Hanswer.
      rewrite Hhex. reflexivity. }
    apply Hturn in Hcheck. split; [exact Hcheck |].
    intros rest acc. cbn [merges_loop]. now rewrite (bind_ok _ _ _ _ _ Hcheck).
  - intros msg Hanswer s2.
    assert (Hcheck : check_ref directory (Some repo) merge s1 = (Ok false, s2)).
    { unfold check_ref, try_except, bind, lift, call_query_remote_ref.
      cbn [bound_repo]. rewrite Hremote, Href. fold answer. rewrite Hanswer.
      reflexivity. }
    apply Hturn in Hcheck. split; [exact Hcheck |].
    intros rest acc. cbn [merges_loop]. now rewrite (bind_ok _ _ _ _ _ Hcheck).
Qed.

End RefCheck.

(** ** Calls *)

Section Calls.

Context {world : Type} {runtime : Runtime world}.

#[global] Instance adds_preorder (P : call -> bool) : PreOrder (@adds world P).
Proof.
  split.
  - intros s. exists []. now rewrite app_nil_r.
  - intros s1 s2 s3 (cs1 & H1 & HP1) (cs2 & H2 & HP2).
    exists (cs1 ++ cs2). rewrite H2, H1, <- app_assoc. split; [reflexivity |].
    now rewrite forallb_app, HP1, HP2.
Qed.

#[global] Instance sets_nothing_if_absent_preorder (directory : string) :
  PreOrder (sets_nothing_if_absent directory).
Proof.
  split.
  - intros s _. split; reflexivity.
  - intros s1 s2 s3 H12 H23 Habsent.
    destruct (H12 Habsent) as [Hgit Hadds].
    rewrite <- Hgit in Habsent. destruct (H23 Habsent) as [Hgit' Hadds'].
    split; [congruence | etransitivity; eassumption].
Qed.

Section Stepwise.

Context (R : relation (state world)) `{!PreOrder R}.

Lemma stepwise_ret {A : Type} (a : A) : stepwise R (ret a).
Proof. intros s r s' [_ ->]%ret_inv. reflexivity. Qed.

Lemma stepwise_raise {A : Type} (e : exn) : stepwise R (@raise world A e).
Proof. intros s r s' [_ ->]%raise_inv. reflexivity. Qed.

Lemma stepwise_lift {A : Type} (x : result A) : stepwise R (lift x).
Proof. intros s r s' [_ ->]%lift_inv. reflexivity. Qed.

Lemma stepwise_bind {A B : Type} (m : M world A) (f : A -> M world B) :
  stepwise R m -> (forall a, stepwise R (f a)) -> stepwise R (bind m f).
Proof.
  intros Hm Hf s r s' [(e & Hraise & _) | (a & s1 & Hok & Hrest)]%bind_inv.
  - eapply Hm, Hraise.
  - etransitivity; [eapply Hm, Hok | eapply Hf, Hrest].
Qed.

Lemma stepwise_bind_ok {A B : Type} (a : A) (f : A -> M world B) :
  stepwise R (f a) -> stepwise R (bind (lift (Ok a)) f).
Proof. intros Hf s r s' Hrun. eapply Hf, Hrun. Qed.

Lemma stepwise_try_except {A : Type} (body : M world A) handler :
  stepwise R body -> (forall e, stepwise R (handler e)) ->
  stepwise R (try_except body handler).
Proof.
  intros Hbody Hhandler s r s'
    [(a & Hok & _) | (e & s1 & Hraise & Hrest)]%try_except_inv.
  - eapply Hbody, Hok.
  - etransitivity; [eapply Hbody, Hraise | eapply Hhandler, Hrest].
Qed.

End Stepwise.

End Calls.

Create HintDb sets_nothing.
Create HintDb grows.

(** Breaks a computation into its steps, down to the calls. *)
Ltac stepwise_steps :=
  repeat first
    [ apply stepwise_ret; solve [typeclasses eauto]
    | apply stepwise_raise; solve [typeclasses eauto]
    | apply stepwise_lift; solve [typeclasses eauto]
    | apply stepwise_bind; [typeclasses eauto | | intros ?]
    | apply stepwise_try_except; [typeclasses eauto | | intros ?]
    | match goal with
      | |- stepwise _ (match ?x with _ => _ end) => destruct x
      | |- stepwise _ (let (_, _) := ?x in _) => destruct x
      end ].

(** ** Remotes are set on working copies that exist *)

Section SetsNothing.

Context {world : Type} {runtime : Runtime world}.

(** A step that leaves the world alone and makes no call but to list
    remotes or to query a ref sets nothing. *)
Lemma quiet_sets_nothing (directory : string) (s s' : state world) :
  git s' = git s ->
  adds (fun c => negb (is_set_remote c)) s s' ->
  sets_nothing_if_absent directory s s'.
Proof. intros Hgit Hadds _. now split. Qed.

Lemma adds_nothing (P : call -> bool) (s s' : state world) :
  calls s' = calls s -> adds P s s'.
Proof. intros Hcalls. exists []. now rewrite app_nil_r. Qed.

Lemma log_warning_sets_nothing directory msg :
  stepwise (sets_nothing_if_absent directory) (log_warning msg).
Proof.
  intros s r s' [= _ <-]. apply quiet_sets_nothing; [| apply adds_nothing];
    reflexivity.
Qed.

Lemma setitem_sets_nothing directory k i merge key v :
  stepwise (sets_nothing_if_absent directory) (setitem k i merge key v).
Proof.
  unfold setitem. destruct merge; try apply stepwise_raise; try typeclasses eauto.
  intros s r s' [= _ <-]. apply quiet_sets_nothing; [| apply adds_nothing];
    reflexivity.
Qed.

Lemma discovered_remotes_sets_nothing directory d :
  stepwise (sets_nothing_if_absent directory) (discovered_remotes d).
Proof.
  intros s r s' Hrun. unfold discovered_remotes in Hrun.
  assert (s' = record (GetRemotes d) s) as ->
      by (destruct (_get_remotes _ _); now inversion Hrun).
  apply quiet_sets_nothing; [reflexivity |]. now exists [GetRemotes d].
Qed.

Lemma call_query_remote_ref_sets_nothing directory repo remote_name ref :
  stepwise (sets_nothing_if_absent directory)
    (call_query_remote_ref repo remote_name ref).
Proof.
  intros s r s' Hrun. unfold call_query_remote_ref in Hrun.
  set (c := QueryRemoteRef _ _ _) in Hrun.
  assert (s' = record c s) as ->
      by (destruct (query_remote_ref _ _ _ _); now inversion Hrun).
  apply quiet_sets_nothing; [reflexivity |]. now exists [c].
Qed.

(** The remotes are set on a working copy that is on disk, on no other. *)
Lemma open_repo_sets_nothing directory rs skip :
  stepwise (sets_nothing_if_absent directory) (open_repo directory rs skip).
Proof.
  intros s r s' Hrun Habsent. unfold open_repo in Hrun.
  destruct skip; cbn [negb repo_cwd] in Hrun.
  - apply ret_inv in Hrun as [_ ->]. split; reflexivity.
  - rewrite Habsent in Hrun. injection Hrun as _ <-. split; reflexivity.
Qed.

#[local] Hint Resolve log_warning_sets_nothing setitem_sets_nothing
  discovered_remotes_sets_nothing call_query_remote_ref_sets_nothing
  open_repo_sets_nothing : sets_nothing.

Lemma resolve_merge_sets_nothing directory k i d remote_names skip tmp_repo
    merge :
  stepwise (sets_nothing_if_absent directory)
    (resolve_merge k i d remote_names skip tmp_repo merge).
Proof. unfold resolve_merge. stepwise_steps; auto with sets_nothing. Qed.

Lemma merges_loop_sets_nothing directory k d remote_names skip tmp_repo
    merge_data :
  forall i acc,
    stepwise (sets_nothing_if_absent directory)
      (merges_loop k i d remote_names skip tmp_repo merge_data acc).
Proof.
  induction merge_data as [| merge merge_data IH]; intros i acc;
    cbn [merges_loop].
  - stepwise_steps.
  - apply stepwise_bind;
      [typeclasses eauto | apply resolve_merge_sets_nothing | intros ?; apply IH].
Qed.

#[local] Hint Resolve merges_loop_sets_nothing : sets_nothing.

Lemma resolve_merges_sets_nothing k directory rs remote_names skip repo_data :
  stepwise (sets_nothing_if_absent directory)
    (resolve_merges k directory rs remote_names skip repo_data).
Proof. unfold resolve_merges. stepwise_steps; auto with sets_nothing. Qed.

End SetsNothing.

(** ** The queries made for the merges of a record *)

Section Queries.

Context {world : Type} {runtime : Runtime world}.

#[global] Instance grows_preorder : PreOrder (@grows world).
Proof. unfold grows. typeclasses eauto. Qed.

Lemma grows_by (c : call) (s : state world) : grows s (record c s).
Proof. now exists [c]. Qed.

Lemma grows_same (s s' : state world) : calls s' = calls s -> grows s s'.
Proof. apply adds_nothing. Qed.

Lemma log_warning_grows msg : stepwise (@grows world) (log_warning msg).
Proof. intros s r s' [= _ <-]. now apply grows_same. Qed.

Lemma setitem_grows k i merge key v : stepwise (@grows world) (setitem k i merge key v).
Proof.
  unfold setitem. destruct merge; try apply stepwise_raise; try typeclasses eauto.
  intros s r s' [= _ <-]. now apply grows_same.
Qed.

Lemma discovered_remotes_grows d : stepwise (@grows world) (discovered_remotes d).
Proof.
  intros s r s' Hrun. unfold discovered_remotes in Hrun.
  assert (s' = record (GetRemotes d) s) as ->
      by (destruct (_get_remotes _ _); now inversion Hrun).
  apply grows_by.
Qed.

Lemma call_query_remote_ref_grows repo remote_name ref :
  stepwise (@grows world) (call_query_remote_ref repo remote_name ref).
Proof.
  intros s r s' Hrun. unfold call_query_remote_ref in Hrun.
  set (c := QueryRemoteRef _ _ _) in Hrun.
  assert (s' = record c s) as ->
      by (destruct (query_remote_ref _ _ _ _); now inversion Hrun).
  apply grows_by.
Qed.

Lemma call_set_remote_grows tmp_repo r : stepwise (@grows world) (call_set_remote tmp_repo r).
Proof.
  intros s res s' Hrun. unfold call_set_remote in Hrun.
  set (c := SetRemote _ _ _) in Hrun.
  destruct (_set_remote _ _ _ _); injection Hrun as _ <-; now exists [c].
Qed.

Lemma set_remotes_loop_grows tmp_repo rs :
  stepwise (@grows world) (set_remotes_loop tmp_repo rs).
Proof.
  induction rs as [| r rs IH]; cbn [set_remotes_loop].
  - apply stepwise_ret. typeclasses eauto.
  - apply stepwise_bind;
      [typeclasses eauto | apply call_set_remote_grows | intros _; exact IH].
Qed.

Lemma open_repo_grows directory rs skip :
  stepwise (@grows world) (open_repo directory rs skip).
Proof.
  unfold open_repo. destruct skip; cbn [negb].
  - apply stepwise_ret. typeclasses eauto.
  - intros s r s' Hrun. destruct (path_exists _ _).
    + revert s r s' Hrun. apply stepwise_bind;
        [typeclasses eauto | apply set_remotes_loop_grows | intros _].
      apply stepwise_ret. typeclasses eauto.
    + injection Hrun as _ <-. reflexivity.
Qed.

#[local] Hint Resolve log_warning_grows setitem_grows discovered_remotes_grows
  call_query_remote_ref_grows open_repo_grows : grows.

Lemma resolve_merge_grows k i d remote_names skip tmp_repo merge :
  stepwise (@grows world) (resolve_merge k i d remote_names skip tmp_repo merge).
Proof. unfold resolve_merge. stepwise_steps; auto with grows. Qed.

Lemma merges_loop_grows k d remote_names skip tmp_repo merge_data :
  forall i acc,
    stepwise (@grows world) (merges_loop k i d remote_names skip tmp_repo merge_data acc).
Proof.
  induction merge_data as [| merge merge_data IH]; intros i acc;
    cbn [merges_loop].
  - apply stepwise_ret. typeclasses eauto.
  - apply stepwise_bind;
      [typeclasses eauto | apply resolve_merge_grows | intros ?; apply IH].
Qed.

Lemma queried_later directory (s s' : state world) merge :
  grows s s' -> queried directory (calls s) merge ->
  queried directory (calls s') merge.
Proof.
  intros (cs & -> & _) (remote_name & ref & Hremote & Href & Hin).
  exists remote_name, ref. repeat split; try assumption.
  apply in_or_app. now left.
Qed.

(** The check of a merge asks for its ref, however it ends. *)
Lemma check_ref_asks directory repo merge remote_name ref s r s' :
  getitem merge "remote" = Ok remote_name ->
  getitem merge "ref" = Ok ref ->
  check_ref directory (Some repo) merge s = (r, s') ->
  In (QueryRemoteRef (repo_cwd repo) (py_str remote_name) (py_str ref))
     (calls s').
Proof.
  intros Hremote Href.
  unfold check_ref, try_except, bind, lift, call_query_remote_ref, log_warning,
    ret.
  cbn [bound_repo]. rewrite Hremote, Href.
  destruct (query_remote_ref _ _ _ _) as [[[kind |] sha] | msg];
    [| destruct (ishex (py_str ref)); cbn [negb] |];
    intros [= _ <-]; cbn [calls logged record];
    apply in_or_app; right; now left.
Qed.

Lemma resolve_merge_queried k i directory remote_names repo merge0 s merge s' :
  resolve_merge k i directory remote_names false (Some repo) merge0 s
    = (Ok (Some merge), s') ->
  queried (repo_cwd repo) (calls s') merge.
Proof.
  unfold resolve_merge. intros Hrun.
  apply bind_ok_inv in Hrun as (merge1 & s1 & Hparse & Hrun).
  rewrite parse_merge_run in Hparse. injection Hparse as Hparse _.
  apply parse_outcome_fields in Hparse as (remote_name & ref & Hremote & Href).
  apply bind_ok_inv in Hrun as (v & s2 & [Hv ->]%lift_inv & Hrun).
  destruct (set_mem v remote_names); cbn [negb andb repo_bool] in Hrun;
    [| now apply raise_inv in Hrun as [[=] _]].
  apply bind_ok_inv in Hrun as (dropped & s3 & Hcheck & Hrun).
  destruct dropped; apply ret_inv in Hrun as [[= <-] ->].
  exists (PyStr remote_name), (PyStr ref). repeat split; try assumption.
  eapply check_ref_asks; eassumption.
Qed.

Lemma merges_loop_queried k directory remote_names repo merge_data :
  forall i acc s found s',
    merges_loop k i directory remote_names false (Some repo) merge_data acc s
      = (Ok found, s') ->
    Forall (queried (repo_cwd repo) (calls s)) acc ->
    Forall (queried (repo_cwd repo) (calls s')) found.
Proof.
  induction merge_data as [| merge0 merge_data IH];
    intros i acc s found s' Hrun Hacc.
  - now apply ret_inv in Hrun as [[= <-] ->].
  - cbn [merges_loop] in Hrun.
    apply bind_ok_inv in Hrun as (kept & s1 & Hkept & Hrun).
    eapply IH; [exact Hrun |].
    assert (Hlater : Forall (queried (repo_cwd repo) (calls s1)) acc).
    { eapply Forall_impl; [exact Hacc |]. intros merge.
      apply queried_later. eapply resolve_merge_grows, Hkept. }
    destruct kept as [merge |]; [| exact Hlater].
    apply Forall_app. split; [exact Hlater |].
    constructor; [| constructor]. eapply resolve_merge_queried, Hkept.
Qed.

Lemma open_repo_handle directory rs s tmp_repo s' :
  open_repo directory rs false s = (Ok tmp_repo, s') ->
  tmp_repo = Some {| repo_cwd := directory |}.
Proof.
  unfold open_repo. cbn [negb]. destruct (path_exists _ _).
  - intros (u & s1 & _ & [[= <-] _]%ret_inv)%bind_ok_inv. reflexivity.
  - now intros [= <- _].
Qed.

Lemma resolve_merges_queried k directory rs remote_names repo_data s found s' :
  resolve_merges k directory rs remote_names false repo_data s = (Ok found, s') ->
  Forall (queried directory (calls s')) found.
Proof.
  unfold resolve_merges. destruct (dict_has "merges" repo_data);
    [| intros Hrun; now apply raise_inv in Hrun as [[=] _]].
  intros Hrun.
  apply bind_ok_inv in Hrun as (tmp_repo & s1 & Hopen & Hrun).
  apply open_repo_handle in Hopen as ->.
  apply bind_ok_inv in Hrun as (entries & s2 & _ & Hrun).
  apply bind_ok_inv in Hrun as (merges0 & s3 & Hloop & Hrun).
  apply merges_loop_queried in Hloop; [| constructor].
  destruct merges0; [now apply raise_inv in Hrun as [[=] _] |].
  now apply ret_inv in Hrun as [[= ->] ->].
Qed.

Lemma get_repo_queried k directory repo_data force s r s' :
  get_repo k directory repo_data force false s = (Ok r, s') ->
  Forall (queried (cwd r) (calls s')) (merges r).
Proof.
  unfold get_repo. intros Hrun.
  apply bind_ok_inv in Hrun as (d & s1 & _ & Hrun).
  apply bind_ok_inv in Hrun as (rd & s2 & _ & Hrun).
  apply bind_ok_inv in Hrun as ([rs remote_names] & s3 & _ & Hrun).
  apply bind_ok_inv in Hrun as (found & s4 & Hmerges & Hrun).
  apply bind_ok_inv in Hrun as (scope & s5 & [_ ->]%lift_inv & Hrun).
  apply bind_ok_inv in Hrun as (destination & s6 & [_ ->]%lift_inv & Hrun).
  apply ret_inv in Hrun as [[= ->] ->]. cbn [cwd merges].
  eapply resolve_merges_queried, Hmerges.
Qed.

End Queries.

(** ** What the working copy on disk decides *)

Section WorkingCopy.

Context {world : Type} {runtime : Runtime world}.

Lemma get_repo_sets_nothing k D repo_data force skip :
  stepwise (sets_nothing_if_absent (if isabs D then D else abspath D))
    (get_repo k (PyStr D) repo_data force skip).
Proof.
  unfold get_repo. cbn [resolve_directory]. apply stepwise_bind_ok.
  stepwise_steps;
    auto using resolve_merges_sets_nothing, discovered_remotes_sets_nothing.
Qed.

Lemma parse_outcome_merge_fields (directory : string) (merge0 : pyval) :
  match snd (parse_outcome directory merge0) with
  | Ok merge =>
      exists remote_name ref,
        merge_fields merge0 = Some (remote_name, ref)
        /\ getitem merge "remote" = Ok (PyStr remote_name)
        /\ getitem merge "ref" = Ok (PyStr ref)
  | Raise _ => merge_fields merge0 = None
  end.
Proof.
  destruct merge0 as [| b | z | text | xs | fields]; try reflexivity;
    cbn [parse_outcome snd merge_fields].
  - destruct (split " " text) as [| a [| b [| c rest]]]; cbn [length Nat.eqb nth];
      try reflexivity.
    exists a, b. repeat split.
  - destruct (dict_get "remote" fields) as [r |]; [| reflexivity].
    rewrite dict_get_set_other by reflexivity.
    destruct (dict_get "ref" fields) as [f |]; [| reflexivity].
    cbn [snd]. exists (py_str r), (py_str f). split; [reflexivity |].
    unfold getitem.
    rewrite dict_get_set_same, dict_get_set_other, dict_get_set_same; auto.
Qed.

(** The check of a merge makes one call, the query, however it ends, and
    it returns. *)
Lemma check_ref_calls directory repo merge remote_name ref s r s' :
  getitem merge "remote" = Ok (PyStr remote_name) ->
  getitem merge "ref" = Ok (PyStr ref) ->
  check_ref directory (Some repo) merge s = (r, s') ->
  calls s' = calls s ++ [QueryRemoteRef (repo_cwd repo) remote_name ref]
  /\ exists dropped, r = Ok dropped.
Proof.
  intros Hremote Href.
  unfold check_ref, try_except, bind, lift, call_query_remote_ref, log_warning,
    ret.
  cbn [bound_repo]. rewrite Hremote, Href. cbn [py_str].
  destruct (query_remote_ref _ _ _ _) as [[[kind |] sha] | msg];
    [| destruct (ishex ref); cbn [negb] |];
    intros [= <- <-]; cbn [calls logged record]; eauto.
Qed.

(** One turn of the loop makes the query of its entry and goes on, or
    makes no call and raises. *)
Lemma resolve_merge_calls k i directory remote_names repo merge0 s r s' :
  resolve_merge k i directory remote_names false (Some repo) merge0 s = (r, s') ->
  match query_of (repo_cwd repo) remote_names merge0 with
  | Some c => calls s' = calls s ++ [c] /\ exists kept, r = Ok kept
  | None => calls s' = calls s /\ exists e, r = Raise e
  end.
Proof.
  unfold resolve_merge, query_of. intros Hrun.
  pose proof (parse_outcome_merge_fields directory merge0) as Hfields.
  apply bind_inv in Hrun
    as [(e & Hparse & ->) | (merge1 & s1 & Hparse & Hrun)];
    rewrite parse_merge_run in Hparse; injection Hparse as Hparse Hs1;
    rewrite Hparse in Hfields.
  - rewrite Hfields. subst s'. split; [reflexivity | eauto].
  - destruct Hfields as (remote_name & ref & -> & Hremote & Href).
    assert (Hcalls : calls s1 = calls s) by now subst s1.
    unfold bind at 1 in Hrun. unfold lift at 1 in Hrun. rewrite Hremote in Hrun.
    destruct (set_mem (PyStr remote_name) remote_names);
      cbn [negb andb repo_bool] in Hrun.
    + apply bind_inv in Hrun
        as [(e & Hcheck & _) | (dropped & s2 & Hcheck & Hrun)].
      * pose proof (check_ref_calls _ _ _ _ _ _ _ _ Hremote Href Hcheck)
          as [Hasked [dropped Hdropped]].
        discriminate Hdropped.
      * pose proof (check_ref_calls _ _ _ _ _ _ _ _ Hremote Href Hcheck)
          as [Hasked Hreturned].
        rewrite <- Hcalls, <- Hasked.
        destruct dropped; apply ret_inv in Hrun as [-> ->]; eauto.
    + apply raise_inv in Hrun as [-> ->]. rewrite Hcalls. eauto.
Qed.

Lemma merges_loop_calls k directory remote_names repo entries :
  forall i acc s r s',
    merges_loop k i directory remote_names false (Some repo) entries acc s
      = (r, s') ->
    calls s' = calls s ++ queries_of (repo_cwd repo) remote_names entries.
Proof.
  induction entries as [| merge0 entries IH]; intros i acc s r s' Hrun.
  - apply ret_inv in Hrun as [_ ->]. cbn [queries_of]. now rewrite app_nil_r.
  - cbn [merges_loop queries_of] in Hrun |- *.
    apply bind_inv in Hrun
      as [(e & Hturn & _) | (kept & s1 & Hturn & Hrun)];
      apply resolve_merge_calls in Hturn;
      destruct (query_of (repo_cwd repo) remote_names merge0) as [c |].
    + now destruct Hturn as [_ [kept [=]]].
    + destruct Hturn as [-> _]. now rewrite app_nil_r.
    + destruct Hturn as [Hasked _]. apply IH in Hrun.
      rewrite Hrun, Hasked, <- app_assoc. reflexivity.
    + now destruct Hturn as [_ [e [=]]].
Qed.

(** Where setting a remote never fails, the loop of lines 79-80 sets
    every remote, in order, and makes no other call. *)
Lemma set_remotes_loop_calls tmp_repo rs :
  set_remote_works ->
  forall s,
  exists s',
    set_remotes_loop tmp_repo rs s = (Ok tt, s')
    /\ calls s' = calls s ++ map (set_call (repo_cwd tmp_repo)) rs.
Proof.
  intros Hworks. induction rs as [| r rs IH]; intros s; cbn [set_remotes_loop map].
  - exists s. split; [reflexivity | now rewrite app_nil_r].
  - unfold bind at 1. unfold call_set_remote.
    destruct (Hworks (git s) (repo_cwd tmp_repo) (name r) (url r)) as [w' ->].
    cbn [input calls warnings record].
    match goal with
    | |- exists s', set_remotes_loop _ _ ?s1 = _ /\ _ =>
        destruct (IH s1) as (s' & Hloop & Hcalls)
    end.
    exists s'. split; [exact Hloop |].
    rewrite Hcalls. cbn [calls]. now rewrite <- app_assoc.
Qed.

(** Lines 71-127, the merge check on: the calls made. *)
Lemma resolve_merges_calls k directory rs remote_names fields entries s r s' :
  dict_has "merges" fields = true ->
  py_iter (py_or (dict_get_default "merges" PyNone fields) (PyList []))
  = Ok entries ->
  resolve_merges k directory rs remote_names false fields s = (r, s') ->
  (path_exists (git s) directory = false ->
   calls s' = calls s ++ queries_of directory remote_names entries)
  /\ (path_exists (git s) directory = true -> set_remote_works ->
      calls s'
      = calls s ++ map (set_call directory) rs
          ++ queries_of directory remote_names entries).
Proof.
  intros Hhas Hiter. unfold resolve_merges. rewrite Hhas, Hiter.
  assert (Hloop : forall tmp s1 r1 s2,
             tmp = {| repo_cwd := directory |} ->
             (let* found := merges_loop k 0 directory remote_names false
                              (Some tmp) entries [] in
              match found with
              | [] => raise (ConfigException
                               (directory
                                  +:+ ": You should at least define one merge."))
              | _ => ret found
              end)%py s1 = (r1, s2) ->
             calls s2 = calls s1 ++ queries_of directory remote_names entries).
  { intros tmp s1 r1 s2 -> Hrun.
    apply bind_inv in Hrun as [(e & Hrun & _) | (found & s3 & Hrun & Hend)].
    - now apply merges_loop_calls in Hrun.
    - apply merges_loop_calls in Hrun. cbn [repo_cwd] in Hrun.
      destruct found; [apply raise_inv in Hend as [_ ->]
                      | apply ret_inv in Hend as [_ ->]]; exact Hrun. }
  unfold open_repo. cbn [negb]. unfold bind at 1. cbn [repo_cwd].
  intros Hrun. split.
  - intros Habsent. rewrite Habsent in Hrun.
    rewrite bind_lift_ok in Hrun. eapply Hloop, Hrun. reflexivity.
  - intros Hpresent Hworks. rewrite Hpresent in Hrun.
    destruct (set_remotes_loop_calls {| repo_cwd := directory |} rs Hworks s)
      as (s1 & Hsets & Hcalls).
    unfold bind at 1 in Hrun. rewrite Hsets in Hrun. unfold ret at 1 in Hrun.
   
    rewrite bind_lift_ok in Hrun.
    apply (Hloop _ _ _ _ eq_refl) in Hrun.
    rewrite Hrun, Hcalls. cbn [repo_cwd]. now rewrite <- app_assoc.
Qed.

(** C6, as the code has it: for a directory resolved with the merge check
    on, whether the working copy is on disk decides one thing, whether
    the remotes are set on it.  When it is not on disk, no remote is
    set; when it is, and setting a remote does not fail, every remote of
    the directory is set on it, in order, before any ref is asked for.
    The refs are asked for all the same, on disk or not: one query for
    each merge entry, in order, that names a remote of the directory, up
    to the first entry that does not; so every merge of the record
    returned was queried. *)
Theorem working_copy_gates_remotes_only (k : nat) (D : string)
    (repo_data : pyval) (force : bool) (s : state world)
    (r : result repo_dict) (s' : state world) :
  get_repo k (PyStr D) repo_data force false s = (r, s') ->
  (path_exists (git s) (absolute D) = false ->
   adds (fun c => negb (is_set_remote c)) s s')
  /\ (forall found,
         r = Ok found ->
         Forall (queried (cwd found) (calls s')) (merges found))
  /\ (forall fields rs remote_names s1 entries,
         repo_data = PyDict fields ->
         resolve_remotes (absolute D) fields s = (Ok (rs, remote_names), s1) ->
         dict_has "merges" fields = true ->
         py_iter (py_or (dict_get_default "merges" PyNone fields) (PyList []))
         = Ok entries ->
         calls s1
         = calls s ++ (if dict_has "remotes" fields then []
                       else [GetRemotes (absolute D)])
         /\ (path_exists (git s1) (absolute D) = false ->
             calls s'
             = calls s1 ++ queries_of (absolute D) remote_names entries)
         /\ (path_exists (git s1) (absolute D) = true -> set_remote_works ->
             calls s'
             = calls s1 ++ map (set_call (absolute D)) rs
                 ++ queries_of (absolute D) remote_names entries)).
Proof.
  intros Hrun. split; [| split].
  - intros Habsent. now apply (get_repo_sets_nothing _ _ _ _ _ _ _ _ Hrun).
  - intros found ->. eapply get_repo_queried, Hrun.
  - intros fields rs remote_names s1 entries -> Hremotes Hhas Hiter.
    unfold get_repo in Hrun. cbn [resolve_directory py_mapping] in Hrun.
    rewrite !bind_lift_ok in Hrun. fold (absolute D) in Hrun.
    unfold resolve_remotes in Hremotes.
    rewrite (bind_ok _ _ _ _ _ Hremotes) in Hrun.
    assert (Hmerges : exists r2,
               resolve_merges k (absolute D) rs remote_names false fields s1
               = (r2, s')).
    { unfold bind at 1 in Hrun.
      destruct (resolve_merges k (absolute D) rs remote_names false fields s1)
        as [[found | e] s2]; [| injection Hrun as _ <-; eauto].
      unfold bind, lift, ret in Hrun.
      destruct (normalize_fetch_all _); [| injection Hrun as _ <-; eauto].
      destruct (resolve_target _ _ _); injection Hrun as _ <-; eauto. }
    destruct Hmerges as [r2 Hmerges].
    split.
    + destruct (dict_has "remotes" fields).
      * apply lift_inv in Hremotes as [_ ->]. now rewrite app_nil_r.
      * unfold discovered_remotes in Hremotes.
        destruct (_get_remotes _ _); injection Hremotes as _ <-; reflexivity.
    + exact (resolve_merges_calls _ _ _ _ _ _ _ _ _ Hhas Hiter Hmerges).
Qed.

End WorkingCopy.

(** ** What [get_repos] raises *)

Section Errors.

Context {world : Type} {runtime : Runtime world}.

Lemma startswith_after (p q rest : string) :
  startswith (p +:+ q) (p +:+ rest) = startswith q rest.
Proof.
  unfold startswith. induction p as [| c p IH]; [reflexivity |].
  change (String c p +:+ q) with (String c (p +:+ q)).
  change (String c p +:+ rest) with (String c (p +:+ rest)).
  cbn [String.prefix].
  destruct (ascii_dec c c) as [_ | Hne]; [exact IH | now destruct Hne].
Qed.

Lemma config_error_acceptable strict directory rest :
  startswith ": " rest = true ->
  acceptable strict directory (ConfigException (directory +:+ rest)) = true.
Proof. intros Hrest. cbn [acceptable]. now rewrite startswith_after. Qed.

Lemma raises_only_ret {A : Type} P (a : A) : raises_only P (@ret world A a).
Proof. intros s e s' [[=] _]%ret_inv. Qed.

Lemma raises_only_raise {A : Type} (P : exn -> bool) e :
  P e = true -> raises_only P (@raise world A e).
Proof. intros HP s e' s' [[= <-] _]%raise_inv. exact HP. Qed.

Lemma raises_only_lift {A : Type} (P : exn -> bool) (x : result A) :
  (forall e, x = Raise e -> P e = true) -> raises_only P (@lift world A x).
Proof. intros HP s e s' [Hx _]%lift_inv. now apply HP. Qed.

Lemma raises_only_bind {A B : Type} P (m : M world A) (f : A -> M world B) :
  raises_only P m -> (forall a, raises_only P (f a)) ->
  raises_only P (bind m f).
Proof.
  intros Hm Hf s e s' [(e' & Hraise & [= <-]) | (a & s1 & _ & Hrest)]%bind_inv.
  - eapply Hm, Hraise.
  - eapply Hf, Hrest.
Qed.

(** What is known of the value of a pure step may be used after it. *)
Lemma raises_only_bind_lift {A B : Type} P (x : result A) (f : A -> M world B) :
  (forall e, x = Raise e -> P e = true) ->
  (forall a, x = Ok a -> raises_only P (f a)) ->
  raises_only P (bind (lift x) f).
Proof.
  intros Hx Hf s e s'
    [(e' & [Hraise _]%lift_inv & [= <-]) | (a & s1 & [Hok ->]%lift_inv & Hrest)]%bind_inv.
  - now apply Hx.
  - eapply Hf; eassumption.
Qed.

Lemma remotes_loop_raises strict directory items :
  forall acc names e,
    remotes_loop directory items acc names = Raise e ->
    acceptable strict directory e = true.
Proof.
  induction items as [| [remote_name remote_url] items IH]; intros acc names e;
    cbn [remotes_loop]; [discriminate |].
  destruct (negb (py_bool remote_url)).
  - intros [= <-]. now apply config_error_acceptable.
  - apply IH.
Qed.

Lemma configured_remotes_raises strict directory v e :
  (strict = true -> remotes_shaped v = true) ->
  configured_remotes directory v = Raise e ->
  acceptable strict directory e = true.
Proof.
  intros Hshape. unfold configured_remotes, result_bind.
  destruct (py_items (py_or v (PyDict []))) as [remotes_data | e'] eqn:Hitems.
  - destruct (remotes_loop _ _ _ _) as [[rs names] |] eqn:Hloop.
    + cbn [snd]. destruct names; [| discriminate].
      intros [= <-]. now apply config_error_acceptable.
    + intros [= <-]. eapply remotes_loop_raises, Hloop.
  - intros [= <-].
    assert (e' = AttributeError) as ->
        by (unfold py_items in Hitems; destruct (py_or _ _); congruence).
    destruct strict; [| reflexivity].
    specialize (Hshape eq_refl). unfold remotes_shaped, py_or in *.
    destruct (py_bool v); [| discriminate]. now destruct v.
Qed.

Lemma discovered_remotes_raises strict directory :
  raises_only (acceptable strict directory) (discovered_remotes directory).
Proof.
  intros s e s'. unfold discovered_remotes.
  destruct (_get_remotes _ _); [discriminate |].
  intros [= <- _]. now apply config_error_acceptable.
Qed.

Lemma set_remotes_loop_raises strict directory tmp_repo rs :
  (strict = true -> set_remote_works) ->
  raises_only (acceptable strict directory) (set_remotes_loop tmp_repo rs).
Proof.
  intros Hworks. induction rs as [| r rs IH]; cbn [set_remotes_loop].
  - apply raises_only_ret.
  - apply raises_only_bind; [| intros _; exact IH].
    intros s e s'. unfold call_set_remote.
    destruct (_set_remote _ _ _ _) as [w' | msg] eqn:Hset; [discriminate |].
    intros [= <- _]. destruct strict; [| reflexivity].
    destruct (Hworks eq_refl (git s) (repo_cwd tmp_repo) (name r) (url r))
      as [w' Hw'].
    congruence.
Qed.

Lemma open_repo_raises strict directory rs skip :
  (strict = true -> skip = true \/ set_remote_works) ->
  raises_only (acceptable strict directory) (open_repo directory rs skip).
Proof.
  intros Hworks. unfold open_repo. destruct skip; cbn [negb].
  - apply raises_only_ret.
  - intros s e s'. destruct (path_exists _ _); [| discriminate].
    revert s e s'. apply raises_only_bind; [| intros _; apply raises_only_ret].
    apply set_remotes_loop_raises. intros Hstrict.
    now destruct (Hworks Hstrict).
Qed.

Lemma parse_outcome_raises strict directory merge e :
  (strict = true -> is_merge_entry merge = true) ->
  snd (parse_outcome directory merge) = Raise e ->
  acceptable strict directory e = true.
Proof.
  intros Hshape.
  assert (Hother : is_merge_entry merge = false ->
                   @Raise pyval TypeError = Raise e ->
                   acceptable strict directory e = true).
  { intros Hno [= <-]. destruct strict; [| reflexivity].
    rewrite Hshape in Hno; [discriminate | reflexivity]. }
  destruct merge as [| b | z | text | xs | fields]; cbn [parse_outcome snd];
    try (now apply Hother).
  - destruct (Nat.eqb _ 2); [discriminate |].
    intros [= <-]. now apply config_error_acceptable.
  - destruct (dict_get "remote" fields) as [r |];
      [| intros [= <-]; now apply config_error_acceptable].
    destruct (dict_get "ref" _); cbn [snd]; [discriminate |].
    intros [= <-]. now apply config_error_acceptable.
Qed.

Lemma check_ref_returns directory tmp_repo merge s e s' :
  check_ref directory tmp_repo merge s <> (Raise e, s').
Proof.
  unfold check_ref. intros [(a & _ & [=]) | (e' & s1 & _ & Hrun)]%try_except_inv.
  apply bind_inv in Hrun as [(e'' & [=] & _) | (u & s2 & _ & [[=] _]%ret_inv)].
Qed.

Lemma resolve_merge_raises strict k i directory remote_names skip tmp_repo merge :
  (strict = true -> is_merge_entry merge = true) ->
  raises_only (acceptable strict directory)
    (resolve_merge k i directory remote_names skip tmp_repo merge).
Proof.
  intros Hshape s e s'. unfold resolve_merge. intros Hrun.
  apply bind_inv in Hrun as [(e' & Hparse & [= <-]) | (merge1 & s1 & Hparse & Hrun)];
    rewrite parse_merge_run in Hparse; injection Hparse as Hparse _.
  - eapply parse_outcome_raises; eassumption.
  - apply parse_outcome_fields in Hparse as (remote_name & ref & Hremote & _).
    unfold bind at 1 in Hrun. unfold lift at 1 in Hrun. rewrite Hremote in Hrun.
    destruct (set_mem _ _); cbn [negb] in Hrun.
    + apply bind_inv in Hrun as [(e' & Hcheck & _) | (dropped & s2 & _ & Hrun)].
      * destruct (negb skip && repo_bool tmp_repo).
        -- now apply check_ref_returns in Hcheck.
        -- now apply ret_inv in Hcheck as [[=] _].
      * destruct dropped; now apply ret_inv in Hrun as [[=] _].
    + apply raise_inv in Hrun as [[= ->] _]. now apply config_error_acceptable.
Qed.

Lemma merges_loop_raises strict k directory remote_names skip tmp_repo merge_data :
  (strict = true -> forallb is_merge_entry merge_data = true) ->
  forall i acc,
    raises_only (acceptable strict directory)
      (merges_loop k i directory remote_names skip tmp_repo merge_data acc).
Proof.
  induction merge_data as [| merge merge_data IH]; intros Hshape i acc;
    cbn [merges_loop].
  - apply raises_only_ret.
  - apply raises_only_bind.
    + apply resolve_merge_raises. intros Hstrict.
      specialize (Hshape Hstrict). cbn in Hshape.
      now apply andb_true_iff in Hshape as [-> _].
    + intros kept. apply IH. intros Hstrict.
      specialize (Hshape Hstrict). cbn in Hshape.
      now apply andb_true_iff in Hshape as [_ ->].
Qed.

Lemma resolve_merges_raises strict k directory rs remote_names skip fields :
  (strict = true ->
   shaped_at "merges" merges_shaped fields = true
   /\ (skip = true \/ set_remote_works)) ->
  raises_only (acceptable strict directory)
    (resolve_merges k directory rs remote_names skip fields).
Proof.
  intros Hshape. unfold resolve_merges, dict_has, dict_get_default.
  destruct (dict_get "merges" fields) as [v |] eqn:Hmerges;
    [| now apply raises_only_raise, config_error_acceptable].
  assert (Hentries : strict = true ->
            exists entries, py_iter (py_or v (PyList [])) = Ok entries
                            /\ forallb is_merge_entry entries = true).
  { intros Hstrict. destruct (Hshape Hstrict) as [Hv _].
    unfold shaped_at in Hv. rewrite Hmerges in Hv.
    unfold merges_shaped, py_or in *. destruct (py_bool v); cbn in Hv.
    - destruct v; try discriminate. eauto.
    - now exists []. }
  apply raises_only_bind.
  - apply open_repo_raises. intros Hstrict. now destruct (Hshape Hstrict).
  - intros tmp_repo. apply raises_only_bind_lift.
    + intros e He.
      assert (e = TypeError) as ->
          by (unfold py_iter in He; destruct (py_or _ _); congruence).
      destruct strict; [| reflexivity].
      destruct (Hentries eq_refl) as (entries & Hiter & _). congruence.
    + intros entries Hiter. apply raises_only_bind.
      * apply merges_loop_raises. intros Hstrict.
        destruct (Hentries Hstrict) as (entries' & Hiter' & Hall). congruence.
      * intros [| m found];
          [now apply raises_only_raise, config_error_acceptable | apply raises_only_ret].
Qed.

Lemma normalize_fetch_all_raises strict directory v e :
  (strict = true -> fetch_all_shaped v = true) ->
  normalize_fetch_all v = Raise e ->
  acceptable strict directory e = true.
Proof.
  intros Hshape Hraise.
  assert (Hfrozen : forall xs members,
             forallb hashable xs = true -> frozenset xs members <> Raise e).
  { induction xs as [| x xs IH]; intros members Hall; [discriminate |].
    cbn in Hall |- *. apply andb_true_iff in Hall as [-> Hall]. now apply IH. }
  destruct strict.
  - specialize (Hshape eq_refl).
    destruct v; try discriminate; unfold normalize_fetch_all, result_bind in Hraise.
    destruct (frozenset xs []) eqn:Hxs; [discriminate |].
    injection Hraise as ->. now apply Hfrozen in Hxs.
  - assert (e = TypeError) as ->; [| reflexivity].
    assert (Hfrozen' : forall xs members,
               frozenset xs members = Raise e -> e = TypeError).
    { induction xs as [| x xs IH]; intros members; [discriminate |].
      cbn. destruct (hashable x); [apply IH | now intros [= <-]]. }
    destruct v; try discriminate; unfold normalize_fetch_all, result_bind in Hraise.
    destruct (frozenset xs []) eqn:Hxs; [discriminate |].
    injection Hraise as ->. now apply Hfrozen' in Hxs.
Qed.

Lemma resolve_target_raises strict directory remote_names fields e :
  resolve_target directory remote_names fields = Raise e ->
  acceptable strict directory e = true.
Proof.
  unfold resolve_target, result_bind.
  destruct (length _) as [| [| [| n]]]; cbn [fst snd];
    try discriminate.
  - destruct (negb _); [| discriminate].
    intros [= <-]. now apply config_error_acceptable.
  - intros [= <-]. now apply config_error_acceptable.
Qed.

Lemma get_repo_raises strict k D repo_data force skip :
  (strict = true ->
   entry_shaped (PyStr D, repo_data) = true
   /\ (skip = true \/ set_remote_works)) ->
  raises_only (acceptable strict (if isabs D then D else abspath D))
    (get_repo k (PyStr D) repo_data force skip).
Proof.
  intros Hshape. unfold get_repo. cbn [resolve_directory].
  set (directory := if isabs D then D else abspath D).
  apply raises_only_bind_lift; [discriminate | intros ? [= <-]].
  apply raises_only_bind_lift.
  { intros e He.
    assert (e = AttributeError) as ->
        by (unfold py_mapping in He; destruct repo_data; congruence).
    destruct strict; [| reflexivity].
    destruct (Hshape eq_refl) as [Hentry _]. now destruct repo_data. }
  intros fields Hfields.
  assert (repo_data = PyDict fields) as ->
      by (destruct repo_data; try discriminate; now injection Hfields as ->).
  assert (Hparts : strict = true ->
            shaped_at "remotes" remotes_shaped fields = true
            /\ shaped_at "merges" merges_shaped fields = true
            /\ shaped_at "fetch_all" fetch_all_shaped fields = true
            /\ (skip = true \/ set_remote_works)).
  { intros Hstrict. destruct (Hshape Hstrict) as [Hentry Hworks].
    cbn [entry_shaped] in Hentry.
    apply andb_true_iff in Hentry as [[Hr Hm]%andb_true_iff Hf]. auto. }
  apply raises_only_bind.
  { unfold dict_has, dict_get_default.
    destruct (dict_get "remotes" fields) as [v |] eqn:Hremotes;
      [| apply discovered_remotes_raises].
    apply raises_only_lift. intros e. apply configured_remotes_raises.
    intros Hstrict. destruct (Hparts Hstrict) as (Hr & _).
    unfold shaped_at in Hr. now rewrite Hremotes in Hr. }
  intros [rs remote_names]. apply raises_only_bind.
  { apply resolve_merges_raises. intros Hstrict.
    now destruct (Hparts Hstrict) as (_ & Hm & _ & Hworks). }
  intros found. apply raises_only_bind.
  { apply raises_only_lift. intros e. apply normalize_fetch_all_raises.
    intros Hstrict. destruct (Hparts Hstrict) as (_ & _ & Hf & _).
    unfold shaped_at, dict_get_default in *.
    now destruct (dict_get "fetch_all" fields). }
  intros scope. apply raises_only_bind.
  { apply raises_only_lift. intros e. apply resolve_target_raises. }
  intros destination. apply raises_only_ret.
Qed.

(** A key that is no text is a [TypeError]. *)
Lemma get_repo_key k directory repo_data force skip s e s' :
  get_repo k directory repo_data force skip s = (Raise e, s') ->
  (exists D, directory = PyStr D) \/ e = TypeError.
Proof.
  destruct directory as [| b | z | D | xs | kvs]; eauto; intros Hrun; right;
    unfold get_repo in Hrun;
    apply bind_inv in Hrun
      as [(e' & [He _]%lift_inv & [= ->]) | (a & s1 & [He _]%lift_inv & _)];
    cbn in He; congruence.
Qed.

(** The exception of the loop is the exception of one directory. *)
Lemma get_repos_loop_raise force skip (items : dict) :
  forall k repo_list s e s',
    get_repos_loop k items force skip repo_list s = (Raise e, s') ->
    exists item k1 s1,
      In item items
      /\ get_repo k1 (fst item) (snd item) force skip s1 = (Raise e, s').
Proof.
  induction items as [| [directory repo_data] items IH];
    intros k repo_list s e s' Hrun.
  - now apply ret_inv in Hrun as [[=] _].
  - cbn [get_repos_loop] in Hrun.
    apply bind_inv in Hrun as [(e' & Hraise & [= <-]) | (r & s1 & _ & Hrest)].
    + exists (directory, repo_data), k, s. split; [now left | exact Hraise].
    + apply IH in Hrest as (item & k1 & s2 & Hin & Hraise).
      exists item, k1, s2. split; [now right | exact Hraise].
Qed.

(** The loop raises at the first directory that does not resolve. *)
Lemma get_repos_loop_raise_at force skip (items : dict) :
  forall k repo_list s e s',
    get_repos_loop k items force skip repo_list s = (Raise e, s') ->
    exists done directory repo_data rest found s1,
      items = done ++ (directory, repo_data) :: rest
      /\ get_repos_loop k done force skip repo_list s = (Ok found, s1)
      /\ get_repo (k + length done) directory repo_data force skip s1
         = (Raise e, s').
Proof.
  induction items as [| [directory repo_data] items IH];
    intros k repo_list s e s' Hrun.
  - now apply ret_inv in Hrun as [[=] _].
  - cbn [get_repos_loop] in Hrun.
    apply bind_inv in Hrun as [(e' & Hraise & [= <-]) | (r & s1 & Hr & Hrest)].
    + exists [], directory, repo_data, items, repo_list, s.
      cbn [app length get_repos_loop]. rewrite Nat.add_0_r.
      repeat split. exact Hraise.
    + apply IH in Hrest
        as (done & directory' & repo_data' & rest & found & s2
            & -> & Hdone & Hraise).
      exists ((directory, repo_data) :: done), directory', repo_data', rest,
        found, s2.
      cbn [app length get_repos_loop]. rewrite (bind_ok _ _ _ _ _ Hr).
      replace (k + S (length done)) with (S k + length done) by lia.
      repeat split; assumption.
Qed.

(** C8, as the code has it: when [get_repos] raises, the directories
    before one resolved and that one raised it; if it is a configuration
    error, the key of that directory is a text and the message starts
    with it, made absolute, a colon and a space.  On a configuration of
    the expected shape (directories are text keys of mappings; [remotes]
    is a mapping, [merges] a list of texts and mappings, both possibly
    empty; a [fetch_all] list holds values that hash), and when no
    remote has to be set or setting one never fails, [get_repos] raises
    nothing but configuration errors. *)
Theorem get_repos_errors (config : dict) (force skip_merge_check : bool)
    (w : world) (e : exn) (s' : state world) :
  get_repos config force skip_merge_check w = (Raise e, s') ->
  (exists done directory repo_data rest found s1,
      config = done ++ (directory, repo_data) :: rest
      /\ get_repos_loop 0 done force skip_merge_check [] (enter config w)
         = (Ok found, s1)
      /\ get_repo (length done) directory repo_data force skip_merge_check s1
         = (Raise e, s')
      /\ forall msg,
          e = ConfigException msg ->
          exists D,
            directory = PyStr D
            /\ startswith ((if isabs D then D else abspath D) +:+ ": ") msg
               = true)
  /\ (well_shaped config = true ->
      skip_merge_check = true \/ set_remote_works ->
      exists msg, e = ConfigException msg).
Proof.
  unfold get_repos. intros Hrun. split.
  - apply get_repos_loop_raise_at in Hrun
      as (done & directory & repo_data & rest & found & s1
          & Hconfig & Hdone & Hraise).
    cbn [Nat.add] in Hraise.
    exists done, directory, repo_data, rest, found, s1.
    repeat split; try assumption.
    intros msg ->.
    destruct (get_repo_key _ _ _ _ _ _ _ _ Hraise) as [[D ->] |];
      [| discriminate].
    exists D. split; [reflexivity |].
    apply (get_repo_raises false) in Hraise; [exact Hraise | discriminate].
  - apply get_repos_loop_raise in Hrun
      as ([directory repo_data] & k & s & Hin & Hrun).
    cbn [fst snd] in Hrun.
    intros Hshape Hworks.
    unfold well_shaped in Hshape. rewrite forallb_forall in Hshape.
    specialize (Hshape _ Hin).
    destruct directory as [| b | z | D | xs | kvs]; try discriminate.
    apply (get_repo_raises true) in Hrun; [| now intros _].
    destruct e; try discriminate. eauto.
Qed.

End Errors.

(** ** What [get_repos] writes into the caller's mapping *)

Section Writes.

Context {world : Type} {runtime : Runtime world}.

#[global] Instance keeps_input_preorder : PreOrder (@keeps_input world).
Proof.
  split; [now intros s | intros s1 s2 s3 H12 H23].
  unfold keeps_input in *. congruence.
Qed.

Lemma log_warning_keeps_input msg : stepwise (@keeps_input world) (log_warning msg).
Proof. now intros s r s' [= _ <-]. Qed.

Lemma discovered_remotes_keeps_input d :
  stepwise (@keeps_input world) (discovered_remotes d).
Proof.
  intros s r s'. unfold discovered_remotes.
  now destruct (_get_remotes _ _); intros [= _ <-].
Qed.

Lemma call_query_remote_ref_keeps_input repo remote_name ref :
  stepwise (@keeps_input world) (call_query_remote_ref repo remote_name ref).
Proof.
  intros s r s'. unfold call_query_remote_ref.
  now destruct (query_remote_ref _ _ _ _); intros [= _ <-].
Qed.

Lemma call_set_remote_keeps_input tmp_repo r :
  stepwise (@keeps_input world) (call_set_remote tmp_repo r).
Proof.
  intros s res s'. unfold call_set_remote.
  now destruct (_set_remote _ _ _ _); intros [= _ <-].
Qed.

Lemma set_remotes_loop_keeps_input tmp_repo rs :
  stepwise (@keeps_input world) (set_remotes_loop tmp_repo rs).
Proof.
  induction rs as [| r rs IH]; cbn [set_remotes_loop].
  - apply stepwise_ret. typeclasses eauto.
  - apply stepwise_bind;
      [typeclasses eauto | apply call_set_remote_keeps_input | intros _; exact IH].
Qed.

Lemma open_repo_keeps_input directory rs skip :
  stepwise (@keeps_input world) (open_repo directory rs skip).
Proof.
  unfold open_repo. destruct skip; cbn [negb].
  - apply stepwise_ret. typeclasses eauto.
  - intros s r s' Hrun. destruct (path_exists _ _).
    + revert s r s' Hrun. apply stepwise_bind;
        [typeclasses eauto | apply set_remotes_loop_keeps_input | intros _].
      apply stepwise_ret. typeclasses eauto.
    + now injection Hrun as _ <-.
Qed.

Lemma check_ref_keeps_input directory tmp_repo merge :
  stepwise (@keeps_input world) (check_ref directory tmp_repo merge).
Proof.
  unfold check_ref.
  stepwise_steps;
    auto using log_warning_keeps_input, call_query_remote_ref_keeps_input.
Qed.

(** One turn of the loop writes what parsing the entry stores, nothing
    else. *)
Lemma resolve_merge_input k i directory remote_names skip tmp_repo merge s r s' :
  resolve_merge k i directory remote_names skip tmp_repo merge s = (r, s') ->
  input s' = input (written k i (fst (parse_outcome directory merge)) s).
Proof.
  unfold resolve_merge. intros Hrun.
  apply bind_inv in Hrun as [(e & Hparse & _) | (merge1 & s1 & Hparse & Hrun)];
    rewrite parse_merge_run in Hparse; injection Hparse as _ <-;
    [reflexivity |].
  revert Hrun. generalize (written k i (fst (parse_outcome directory merge)) s).
  intros s1 Hrun. revert s1 r s' Hrun.
  change (stepwise keeps_input
            (bind (lift (getitem merge1 "remote"))
               (fun remote_name =>
                  if negb (set_mem remote_name remote_names) then
                    raise (ConfigException
                             (directory +:+ ": Merge remote "
                                +:+ py_str remote_name
                                +:+ " not defined in remotes."))
                  else
                    bind (if negb skip && repo_bool tmp_repo
                          then check_ref directory tmp_repo merge1
                          else ret false)
                      (fun dropped : bool =>
                         if dropped then ret None else ret (Some merge1))))).
  stepwise_steps;
    auto using log_warning_keeps_input, call_query_remote_ref_keeps_input.
Qed.

(** Writing where the directory holds no list of merges writes nothing. *)
Lemma write_merge_elsewhere (done after : dict) directory repo_data i merge :
  has_merge_list repo_data = false ->
  write_merge (length done) i merge (done ++ (directory, repo_data) :: after)
  = done ++ (directory, repo_data) :: after.
Proof.
  intros Hno. unfold write_merge.
  rewrite <- (Nat.add_0_r (length done)), alter_app_r. cbn [alter list_alter].
  destruct repo_data as [| b | z | text | xs | fields]; try reflexivity.
  cbn [has_merge_list] in Hno.
  destruct (dict_get "merges" fields) as [[| b | z | text | xs | kvs] |];
    try reflexivity; discriminate.
Qed.

(** Writing entry [i] of the list of merges of a directory. *)
Lemma write_merge_at (done after : dict) directory fields i merge cur :
  write_merge (length done) i merge
    (done ++ (directory, PyDict (dict_set "merges" (PyList cur) fields)) :: after)
  = done ++ (directory,
             PyDict (dict_set "merges" (PyList (<[i := merge]> cur)) fields))
         :: after.
Proof.
  unfold write_merge.
  rewrite <- (Nat.add_0_r (length done)), alter_app_r. cbn [alter list_alter].
  now rewrite dict_get_set_same, dict_set_twice.
Qed.

Lemma merge_rewritten_refl merge : merge_rewritten merge merge.
Proof. now left. Qed.

Lemma merges_rewritten_refl merge_data :
  Forall2 merge_rewritten merge_data merge_data.
Proof. induction merge_data; constructor; auto using merge_rewritten_refl. Qed.

Lemma entry_rewritten_refl item : entry_rewritten item item.
Proof. split; [reflexivity | now left]. Qed.

Lemma config_rewritten_refl config : config_rewritten config config.
Proof. induction config; constructor; auto using entry_rewritten_refl. Qed.

Lemma insert_middle {A : Type} (pre rest : list A) (x y : A) :
  <[length pre := y]> (pre ++ x :: rest) = pre ++ y :: rest.
Proof. now rewrite <- (Nat.add_0_r (length pre)), insert_app_r. Qed.

(** What parsing an entry stores rewrites the entry. *)
Lemma parse_writes_at (done after : dict) directory0 fields directory
    (pre rest : list pyval) merge0 (s : state world) :
  input s = done ++ (directory0,
                     PyDict (dict_set "merges" (PyList (pre ++ merge0 :: rest))
                               fields)) :: after ->
  exists merge1,
    merge_rewritten merge0 merge1
    /\ input (written (length done) (length pre)
                (fst (parse_outcome directory merge0)) s)
       = done ++ (directory0,
                  PyDict (dict_set "merges" (PyList (pre ++ merge1 :: rest))
                            fields)) :: after.
Proof.
  intros Hinput.
  destruct merge0 as [| b | z | text | xs | kvs];
    try (eexists; split; [apply merge_rewritten_refl | exact Hinput]).
  cbn [parse_outcome].
  destruct (dict_get "remote" kvs) as [r |] eqn:Hremote;
    [| eexists; split; [apply merge_rewritten_refl | exact Hinput]].
  set (kvs1 := dict_set "remote" (PyStr (py_str r)) kvs).
  assert (Hkvs1 : coerced "remote" kvs = kvs1)
    by (unfold coerced; now rewrite Hremote).
  destruct (dict_get "ref" kvs1) as [f |] eqn:Href; cbn [fst].
  - exists (PyDict (dict_set "ref" (PyStr (py_str f)) kvs1)). split.
    + right. exists kvs. split; [reflexivity |].
      rewrite Hkvs1. unfold coerced. now rewrite Href.
    + unfold written. cbn [fold_left input]. rewrite Hinput.
      now rewrite write_merge_at, insert_middle, write_merge_at, insert_middle.
  - exists (PyDict kvs1). split.
    + right. exists kvs. split; [reflexivity |].
      rewrite Hkvs1. unfold coerced. now rewrite Href.
    + unfold written. cbn [fold_left input]. rewrite Hinput.
      now rewrite write_merge_at, insert_middle.
Qed.

Lemma merges_loop_rewrites (done after : dict) directory0 fields directory
    remote_names skip tmp_repo :
  forall merge_data pre acc (s : state world) r s',
    input s = done ++ (directory0,
                       PyDict (dict_set "merges" (PyList (pre ++ merge_data))
                                 fields)) :: after ->
    merges_loop (length done) (length pre) directory remote_names skip
      tmp_repo merge_data acc s = (r, s') ->
    exists merge_data',
      Forall2 merge_rewritten merge_data merge_data'
      /\ input s'
         = done ++ (directory0,
                    PyDict (dict_set "merges" (PyList (pre ++ merge_data'))
                              fields)) :: after.
Proof.
  induction merge_data as [| merge0 merge_data IH];
    intros pre acc s r s' Hinput Hrun.
  - apply ret_inv in Hrun as [_ ->]. exists []. split; [constructor | exact Hinput].
  - cbn [merges_loop] in Hrun.
    destruct (parse_writes_at _ _ _ _ directory _ _ _ _ Hinput)
      as (merge1 & Hmerge1 & Hwritten).
    apply bind_inv in Hrun as [(e & Hturn & _) | (kept & s1 & Hturn & Hrun)];
      apply resolve_merge_input in Hturn; rewrite Hwritten in Hturn.
    + exists (merge1 :: merge_data). split; [| exact Hturn].
      constructor; [exact Hmerge1 | apply merges_rewritten_refl].
    + replace (S (length pre)) with (length (pre ++ [merge1])) in Hrun
        by (rewrite length_app; cbn; lia).
      apply IH in Hrun as (merge_data' & Hrest & Hinput').
      * exists (merge1 :: merge_data'). split; [now constructor |].
        now rewrite Hinput', <- app_assoc.
      * now rewrite Hturn, <- app_assoc.
Qed.

Lemma merges_loop_elsewhere (done after : dict) directory0 repo_data directory
    remote_names skip tmp_repo :
  has_merge_list repo_data = false ->
  forall merge_data i acc (s : state world) r s',
    input s = done ++ (directory0, repo_data) :: after ->
    merges_loop (length done) i directory remote_names skip tmp_repo
      merge_data acc s = (r, s') ->
    input s' = input s.
Proof.
  intros Hno.
  assert (Hturn : forall i merge (s : state world),
             input s = done ++ (directory0, repo_data) :: after ->
             input (written (length done) i
                      (fst (parse_outcome directory merge)) s) = input s).
  { intros i merge s Hinput. unfold written. cbn [input]. rewrite Hinput.
    induction (fst (parse_outcome directory merge)) as [| m stored IH];
      [reflexivity |].
    cbn [fold_left]. now rewrite write_merge_elsewhere. }
  induction merge_data as [| merge0 merge_data IH];
    intros i acc s r s' Hinput Hrun.
  - now apply ret_inv in Hrun as [_ ->].
  - cbn [merges_loop] in Hrun.
    apply bind_inv in Hrun as [(e & Hstep & _) | (kept & s1 & Hstep & Hrun)];
      apply resolve_merge_input in Hstep; rewrite Hturn in Hstep by assumption.
    + exact Hstep.
    + rewrite <- Hstep. eapply IH; [| exact Hrun]. congruence.
Qed.

Lemma resolve_merges_rewrites (done after : dict) directory0 fields directory
    rs remote_names skip (s : state world) r s' :
  input s = done ++ (directory0, PyDict fields) :: after ->
  resolve_merges (length done) directory rs remote_names skip fields s
    = (r, s') ->
  exists item',
    entry_rewritten (directory0, PyDict fields) item'
    /\ input s' = done ++ item' :: after.
Proof.
  intros Hinput. unfold resolve_merges, dict_has, dict_get_default.
  assert (Hsame : forall s1 : state world,
             input s1 = input s ->
             exists item',
               entry_rewritten (directory0, PyDict fields) item'
               /\ input s1 = done ++ item' :: after).
  { intros s1 ->. eexists. split; [apply entry_rewritten_refl | exact Hinput]. }
  destruct (dict_get "merges" fields) as [v |] eqn:Hmerges;
    [| intros [_ ->]%raise_inv; now apply Hsame].
  intros Hrun.
  apply bind_inv in Hrun as [(e & Hopen & _) | (tmp_repo & s1 & Hopen & Hrun)];
    apply open_repo_keeps_input in Hopen; unfold keeps_input in Hopen;
    [now apply Hsame |].
  apply bind_inv in Hrun
    as [(e & [_ ->]%lift_inv & _) | (entries & s2 & [Hiter ->]%lift_inv & Hrun)];
    [now apply Hsame |].
  assert (Hlast : forall (found : list pyval) (s3 : state world)
                          (r : result (list pyval)) (s' : state world),
             match found return M world (list pyval) with
             | [] => raise (ConfigException
                              (directory
                                 +:+ ": You should at least define one merge."))
             | _ => ret found
             end s3 = (r, s') -> s' = s3).
  { intros [| m found] s3 r0 s0.
    - now intros [_ ->]%raise_inv.
    - now intros [_ ->]%ret_inv. }
  destruct (has_merge_list (PyDict fields)) eqn:Hlist.
  - cbn [has_merge_list] in Hlist. rewrite Hmerges in Hlist.
    destruct v as [| b | z | text | merge_data | kvs]; try discriminate.
    assert (entries = merge_data) as ->.
    { unfold py_or in Hiter. destruct (py_bool (PyList merge_data)) eqn:Hbool.
      - now injection Hiter as <-.
      - destruct merge_data; [now injection Hiter as <- | discriminate]. }
    assert (Hat : input s1
                  = done ++ (directory0,
                             PyDict (dict_set "merges"
                                       (PyList ([] ++ merge_data)) fields))
                         :: after).
    { cbn [app]. now rewrite dict_set_same, Hopen. }
    assert (Hloop : forall r s',
               merges_loop (length done) 0 directory remote_names skip tmp_repo
                 merge_data [] s1 = (r, s') ->
               exists item',
                 entry_rewritten (directory0, PyDict fields) item'
                 /\ input s' = done ++ item' :: after).
    { intros r0 s0 Hloop.
      apply (merges_loop_rewrites _ _ _ _ _ _ _ _ _ [] _ _ _ _ Hat) in Hloop
        as (merge_data' & Hrewritten & Hinput').
      eexists. split; [| exact Hinput'].
      split; [reflexivity |]. right. cbn [fst snd app].
      now exists fields, merge_data, merge_data'. }
    apply bind_inv in Hrun as [(e & Hrun & _) | (found & s3 & Hrun & Hend)].
    + now apply Hloop in Hrun.
    + apply Hlast in Hend as ->. now apply Hloop in Hrun.
  - assert (Hloop : forall r s',
               merges_loop (length done) 0 directory remote_names skip tmp_repo
                 entries [] s1 = (r, s') ->
               input s' = input s).
    { intros r0 s0 Hloop. rewrite <- Hopen.
      eapply merges_loop_elsewhere; [exact Hlist | | exact Hloop].
      rewrite Hopen. exact Hinput. }
    apply bind_inv in Hrun as [(e & Hrun & _) | (found & s3 & Hrun & Hend)].
    + eapply Hsame, Hloop, Hrun.
    + apply Hlast in Hend as ->. eapply Hsame, Hloop, Hrun.
Qed.

Lemma get_repo_rewrites (done after : dict) directory repo_data force skip
    (s : state world) r s' :
  input s = done ++ (directory, repo_data) :: after ->
  get_repo (length done) directory repo_data force skip s = (r, s') ->
  exists item',
    entry_rewritten (directory, repo_data) item'
    /\ input s' = done ++ item' :: after.
Proof.
  intros Hinput. unfold get_repo. intros Hrun.
  assert (Hsame : forall s1 : state world,
             input s1 = input s ->
             exists item',
               entry_rewritten (directory, repo_data) item'
               /\ input s1 = done ++ item' :: after).
  { intros s1 ->. eexists. split; [apply entry_rewritten_refl | exact Hinput]. }
  apply bind_inv in Hrun
    as [(e & [_ ->]%lift_inv & _) | (d & s1 & [_ ->]%lift_inv & Hrun)];
    [now apply Hsame |].
  apply bind_inv in Hrun
    as [(e & [_ ->]%lift_inv & _) | (fields & s1 & [Hfields ->]%lift_inv & Hrun)];
    [now apply Hsame |].
  assert (repo_data = PyDict fields) as ->
      by (destruct repo_data; try discriminate; now injection Hfields as ->).
  assert (Hremotes : stepwise (@keeps_input world)
            (if dict_has "remotes" fields
             then lift (configured_remotes d
                          (dict_get_default "remotes" PyNone fields))
             else discovered_remotes d)).
  { destruct (dict_has "remotes" fields);
      [apply stepwise_lift; typeclasses eauto
      | apply discovered_remotes_keeps_input]. }
  apply bind_inv in Hrun
    as [(e & Hfound & _) | ([rs remote_names] & s1 & Hfound & Hrun)];
    apply Hremotes in Hfound; [now apply Hsame |].
  apply bind_inv in Hrun as [(e & Hmerges & _) | (found & s2 & Hmerges & Hrun)];
    (apply (resolve_merges_rewrites done after directory) in Hmerges;
     [| unfold keeps_input in Hfound; congruence]);
    [exact Hmerges |].
  apply bind_inv in Hrun
    as [(e & [_ ->]%lift_inv & _) | (scope & s3 & [_ ->]%lift_inv & Hrun)];
    [exact Hmerges |].
  apply bind_inv in Hrun
    as [(e & [_ ->]%lift_inv & _) | (destination & s3 & [_ ->]%lift_inv & Hrun)];
    [exact Hmerges |].
  now apply ret_inv in Hrun as [_ ->].
Qed.

Lemma get_repos_loop_rewrites force skip (items : dict) :
  forall (done : dict) repo_list (s : state world) r s',
    input s = done ++ items ->
    get_repos_loop (length done) items force skip repo_list s = (r, s') ->
    exists items',
      config_rewritten items items' /\ input s' = done ++ items'.
Proof.
  induction items as [| [directory repo_data] items IH];
    intros done repo_list s r s' Hinput Hrun.
  - apply ret_inv in Hrun as [_ ->]. exists []. split; [constructor | exact Hinput].
  - cbn [get_repos_loop] in Hrun.
    apply bind_inv in Hrun as [(e & Hitem & _) | (found & s1 & Hitem & Hrun)];
      apply (get_repo_rewrites _ _ _ _ _ _ _ _ _ Hinput) in Hitem
        as (item' & Hitem' & Hinput').
    + exists (item' :: items). split; [| exact Hinput'].
      constructor; [exact Hitem' | apply config_rewritten_refl].
    + replace (S (length done)) with (length (done ++ [item'])) in Hrun
        by (rewrite length_app; cbn; lia).
      apply IH in Hrun as (items' & Hitems' & Hinput'').
      * exists (item' :: items'). split; [now constructor |].
        now rewrite Hinput'', <- app_assoc.
      * now rewrite Hinput', <- app_assoc.
Qed.

Lemma coerced_text key fields : text_at key fields = true -> coerced key fields = fields.
Proof.
  unfold text_at, coerced.
  destruct (dict_get key fields) as [v |] eqn:Hget; [| reflexivity].
  destruct v; try discriminate. intros _. now apply dict_set_same.
Qed.

Lemma merge_rewritten_text before after :
  merge_rewritten before after -> merge_is_text before = true -> after = before.
Proof.
  intros [-> | (fields & -> & ->)]; [reflexivity |].
  cbn [merge_is_text]. intros [Hremote Href]%andb_true_iff.
  now rewrite (coerced_text "remote"), (coerced_text "ref").
Qed.

Lemma merges_rewritten_text before after :
  Forall2 merge_rewritten before after ->
  forallb merge_is_text before = true -> after = before.
Proof.
  induction 1 as [| m m' l l' Hm _ IH]; [reflexivity |].
  cbn [forallb]. intros [Htext Hrest]%andb_true_iff.
  now rewrite (merge_rewritten_text _ _ Hm Htext), IH.
Qed.

Lemma entry_rewritten_text before after :
  entry_rewritten before after -> merges_are_text before = true ->
  after = before.
Proof.
  destruct before as [k v], after as [k' v'].
  unfold entry_rewritten. cbn [fst snd].
  intros [-> [-> | (fields & l & l' & -> & Hget & -> & Hl)]]; [reflexivity |].
  unfold merges_are_text. cbn [snd]. rewrite Hget. intros Htext.
  rewrite (merges_rewritten_text _ _ Hl Htext).
  now rewrite dict_set_same.
Qed.

Lemma config_rewritten_text before after :
  config_rewritten before after ->
  forallb merges_are_text before = true -> after = before.
Proof.
  induction 1 as [| item item' l l' Hitem _ IH]; [reflexivity |].
  cbn [forallb]. intros [Htext Hrest]%andb_true_iff.
  now rewrite (entry_rewritten_text _ _ Hitem Htext), IH.
Qed.

(** Equal trees are counted as one value. *)
Lemma pyval_eqb_refl (v : pyval) : pyval_eqb v v = true.
Proof.
  revert v. fix IH 1. intros [| b | z | text | xs | kvs]; cbn [pyval_eqb].
  - reflexivity.
  - now destruct b.
  - apply Z.eqb_refl.
  - apply String.eqb_refl.
  - induction xs as [| x xs IHxs]; [reflexivity |].
    now rewrite (IH x), IHxs.
  - induction kvs as [| [k v] kvs IHkvs]; [reflexivity |].
    now rewrite (IH k), (IH v), IHkvs.
Qed.

(** C5, as the code has it: when [get_repos] is over, returning or
    raising, the caller's mapping has the same directories in the same
    order, each with the same value, except that a merge entry given as
    a mapping may have its remote and its ref replaced by their text.
    This is said of a configuration that holds every mapping so written
    to at one place only.  A configuration in which the remote and the
    ref of every such entry are text already is left as it was, shared or
    not: nothing in it changes. *)
Theorem get_repos_rewrites_merges_only (config : dict)
    (force skip_merge_check : bool) (w : world) :
  (merges_held_once config = true ->
   config_rewritten config
     (input (snd (get_repos config force skip_merge_check w))))
  /\ (forallb merges_are_text config = true ->
      input (snd (get_repos config force skip_merge_check w)) = config).
Proof.
  assert (Hrewritten : config_rewritten config
            (input (snd (get_repos config force skip_merge_check w)))).
  { unfold get_repos.
    destruct (get_repos_loop 0 config force skip_merge_check []
                (enter config w)) as [r s'] eqn:Hrun.
    apply (get_repos_loop_rewrites _ _ _ []) in Hrun
      as (items' & Hitems' & Hinput'); [| reflexivity].
    cbn [snd]. now rewrite Hinput'. }
  split; [intros _; exact Hrewritten |]. now apply config_rewritten_text.
Qed.

End Writes.

(** ** One record for each directory *)

Section Records.

Context {world : Type} {runtime : Runtime world}.

Lemma get_repo_heads k directory repo_data forced skip s r s' :
  get_repo k directory repo_data forced skip s = (Ok r, s') ->
  heads forced (directory, repo_data) r.
Proof.
  unfold get_repo. intros Hrun.
  apply bind_ok_inv in Hrun as (d & s1 & [Hd _]%lift_inv & Hrun).
  apply bind_ok_inv in Hrun as (fields & s2 & [Hfields _]%lift_inv & Hrun).
  apply bind_ok_inv in Hrun as ([rs remote_names] & s3 & _ & Hrun).
  apply bind_ok_inv in Hrun as (found & s4 & _ & Hrun).
  apply bind_ok_inv in Hrun as (scope & s5 & _ & Hrun).
  apply bind_ok_inv in Hrun as (destination & s6 & _ & Hrun).
  apply ret_inv in Hrun as [[= ->] _].
  destruct directory as [| b | z | D | xs | kvs]; try discriminate.
  destruct repo_data as [| b | z | text | xs | kvs]; try discriminate.
  injection Hd as <-. injection Hfields as <-.
  exists D, kvs. repeat split.
Qed.

(** X1: [get_repos] returns one record for each directory of the
    mapping, in the order of the mapping.  The [cwd] of a record is its
    directory, made absolute when it is not; its [force] is the flag
    passed in; its [defaults], [skip_dry_run], [apply_patch] and
    [skip_repo_init] are the configured values, the empty mapping and
    [False] when the keys are absent. *)
Theorem get_repos_one_record_per_directory (config : dict)
    (forced skip_merge_check : bool) (w : world) (found : list repo_dict)
    (s' : state world) :
  get_repos config forced skip_merge_check w = (Ok found, s') ->
  Forall2 (heads forced) config found.
Proof.
  unfold get_repos. intros Hrun.
  apply get_repos_loop_ok in Hrun as (new & -> & Hnew). cbn [app].
  induction Hnew as [| [directory repo_data] r items new (k & s1 & s2 & Hr) _ IH];
    constructor; [| exact IH].
  eapply get_repo_heads, Hr.
Qed.

End Records.

(** ** Without the merge check *)

Section Quiet.

Context {world : Type} {runtime : Runtime world}.

#[global] Instance lists_remotes_only_preorder :
  PreOrder (@lists_remotes_only world).
Proof.
  split.
  - intros s. repeat split. reflexivity.
  - intros s1 s2 s3 (Hgit & Hwarnings & Hcalls) (Hgit' & Hwarnings' & Hcalls').
    repeat split; [congruence | congruence | etransitivity; eassumption].
Qed.

Lemma setitem_lists_remotes_only k i merge key v :
  stepwise (@lists_remotes_only world) (setitem k i merge key v).
Proof.
  unfold setitem. destruct merge; try apply stepwise_raise; try typeclasses eauto.
  intros s r s' [= _ <-]. repeat split. now apply adds_nothing.
Qed.

Lemma discovered_remotes_lists_remotes_only directory :
  stepwise (@lists_remotes_only world) (discovered_remotes directory).
Proof.
  intros s r s' Hrun. unfold discovered_remotes in Hrun.
  assert (s' = record (GetRemotes directory) s) as ->
      by (destruct (_get_remotes _ _); now inversion Hrun).
  repeat split. now exists [GetRemotes directory].
Qed.

Lemma merges_loop_lists_remotes_only k directory remote_names tmp_repo
    merge_data :
  forall i acc,
    stepwise (@lists_remotes_only world)
      (merges_loop k i directory remote_names true tmp_repo merge_data acc).
Proof.
  induction merge_data as [| merge merge_data IH]; intros i acc;
    cbn [merges_loop].
  - apply stepwise_ret. typeclasses eauto.
  - apply stepwise_bind; [typeclasses eauto | | intros ?; apply IH].
    unfold resolve_merge. cbn [negb andb].
    stepwise_steps; apply setitem_lists_remotes_only.
Qed.

Lemma get_repo_lists_remotes_only k directory repo_data forced :
  stepwise (@lists_remotes_only world)
    (get_repo k directory repo_data forced true).
Proof.
  unfold get_repo, resolve_merges, open_repo. cbn [negb].
  stepwise_steps;
    auto using discovered_remotes_lists_remotes_only,
      merges_loop_lists_remotes_only.
Qed.

Lemma get_repos_loop_lists_remotes_only forced (items : dict) :
  forall k repo_list,
    stepwise (@lists_remotes_only world)
      (get_repos_loop k items forced true repo_list).
Proof.
  induction items as [| [directory repo_data] items IH]; intros k repo_list;
    cbn [get_repos_loop].
  - apply stepwise_ret. typeclasses eauto.
  - apply stepwise_bind;
      [typeclasses eauto | apply get_repo_lists_remotes_only | intros ?; apply IH].
Qed.

(** X2: with [skip_merge_check] on, [get_repos] sets no remote and asks
    for no ref: whether it returns or raises, the world is as it was,
    nothing was logged, and the only calls made on working copies listed
    their remotes. *)
Theorem get_repos_without_merge_check (config : dict) (forced : bool)
    (w : world) :
  git (snd (get_repos config forced true w)) = w
  /\ warnings (snd (get_repos config forced true w)) = []
  /\ forallb is_get_remotes (calls (snd (get_repos config forced true w)))
     = true.
Proof.
  unfold get_repos.
  destruct (get_repos_loop 0 config forced true [] (enter config w))
    as [r s'] eqn:Hrun.
  apply get_repos_loop_lists_remotes_only in Hrun
    as (Hgit & Hwarnings & cs & Hcalls & Hcs).
  cbn [snd]. repeat split; [exact Hgit | exact Hwarnings |].
  now rewrite Hcalls.
Qed.

End Quiet.

(** ** What a record always has *)

Section Complete.

Context {world : Type} {runtime : Runtime world}.

Lemma resolve_merge_text_fields k i directory remote_names skip tmp_repo merge0
    s merge s' :
  resolve_merge k i directory remote_names skip tmp_repo merge0 s
    = (Ok (Some merge), s') ->
  text_fields merge = true.
Proof.
  unfold resolve_merge. intros Hrun.
  apply bind_ok_inv in Hrun as (merge1 & s1 & Hparse & Hrun).
  rewrite parse_merge_run in Hparse. injection Hparse as Hparse _.
  apply parse_outcome_fields in Hparse as (remote_name & ref & Hremote & Href).
  apply bind_ok_inv in Hrun as (v & s2 & _ & Hrun).
  destruct (negb (set_mem v remote_names));
    [now apply raise_inv in Hrun as [[=] _] |].
  apply bind_ok_inv in Hrun as ([|] & s3 & _ & Hrun);
    apply ret_inv in Hrun as [[= Hm] _].
  subst merge1. unfold text_fields. now rewrite Hremote, Href.
Qed.

Lemma merges_loop_text_fields k directory remote_names skip tmp_repo merge_data :
  forall i acc s found s',
    merges_loop k i directory remote_names skip tmp_repo merge_data acc s
      = (Ok found, s') ->
    forallb text_fields acc = true ->
    forallb text_fields found = true.
Proof.
  induction merge_data as [| merge0 merge_data IH];
    intros i acc s found s' Hrun Hacc.
  - now apply ret_inv in Hrun as [[= <-] _].
  - cbn [merges_loop] in Hrun.
    apply bind_ok_inv in Hrun as (kept & s1 & Hkept & Hrun).
    eapply IH; [exact Hrun |].
    destruct kept as [merge |]; [| exact Hacc].
    rewrite forallb_app, Hacc. cbn.
    now rewrite (resolve_merge_text_fields _ _ _ _ _ _ _ _ _ _ Hkept).
Qed.

Lemma resolve_merges_text_fields k directory rs remote_names skip repo_data s
    found s' :
  resolve_merges k directory rs remote_names skip repo_data s = (Ok found, s') ->
  found <> [] /\ forallb text_fields found = true.
Proof.
  unfold resolve_merges. destruct (dict_has "merges" repo_data);
    [| intros Hrun; now apply raise_inv in Hrun as [[=] _]].
  intros Hrun.
  apply bind_ok_inv in Hrun as (tmp_repo & s1 & _ & Hrun).
  apply bind_ok_inv in Hrun as (entries & s2 & _ & Hrun).
  apply bind_ok_inv in Hrun as (merges0 & s3 & Hloop & Hrun).
  apply merges_loop_text_fields in Hloop; [| reflexivity].
  destruct merges0; [now apply raise_inv in Hrun as [[=] _] |].
  now apply ret_inv in Hrun as [[= ->] _].
Qed.

Lemma get_repo_complete k directory repo_data forced skip s r s' :
  get_repo k directory repo_data forced skip s = (Ok r, s') ->
  record_complete r = true.
Proof.
  unfold get_repo. intros Hrun.
  apply bind_ok_inv in Hrun as (d & s1 & _ & Hrun).
  apply bind_ok_inv in Hrun as (rd & s2 & _ & Hrun).
  apply bind_ok_inv in Hrun as ([rs remote_names] & s3 & Hremotes & Hrun).
  apply bind_ok_inv in Hrun as (found & s4 & Hmerges & Hrun).
  apply bind_ok_inv in Hrun as (scope & s5 & _ & Hrun).
  apply bind_ok_inv in Hrun as (destination & s6 & _ & Hrun).
  apply ret_inv in Hrun as [[= ->] _].
  assert (Hknown : known remote_names rs).
  { destruct (dict_has "remotes" rd).
    - apply lift_inv in Hremotes as [Hremotes _].
      eapply configured_remotes_known, Hremotes.
    - eapply discovered_remotes_known, Hremotes. }
  pose proof (resolve_merges_members _ _ _ _ _ _ _ _ _ Hmerges) as Hmembers.
  apply resolve_merges_text_fields in Hmerges as [Hsome Htext].
  unfold record_complete. cbn [remotes merges].
  destruct found as [| merge found]; [now destruct Hsome |].
  inversion Hmembers as [| ? ? (remote_name & _ & Hmem) _]; subst.
  apply Hknown in Hmem. destruct rs; [discriminate | exact Htext].
Qed.

(** X3: every record [get_repos] returns has at least one remote and at
    least one merge, and each of its merges is a mapping with a text
    under [remote] and a text under [ref]. *)
Theorem get_repos_records_complete (config : dict)
    (forced skip_merge_check : bool) (w : world) (found : list repo_dict)
    (s' : state world) :
  get_repos config forced skip_merge_check w = (Ok found, s') ->
  Forall (fun r => record_complete r = true) found.
Proof.
  unfold get_repos. intros Hrun.
  apply get_repos_loop_ok in Hrun as (new & -> & Hnew). cbn [app].
  induction Hnew as [| item r items new (k & s1 & s2 & Hr) _ IH];
    constructor; [| exact IH].
  eapply get_repo_complete, Hr.
Qed.

End Complete.

(** ** The words of a target *)

Section Target.

Context {world : Type} {runtime : Runtime world}.

Lemma no_space_snoc (word : string) (c : ascii) :
  no_space (word +:+ String c EmptyString) = no_space word && negb (isspace c).
Proof.
  induction word as [| c' word IH].
  - change ("" +:+ String c "") with (String c "").
    cbn [no_space]. now rewrite andb_true_r.
  - change (String c' word +:+ String c "")
      with (String c' (word +:+ String c "")).
    cbn [no_space]. now rewrite IH, andb_assoc.
Qed.

Lemma snoc_not_empty (word : string) (c : ascii) :
  String.eqb (word +:+ String c EmptyString) "" = false.
Proof. now destruct word. Qed.

(** What [split] with no argument returns is made of words. *)
Lemma split_whitespace_from_words (s : string) :
  forall word,
    no_space word = true ->
    forallb is_word (split_whitespace_from word s) = true.
Proof.
  induction s as [| c s IH]; intros word Hword; cbn [split_whitespace_from].
  - unfold is_word. destruct (String.eqb word "") eqn:Hempty; cbn;
      [reflexivity | now rewrite Hempty, Hword].
  - destruct (isspace c) eqn:Hc.
    + rewrite forallb_app, IH by reflexivity. rewrite andb_true_r.
      unfold is_word. destruct (String.eqb word "") eqn:Hempty; cbn;
        [reflexivity | now rewrite Hempty, Hword].
    + apply IH. now rewrite no_space_snoc, Hword, Hc.
Qed.

Lemma resolve_target_in_words directory remote_names repo_data t :
  resolve_target directory remote_names repo_data = Ok t ->
  is_word (branch t) = true
  /\ match remote t with
     | Some remote_name => is_word remote_name = true
     | None => True
     end.
Proof.
  unfold resolve_target, result_bind.
  pose proof (split_whitespace_from_words
                (py_str (dict_get_default "target" (PyStr "") repo_data))
                "" eq_refl) as Hwords.
  fold (split_whitespace
          (py_str (dict_get_default "target" (PyStr "") repo_data))) in Hwords.
  destruct (split_whitespace _) as [| p0 [| p1 [| p2 parts]]];
    cbn [length nth fst snd forallb] in *.
  - intros [= <-]. now split.
  - intros [= <-]. cbn [branch remote].
    now apply andb_true_iff in Hwords as [-> _].
  - apply andb_true_iff in Hwords as [H0 [H1 _]%andb_true_iff].
    destruct (negb _); [discriminate |]. intros [= <-]. now split.
  - discriminate.
Qed.

Lemma get_repo_target_in_words k directory repo_data forced skip s r s' :
  get_repo k directory repo_data forced skip s = (Ok r, s') ->
  target_in_words r = true.
Proof.
  unfold get_repo. intros Hrun.
  apply bind_ok_inv in Hrun as (d & s1 & _ & Hrun).
  apply bind_ok_inv in Hrun as (rd & s2 & _ & Hrun).
  apply bind_ok_inv in Hrun as ([rs remote_names] & s3 & _ & Hrun).
  apply bind_ok_inv in Hrun as (found & s4 & _ & Hrun).
  apply bind_ok_inv in Hrun as (scope & s5 & _ & Hrun).
  apply bind_ok_inv in Hrun as (destination & s6 & [Htarget _]%lift_inv & Hrun).
  apply ret_inv in Hrun as [[= ->] _].
  apply resolve_target_in_words in Htarget as [Hbranch Hremote].
  unfold target_in_words. cbn [target]. rewrite Hbranch.
  now destruct (remote destination) as [remote_name |].
Qed.

(** X4: in every record [get_repos] returns, the branch of the target is
    a word, not empty and without white space, and so is the remote of
    the target when it has one. *)
Theorem get_repos_target_in_words (config : dict)
    (forced skip_merge_check : bool) (w : world) (found : list repo_dict)
    (s' : state world) :
  get_repos config forced skip_merge_check w = (Ok found, s') ->
  Forall (fun r => target_in_words r = true) found.
Proof.
  unfold get_repos. intros Hrun.
  apply get_repos_loop_ok in Hrun as (new & -> & Hnew). cbn [app].
  induction Hnew as [| item r items new (k & s1 & s2 & Hr) _ IH];
    constructor; [| exact IH].
  eapply get_repo_target_in_words, Hr.
Qed.

Lemma resolve_target_reads directory remote_names (fields : dict) destination :
  resolve_target directory remote_names fields = Ok destination ->
  let parts :=
    split_whitespace (py_str (dict_get_default "target" (PyStr "") fields)) in
  match remote destination with
  | Some remote_name => parts = [remote_name; branch destination]
  | None =>
      parts = [branch destination]
      \/ (parts = [] /\ branch destination = "_git_aggregated")
  end.
Proof.
  unfold resolve_target.
  destruct (split_whitespace _) as [| a [| b [| c rest]]];
    cbn [length nth result_bind fst snd]; try discriminate.
  - intros [= <-]. cbn [remote branch]. now right.
  - intros [= <-]. cbn [remote branch]. now left.
  - destruct (negb (set_mem (PyStr a) remote_names)); [discriminate |].
    now intros [= <-].
Qed.

Lemma get_repo_target_reads k directory repo_data forced skip s r s' :
  get_repo k directory repo_data forced skip s = (Ok r, s') ->
  target_reads (directory, repo_data) r.
Proof.
  unfold get_repo. intros Hrun.
  apply bind_ok_inv in Hrun as (d & s1 & _ & Hrun).
  apply bind_ok_inv in Hrun as (fields & s2 & [Hfields _]%lift_inv & Hrun).
  apply bind_ok_inv in Hrun as ([rs remote_names] & s3 & _ & Hrun).
  apply bind_ok_inv in Hrun as (found & s4 & _ & Hrun).
  apply bind_ok_inv in Hrun as (scope & s5 & _ & Hrun).
  apply bind_ok_inv in Hrun as (destination & s6 & [Htarget _]%lift_inv & Hrun).
  apply ret_inv in Hrun as [[= ->] _].
  destruct repo_data as [| b | z | text | xs | kvs]; try discriminate.
  injection Hfields as <-.
  exists kvs. split; [reflexivity |]. cbn [target].
  now apply resolve_target_reads in Htarget.
Qed.

(** X5: the target of a record reads as it was configured.  The words
    of the configured value, taken as a text, are the remote and the
    branch of the target when there are two, the branch alone when there
    is one; with no word, or no [target] at all, the branch is
    [_git_aggregated] and there is no remote. *)
Theorem get_repos_target_reads (config : dict)
    (forced skip_merge_check : bool) (w : world) (found : list repo_dict)
    (s' : state world) :
  get_repos config forced skip_merge_check w = (Ok found, s') ->
  Forall2 target_reads config found.
Proof.
  unfold get_repos. intros Hrun.
  apply get_repos_loop_ok in Hrun as (new & -> & Hnew). cbn [app].
  eapply Forall2_impl; [exact Hnew |].
  intros [directory repo_data] r (k & s1 & s2 & Hr). cbn [fst snd] in Hr.
  now apply get_repo_target_reads in Hr.
Qed.

End Target.

(** ** A merge written as a text *)

Section MergeText.

Context {world : Type} {runtime : Runtime world}.

Lemma split_not_empty (sep : ascii) (s : string) : split sep s <> [].
Proof.
  destruct s as [| c s]; cbn [split]; [discriminate |].
  destruct (Ascii.eqb c sep); [discriminate |].
  now destruct (split sep s).
Qed.

Lemma length_split (sep : ascii) (s : string) :
  length (split sep s) = S (count_char sep s).
Proof.
  induction s as [| c s IH]; [reflexivity |].
  cbn [split count_char]. destruct (Ascii.eqb c sep).
  - cbn [length]. now rewrite IH.
  - pose proof (split_not_empty sep s) as Hne.
    destruct (split sep s) as [| w ws]; [now destruct Hne |].
    cbn [length] in IH |- *. now rewrite IH.
Qed.

Lemma join_cons (sep : string) (w w' : string) (ws : list string) :
  join sep (w :: w' :: ws) = w +:+ sep +:+ join sep (w' :: ws).
Proof. reflexivity. Qed.

(** Joining the pieces with the separator gives the text back. *)
Lemma join_split (sep : ascii) (s : string) :
  join (String sep EmptyString) (split sep s) = s.
Proof.
  induction s as [| c s IH]; [reflexivity |].
  pose proof (split_not_empty sep s) as Hne.
  cbn [split]. destruct (Ascii.eqb c sep) eqn:Hc.
  - apply Ascii.eqb_eq in Hc as ->.
    destruct (split sep s) as [| w ws]; [now destruct Hne |].
    rewrite join_cons, IH. reflexivity.
  - destruct (split sep s) as [| w [| w' ws]]; [now destruct Hne | |].
    + cbn [join] in IH |- *. now rewrite IH.
    + rewrite join_cons in IH. rewrite join_cons, <- IH. reflexivity.
Qed.

(** No piece holds the separator. *)
Lemma split_pieces (sep : ascii) (s : string) :
  Forall (fun piece => count_char sep piece = 0) (split sep s).
Proof.
  induction s as [| c s IH]; [now repeat constructor |].
  pose proof (split_not_empty sep s) as Hne.
  cbn [split]. destruct (Ascii.eqb c sep) eqn:Hc.
  - now constructor.
  - destruct (split sep s) as [| w ws]; [now destruct Hne |].
    inversion IH as [| ? ? Hw Hws]; subst.
    constructor; [| exact Hws]. cbn [count_char]. now rewrite Hc, Hw.
Qed.

(** X6: a merge written as a text is accepted when the text has exactly
    one space, and then it reads [remote ref]: the two fields, neither
    with a space in it, joined by the space give the text back.  With no
    space or more than one, it is a configuration error.  Nothing is
    asked of any working copy and the mapping is not written to. *)
Theorem merge_text_has_one_space (k i : nat) (directory text : string)
    (s : state world) :
  (count_char " " text = 1 ->
   exists remote_name ref,
     parse_merge k i directory (PyStr text) s
     = (Ok (PyDict [(PyStr "remote", PyStr remote_name);
                    (PyStr "ref", PyStr ref)]), s)
     /\ text = remote_name +:+ " " +:+ ref
     /\ count_char " " remote_name = 0
     /\ count_char " " ref = 0)
  /\ (count_char " " text <> 1 ->
      parse_merge k i directory (PyStr text) s
      = (Raise (ConfigException
                  (directory +:+ ": Merge must be formatted as "
                     +:+ dquote +:+ "remote_name ref" +:+ dquote +:+ ".")),
         s)).
Proof.
  rewrite parse_merge_run. cbn [parse_outcome fst snd].
  assert (Hsame : written k i [] s = s) by now destruct s.
  rewrite Hsame, length_split.
  pose proof (join_split " " text) as Hjoin.
  pose proof (split_pieces " " text) as Hpieces.
  pose proof (length_split " " text) as Hlength.
  split.
  - intros Hone. rewrite Hone in *. cbn [Nat.eqb].
    destruct (split " " text) as [| p0 [| p1 [| p2 parts]]]; try discriminate.
    exists p0, p1. cbn [nth].
    inversion Hpieces as [| ? ? H0 Hrest]; subst.
    inversion Hrest as [| ? ? H1 _]; subst.
    now repeat split.
  - intros Hmany.
    destruct (Nat.eqb (S (count_char " " text)) 2) eqn:Htwo; [| reflexivity].
    apply Nat.eqb_eq in Htwo. lia.
Qed.

End MergeText.

(** ** What resolves *)

Section Accepted.

Context {world : Type} {runtime : Runtime world}.

Lemma remotes_loop_urls directory items :
  forall acc names found,
    remotes_loop directory items acc names = Ok found ->
    forallb (fun kv => py_bool (snd kv)) items = true.
Proof.
  induction items as [| [remote_name remote_url] items IH];
    intros acc names found; [reflexivity |].
  cbn [remotes_loop forallb snd].
  destruct (py_bool remote_url); cbn [negb]; [| discriminate].
  apply IH.
Qed.

Lemma configured_remotes_accepted directory v found :
  configured_remotes directory v = Ok found -> remotes_accepted v = true.
Proof.
  unfold configured_remotes, result_bind, py_or.
  destruct (py_bool v) eqn:Hv.
  - destruct v as [| b | z | text | xs | kvs]; try discriminate.
    cbn [py_items remotes_accepted]. rewrite Hv.
    destruct (remotes_loop directory kvs [] []) eqn:Hloop; [| discriminate].
    intros _. now rewrite (remotes_loop_urls _ _ _ _ _ Hloop).
  - cbn. discriminate.
Qed.

Lemma parse_outcome_accepted directory merge0 merge :
  snd (parse_outcome directory merge0) = Ok merge ->
  merge_accepted merge0 = true.
Proof.
  destruct merge0 as [| b | z | text | xs | fields]; try discriminate;
    cbn [parse_outcome snd merge_accepted].
  - rewrite length_split. cbn [Nat.eqb].
    now destruct (Nat.eqb (count_char " " text) 1).
  - unfold dict_has.
    destruct (dict_get "remote" fields) as [r |]; [| discriminate].
    rewrite dict_get_set_other by reflexivity.
    now destruct (dict_get "ref" fields).
Qed.

Lemma merges_loop_accepted k directory remote_names skip tmp_repo merge_data :
  forall i acc s found s',
    merges_loop k i directory remote_names skip tmp_repo merge_data acc s
      = (Ok found, s') ->
    forallb merge_accepted merge_data = true.
Proof.
  induction merge_data as [| merge0 merge_data IH];
    intros i acc s found s' Hrun; [reflexivity |].
  cbn [merges_loop] in Hrun.
  apply bind_ok_inv in Hrun as (kept & s1 & Hkept & Hrun).
  cbn [forallb]. rewrite (IH _ _ _ _ _ Hrun), andb_true_r.
  unfold resolve_merge in Hkept.
  apply bind_ok_inv in Hkept as (merge1 & s2 & Hparse & _).
  rewrite parse_merge_run in Hparse. injection Hparse as Hparse _.
  eapply parse_outcome_accepted, Hparse.
Qed.

Lemma resolve_merges_accepted k directory rs remote_names skip fields s found s' :
  resolve_merges k directory rs remote_names skip fields s = (Ok found, s') ->
  match dict_get "merges" fields with
  | Some v => merges_accepted v = true
  | None => False
  end.
Proof.
  unfold resolve_merges, dict_has, dict_get_default.
  destruct (dict_get "merges" fields) as [v |];
    [| intros Hrun; now apply raise_inv in Hrun as [[=] _]].
  intros Hrun.
  apply bind_ok_inv in Hrun as (tmp_repo & s1 & _ & Hrun).
  apply bind_ok_inv in Hrun as (entries & s2 & [Hiter _]%lift_inv & Hrun).
  apply bind_ok_inv in Hrun as (merges0 & s3 & Hloop & Hrun).
  destruct merges0 as [| m merges0];
    [now apply raise_inv in Hrun as [[=] _] |].
  pose proof (merges_loop_accepted _ _ _ _ _ _ _ _ _ _ _ Hloop) as Hall.
  unfold merges_accepted, py_or in *.
  destruct (py_bool v).
  - destruct v; try discriminate; now injection Hiter as <-.
  - injection Hiter as <-. now apply ret_inv in Hloop as [[=] _].
Qed.

Lemma frozenset_hashable xs :
  forall members found,
    frozenset xs members = Ok found -> forallb hashable xs = true.
Proof.
  induction xs as [| x xs IH]; intros members found; [reflexivity |].
  cbn [frozenset forallb]. destruct (hashable x); [apply IH | discriminate].
Qed.

Lemma get_repo_accepted k directory repo_data forced skip s r s' :
  get_repo k directory repo_data forced skip s = (Ok r, s') ->
  entry_accepted (directory, repo_data) = true.
Proof.
  unfold get_repo. intros Hrun.
  apply bind_ok_inv in Hrun as (d & s1 & [Hd _]%lift_inv & Hrun).
  apply bind_ok_inv in Hrun as (fields & s2 & [Hfields _]%lift_inv & Hrun).
  apply bind_ok_inv in Hrun as ([rs remote_names] & s3 & Hremotes & Hrun).
  apply bind_ok_inv in Hrun as (found & s4 & Hmerges & Hrun).
  apply bind_ok_inv in Hrun as (scope & s5 & [Hscope _]%lift_inv & Hrun).
  apply bind_ok_inv in Hrun as (destination & s6 & [Htarget _]%lift_inv & _).
  destruct directory as [| b | z | D | xs | kvs]; try discriminate.
  destruct repo_data as [| b | z | text | xs | kvs]; try discriminate.
  injection Hfields as <-. cbn [entry_accepted].
  apply resolve_merges_accepted in Hmerges.
  destruct (dict_get "merges" kvs) as [v |]; [| now destruct Hmerges].
  rewrite Hmerges. cbn [andb].
  assert (Hr : shaped_at "remotes" remotes_accepted kvs = true).
  { unfold shaped_at, dict_has, dict_get_default in *.
    destruct (dict_get "remotes" kvs) as [v' |]; [| reflexivity].
    apply lift_inv in Hremotes as [Hremotes _].
    eapply configured_remotes_accepted, Hremotes. }
  assert (Ht : target_accepted kvs = true).
  { unfold resolve_target, result_bind in Htarget. unfold target_accepted.
    destruct (length _) as [| [| [| n]]]; try reflexivity. discriminate. }
  assert (Hf : shaped_at "fetch_all" fetch_all_shaped kvs = true).
  { unfold shaped_at, dict_get_default in *.
    destruct (dict_get "fetch_all" kvs) as [v' |]; [| reflexivity].
    destruct v'; try reflexivity.
    unfold normalize_fetch_all, result_bind in Hscope. cbn [fetch_all_shaped].
    destruct (frozenset xs []) eqn:Hxs; [| discriminate].
    eapply frozenset_hashable, Hxs. }
  now rewrite Hr, Ht, Hf.
Qed.

(** X7: [get_repos] returns a list only for a configuration in which
    every directory is a text key with a mapping that has a [merges]
    value, not empty, whose entries are texts with exactly one space or
    mappings with both [remote] and [ref]; whose [remotes], if given, is
    a mapping, not empty, with a url for every name; whose target has
    two words at most; and whose [fetch_all], if a list, holds values
    that hash.  Any other configuration ends in an exception. *)
Theorem get_repos_accepts (config : dict) (forced skip_merge_check : bool)
    (w : world) (found : list repo_dict) (s' : state world) :
  get_repos config forced skip_merge_check w = (Ok found, s') ->
  forallb entry_accepted config = true.
Proof.
  unfold get_repos. intros Hrun.
  apply get_repos_loop_ok in Hrun as (new & _ & Hnew).
  induction Hnew as [| [directory repo_data] r items new (k & s1 & s2 & Hr) _ IH];
    [reflexivity |].
  cbn [forallb]. rewrite IH, andb_true_r.
  eapply get_repo_accepted, Hr.
Qed.

End Accepted.

(** ** The remotes of a directory *)

Section Remotes.

Context {world : Type} {runtime : Runtime world}.

Lemma remotes_loop_items directory items :
  forall acc names rs names',
    remotes_loop directory items acc names = Ok (rs, names') ->
    rs = acc ++ map remote_of items.
Proof.
  induction items as [| [remote_name remote_url] items IH];
    intros acc names rs names'; cbn [remotes_loop map].
  - intros [= <- _]. now rewrite app_nil_r.
  - destruct (negb (py_bool remote_url)); [discriminate |].
    intros Hloop. apply IH in Hloop as ->. now rewrite <- app_assoc.
Qed.

Lemma discovered_loop_items items :
  forall acc names,
    fst (discovered_loop items acc names) = acc ++ map listed_remote items.
Proof.
  induction items as [| [remote_name remote_url] items IH]; intros acc names;
    cbn [discovered_loop map fst].
  - now rewrite app_nil_r.
  - now rewrite IH, <- app_assoc.
Qed.

(** X8: the remotes of a record are, in their order, the items of the
    [remotes] mapping of its directory when there is one, and otherwise
    the remotes the working copy of the directory lists. *)
Theorem get_repo_remotes (k : nat) (D : string) (fields : dict)
    (forced skip_merge_check : bool) (s : state world) (r : repo_dict)
    (s' : state world) :
  get_repo k (PyStr D) (PyDict fields) forced skip_merge_check s = (Ok r, s') ->
  match dict_get "remotes" fields with
  | Some v => exists kvs, v = PyDict kvs /\ remotes r = map remote_of kvs
  | None =>
      exists listed,
        _get_remotes (git s) (absolute D) = Returned listed
        /\ remotes r = map listed_remote listed
  end.
Proof.
  unfold get_repo. cbn [resolve_directory py_mapping]. fold (absolute D).
  intros Hrun.
  apply bind_ok_inv in Hrun as (d & s1 & [[= <-] ->]%lift_inv & Hrun).
  apply bind_ok_inv in Hrun as (rd & s2 & [[= <-] ->]%lift_inv & Hrun).
  apply bind_ok_inv in Hrun as ([rs remote_names] & s3 & Hremotes & Hrun).
  apply bind_ok_inv in Hrun as (found & s4 & _ & Hrun).
  apply bind_ok_inv in Hrun as (scope & s5 & _ & Hrun).
  apply bind_ok_inv in Hrun as (destination & s6 & _ & Hrun).
  apply ret_inv in Hrun as [[= ->] _]. cbn [remotes].
  unfold dict_has, dict_get_default in Hremotes.
  destruct (dict_get "remotes" fields) as [v |].
  - apply lift_inv in Hremotes as [Hremotes _].
    pose proof (configured_remotes_accepted _ _ _ Hremotes) as Hv.
    destruct v as [| b | z | text | xs | kvs]; try discriminate.
    exists kvs. split; [reflexivity |].
    unfold configured_remotes, result_bind, py_or in Hremotes.
    cbn [remotes_accepted] in Hv. apply andb_true_iff in Hv as [Hbool _].
    rewrite Hbool in Hremotes. cbn [py_items] in Hremotes.
    destruct (remotes_loop (absolute D) kvs [] []) as [[rs' names] |] eqn:Hloop;
      [| discriminate].
    apply remotes_loop_items in Hloop as ->.
    cbn [snd] in Hremotes. now destruct names; [| injection Hremotes as <- _].
  - unfold discovered_remotes in Hremotes.
    destruct (_get_remotes (git s) (absolute D)) as [listed |];
      [| discriminate].
    exists listed. split; [reflexivity |].
    injection Hremotes as Hfound _.
    pose proof (discovered_loop_items listed [] []) as Hitems.
    now rewrite Hfound in Hitems.
Qed.

(** X9: the remotes of a directory are looked at first, and what is
    wrong with them is what [get_repos] reports, whatever the merges and
    the target of the directory are.  A [remotes] that is empty or null
    is an error; so is a remote without a url, and the first of them in
    the mapping is the one named; and so is a directory with no
    [remotes] key whose working copy cannot list its remotes.  In the
    first two cases nothing was asked of any working copy. *)
Theorem get_repo_remotes_errors (k : nat) (D : string) (fields : dict)
    (forced skip_merge_check : bool) (s : state world) :
  (forall v,
      dict_get "remotes" fields = Some v -> py_bool v = false ->
      get_repo k (PyStr D) (PyDict fields) forced skip_merge_check s
      = (Raise (ConfigException
                  (absolute D +:+ ": You should at least define one remote.")),
         s))
  /\ (forall good remote_name remote_url rest,
         dict_get "remotes" fields
         = Some (PyDict (good ++ (remote_name, remote_url) :: rest)) ->
         forallb (fun kv => py_bool (snd kv)) good = true ->
         py_bool remote_url = false ->
         get_repo k (PyStr D) (PyDict fields) forced skip_merge_check s
         = (Raise (ConfigException
                     (absolute D +:+ ": No url defined for remote "
                        +:+ py_str remote_name +:+ ".")),
            s))
  /\ (forall msg,
         dict_get "remotes" fields = None ->
         _get_remotes (git s) (absolute D) = Failed msg ->
         get_repo k (PyStr D) (PyDict fields) forced skip_merge_check s
         = (Raise (ConfigException (absolute D +:+ ": remotes is not defined.")),
            record (GetRemotes (absolute D)) s)).
Proof.
  assert (Hloop : forall good remote_name remote_url rest acc names,
             forallb (fun kv => py_bool (snd kv)) good = true ->
             py_bool remote_url = false ->
             remotes_loop (absolute D)
               (good ++ (remote_name, remote_url) :: rest) acc names
             = Raise (ConfigException
                        (absolute D +:+ ": No url defined for remote "
                           +:+ py_str remote_name +:+ "."))).
  { induction good as [| [n u] good IH];
      intros remote_name remote_url rest acc names Hgood Hurl;
      cbn [app remotes_loop].
    - now rewrite Hurl.
    - cbn [forallb snd] in Hgood. apply andb_true_iff in Hgood as [-> Hgood].
      cbn [negb]. now apply IH. }
  unfold get_repo. cbn [resolve_directory py_mapping]. fold (absolute D).
  rewrite !bind_lift_ok. unfold dict_has, dict_get_default. repeat split.
  - intros v Hv Hfalse. rewrite Hv.
    unfold bind, lift, configured_remotes, result_bind, py_or.
    now rewrite Hfalse.
  - intros good remote_name remote_url rest Hv Hgood Hurl. rewrite Hv.
    unfold bind, lift, configured_remotes, result_bind, py_or.
    destruct (py_bool (PyDict (good ++ (remote_name, remote_url) :: rest)))
      eqn:Hbool; [| now destruct good].
    cbn [py_items]. now rewrite Hloop.
  - intros msg Hv Hfailed. rewrite Hv.
    unfold bind, lift, discovered_remotes. now rewrite Hfailed.
Qed.

End Remotes.

(** ** When the merge check drops every merge *)

Section Dropped.

Context {world : Type} {runtime : Runtime world}.

Lemma parse_outcome_asked (directory : string) (merge0 merge : pyval) :
  snd (parse_outcome directory merge0) = Ok merge ->
  exists remote_name ref,
    getitem merge "remote" = Ok (PyStr remote_name)
    /\ getitem merge "ref" = Ok (PyStr ref)
    /\ asked_ref merge0 = Some ref.
Proof.
  destruct merge0 as [| b | z | text | xs | fields]; try discriminate;
    cbn [parse_outcome snd asked_ref].
  - destruct (Nat.eqb _ 2); [| discriminate]. intros [= <-].
    eexists _, _. repeat split; reflexivity.
  - destruct (dict_get "remote" fields) as [r |]; [| discriminate].
    destruct (dict_get "ref" _) as [f |] eqn:Hf; [| discriminate].
    rewrite dict_get_set_other in Hf by reflexivity. rewrite Hf.
    cbn [snd]. intros [= <-]. exists (py_str r), (py_str f).
    unfold getitem.
    rewrite dict_get_set_same, dict_get_set_other, dict_get_set_same; auto.
Qed.

Lemma resolve_merge_dropped k i directory remote_names repo merge0 s kept s' :
  nothing_found ->
  no_hash_asked merge0 = true ->
  resolve_merge k i directory remote_names false (Some repo) merge0 s
    = (Ok kept, s') ->
  kept = None.
Proof.
  intros Hquery Hhex. unfold resolve_merge. intros Hrun.
  apply bind_ok_inv in Hrun as (merge1 & s1 & Hparse & Hrun).
  rewrite parse_merge_run in Hparse. injection Hparse as Hparse _.
  apply parse_outcome_asked in Hparse
    as (remote_name & ref & Hremote & Href & Hasked).
  unfold no_hash_asked in Hhex. rewrite Hasked in Hhex.
  apply bind_ok_inv in Hrun as (v & s2 & _ & Hrun).
  destruct (negb (set_mem v remote_names));
    [now apply raise_inv in Hrun as [[=] _] |].
  cbn [negb andb repo_bool] in Hrun.
  apply bind_ok_inv in Hrun as (dropped & s3 & Hcheck & Hrun).
  assert (dropped = true) as ->.
  { revert Hcheck.
    unfold check_ref, try_except, bind, lift, call_query_remote_ref, log_warning,
      ret.
    cbn [bound_repo]. rewrite Hremote, Href.
    destruct (Hquery (git s2) (repo_cwd repo) (py_str (PyStr remote_name))
                (py_str (PyStr ref))) as [sha ->].
    cbn [py_str]. rewrite Hhex. now intros [= <- _]. }
  now apply ret_inv in Hrun as [[= <-] _].
Qed.

Lemma merges_loop_dropped k directory remote_names repo merge_data :
  nothing_found ->
  forallb no_hash_asked merge_data = true ->
  forall i acc s found s',
    merges_loop k i directory remote_names false (Some repo) merge_data acc s
      = (Ok found, s') ->
    found = acc.
Proof.
  intros Hnothing.
  induction merge_data as [| merge0 merge_data IH];
    intros Hhex i acc s found s' Hrun.
  - now apply ret_inv in Hrun as [[= <-] _].
  - cbn [merges_loop] in Hrun. cbn [forallb] in Hhex.
    apply andb_prop in Hhex as [Hhex Hrest].
    apply bind_ok_inv in Hrun as (kept & s1 & Hkept & Hrun).
    apply (resolve_merge_dropped _ _ _ _ _ _ _ _ _ Hnothing Hhex) in Hkept as ->.
    eapply IH, Hrun. exact Hrest.
Qed.

Lemma get_repo_dropped k directory repo_data forced s r s' :
  nothing_found ->
  no_hash (directory, repo_data) = true ->
  get_repo k directory repo_data forced false s <> (Ok r, s').
Proof.
  intros Hnothing Hhex Hrun. unfold get_repo in Hrun.
  apply bind_ok_inv in Hrun as (d & s1 & _ & Hrun).
  apply bind_ok_inv in Hrun as (fields & s2 & Hfields & Hrun).
  apply lift_inv in Hfields as [Hfields _].
  destruct repo_data as [| b | z | text | xs | kvs]; try discriminate.
  injection Hfields as ->.
  apply bind_ok_inv in Hrun as ([rs remote_names] & s3 & _ & Hrun).
  apply bind_ok_inv in Hrun as (found & s4 & Hmerges & _).
  unfold resolve_merges in Hmerges.
  destruct (dict_has "merges" fields);
    [| now apply raise_inv in Hmerges as [[=] _]].
  apply bind_ok_inv in Hmerges as (tmp_repo & s5 & Hopen & Hmerges).
  apply open_repo_handle in Hopen as ->.
  apply bind_ok_inv in Hmerges as (entries & s6 & Hentries & Hmerges).
  apply lift_inv in Hentries as [Hentries _].
  unfold no_hash in Hhex. cbn [snd] in Hhex. rewrite Hentries in Hhex.
  apply bind_ok_inv in Hmerges as (merges0 & s7 & Hloop & Hmerges).
  apply (merges_loop_dropped _ _ _ _ _ Hnothing Hhex) in Hloop as ->.
  now apply raise_inv in Hmerges as [[=] _].
Qed.

(** X10: a directory left with no merge is an error, not a record with
    an empty list.  When the merge check is on, no remote has the ref
    asked of it and no merge asks for a ref that looks like a hash, every
    merge is dropped and [get_repos] raises on any configuration that
    has a directory; on a configuration of the expected shape, when
    setting a remote never fails, what it raises is a configuration
    error. *)
Theorem get_repos_nothing_found (config : dict) (forced : bool) (w : world) :
  nothing_found ->
  forallb no_hash config = true ->
  config <> [] ->
  exists e,
    fst (get_repos config forced false w) = Raise e
    /\ (well_shaped config = true -> set_remote_works ->
        exists msg, e = ConfigException msg).
Proof.
  intros Hnothing Hhex Hconfig. unfold get_repos.
  destruct (get_repos_loop 0 config forced false [] (enter config w))
    as [[found | e] s'] eqn:Hrun.
  - apply get_repos_loop_ok in Hrun as (new & _ & Hnew).
    destruct Hnew as [| [directory repo_data] r items new' (k & s1 & s2 & Hr) _];
      [now destruct Hconfig |].
    cbn [forallb] in Hhex. apply andb_prop in Hhex as [Hhex _].
    now apply get_repo_dropped in Hr.
  - exists e. split; [reflexivity |]. intros Hshape Hworks.
    apply get_repos_loop_raise in Hrun
      as ([directory repo_data] & k & s & Hin & Hrun).
    cbn [fst snd] in Hrun.
    unfold well_shaped in Hshape. rewrite forallb_forall in Hshape.
    specialize (Hshape _ Hin).
    destruct directory as [| b | z | D | xs | kvs]; try discriminate.
    apply (get_repo_raises true) in Hrun; [| intros _; auto].
    destruct e; try discriminate. eauto.
Qed.

End Dropped.

(** ** Resolving what a call left *)

Section Again.

Context {world : Type} {runtime : Runtime world}.

Lemma same_run_blind {A : Type} (m : M world A) : blind m -> same_run m m.
Proof. intros Hm. exact Hm. Qed.

Lemma same_run_bind {A B : Type} (m m' : M world A) (f f' : A -> M world B) :
  same_run m m' -> (forall a, same_run (f a) (f' a)) ->
  same_run (bind m f) (bind m' f').
Proof.
  intros Hm Hf s t Hst. unfold bind. destruct (Hm s t Hst) as [Hr Hst'].
  destruct (m s) as [[a | e] s1], (m' t) as [[a' | e'] t1]; cbn [fst snd] in *;
    try discriminate.
  - injection Hr as <-. now apply Hf.
  - injection Hr as <-. now split.
Qed.

Lemma same_run_bind_ok {A B : Type} (a a' : A) (f f' : A -> M world B) :
  same_run (f a) (f' a') ->
  same_run (bind (@lift world A (Ok a)) f) (bind (@lift world A (Ok a')) f').
Proof. intros Hf s t Hst. now apply Hf. Qed.

(** An entry and the entry rewritten parse to the same thing. *)
Lemma parse_outcome_rewritten directory merge merge' :
  merge_rewritten merge merge' ->
  snd (parse_outcome directory merge') = snd (parse_outcome directory merge).
Proof.
  intros [-> | (fields & -> & ->)]; [reflexivity |].
  cbn [parse_outcome]. unfold coerced.
  destruct (dict_get "remote" fields) as [r |] eqn:Hremote.
  - set (fields1 := dict_set "remote" (PyStr (py_str r)) fields).
    assert (Hremote1 : dict_get "remote" fields1 = Some (PyStr (py_str r)))
      by apply dict_get_set_same.
    destruct (dict_get "ref" fields1) as [f |] eqn:Href.
    + set (fields2 := dict_set "ref" (PyStr (py_str f)) fields1).
      assert (Hremote2 : dict_get "remote" fields2 = Some (PyStr (py_str r)))
        by (unfold fields2; now rewrite dict_get_set_other).
      rewrite Hremote2. cbn [py_str].
      rewrite (dict_set_same "remote" _ fields2 Hremote2).
      unfold fields2 at 1. rewrite dict_get_set_same. cbn [py_str snd].
      fold fields2. now rewrite dict_set_same by apply dict_get_set_same.
    + rewrite Hremote1. cbn [py_str].
      rewrite (dict_set_same "remote" _ fields1 Hremote1). now rewrite Href.
  - destruct (dict_get "ref" fields) as [f |] eqn:Href; [| now rewrite Hremote].
    now rewrite dict_get_set_other, Hremote.
Qed.

Lemma parse_merge_same_run k i directory merge merge' :
  merge_rewritten merge merge' ->
  same_run (parse_merge k i directory merge) (parse_merge k i directory merge').
Proof.
  intros Hmerge s t Hst. rewrite !parse_merge_run. cbn [fst snd]. split.
  - symmetry. now apply parse_outcome_rewritten.
  - exact Hst.
Qed.

Lemma resolve_merge_same_run k i directory remote_names skip tmp_repo
    merge merge' :
  merge_rewritten merge merge' ->
  same_run (resolve_merge k i directory remote_names skip tmp_repo merge)
           (resolve_merge k i directory remote_names skip tmp_repo merge').
Proof.
  intros Hmerge. unfold resolve_merge.
  apply same_run_bind; [now apply parse_merge_same_run |].
  intros merge1. apply same_run_blind. blind_steps.
Qed.

Lemma merges_loop_same_run k directory remote_names skip tmp_repo
    merge_data merge_data' :
  Forall2 merge_rewritten merge_data merge_data' ->
  forall i acc,
    same_run
      (merges_loop k i directory remote_names skip tmp_repo merge_data acc)
      (merges_loop k i directory remote_names skip tmp_repo merge_data' acc).
Proof.
  induction 1 as [| merge merge' merge_data merge_data' Hmerge _ IH];
    intros i acc; cbn [merges_loop].
  - apply same_run_blind, blind_ret.
  - apply same_run_bind; [now apply resolve_merge_same_run | intros kept; apply IH].
Qed.

Lemma py_iter_list merge_data :
  py_iter (py_or (PyList merge_data) (PyList [])) = Ok merge_data.
Proof. now destruct merge_data. Qed.

Lemma dict_get_default_set_other key key' default v fields :
  String.eqb key key' = false ->
  dict_get_default key default (dict_set key' v fields)
  = dict_get_default key default fields.
Proof. intros Hne. unfold dict_get_default. now rewrite dict_get_set_other. Qed.

Lemma get_repo_same_run k forced skip item item' :
  entry_rewritten item item' ->
  same_run (get_repo k (fst item) (snd item) forced skip)
           (get_repo k (fst item') (snd item') forced skip).
Proof.
  destruct item as [directory repo_data], item' as [directory' repo_data'].
  unfold entry_rewritten. cbn [fst snd].
  intros [-> [-> | (fields & l & l' & -> & Hget & -> & Hl)]];
    [apply same_run_blind, blind_get_repo |].
  set (fields' := dict_set "merges" (PyList l') fields).
  assert (Hget' : dict_get "merges" fields' = Some (PyList l'))
    by apply dict_get_set_same.
  unfold get_repo. cbn [py_mapping].
  apply same_run_bind; [apply same_run_blind, blind_lift | intros d].
  apply same_run_bind_ok.
  unfold dict_has. unfold fields' at 1 2.
  rewrite dict_get_set_other, dict_get_default_set_other by reflexivity.
  apply same_run_bind.
  { apply same_run_blind. blind_steps. }
  intros [rs remote_names]. apply same_run_bind.
  { unfold resolve_merges, dict_has, dict_get_default.
    rewrite Hget, Hget', !py_iter_list.
    apply same_run_bind; [apply same_run_blind, blind_open_repo | intros tmp_repo].
    apply same_run_bind_ok. apply same_run_bind.
    - now apply merges_loop_same_run.
    - intros found. apply same_run_blind. blind_steps. }
  intros found. unfold fields' at 1.
  rewrite dict_get_default_set_other by reflexivity.
  apply same_run_bind; [apply same_run_blind, blind_lift | intros scope].
  assert (Htarget : resolve_target d remote_names fields'
                    = resolve_target d remote_names fields).
  { unfold resolve_target, fields'.
    now rewrite dict_get_default_set_other by reflexivity. }
  rewrite Htarget.
  apply same_run_bind; [apply same_run_blind, blind_lift | intros destination].
  assert (Hcommands : resolve_commands fields' = resolve_commands fields).
  { unfold resolve_commands, fields'.
    now rewrite dict_get_set_other by reflexivity. }
  rewrite Hcommands. unfold fields'.
  rewrite !dict_get_default_set_other by reflexivity.
  apply same_run_blind, blind_ret.
Qed.

Lemma get_repos_loop_same_run forced skip (items items' : dict) :
  config_rewritten items items' ->
  forall k repo_list,
    same_run (get_repos_loop k items forced skip repo_list)
             (get_repos_loop k items' forced skip repo_list).
Proof.
  induction 1 as [| [directory repo_data] [directory' repo_data'] items items'
                    Hitem _ IH];
    intros k repo_list; cbn [get_repos_loop].
  - apply same_run_blind, blind_ret.
  - apply same_run_bind; [| intros r; apply IH].
    apply (get_repo_same_run k forced skip _ _ Hitem).
Qed.

(** X11: replacing, in merge entries given as mappings, the remote and the
    ref by their text changes nothing to what [get_repos] does: on the
    mapping and on the mapping so rewritten, from the same world, it
    returns the same list or raises the same exception, after the same
    calls and the same warnings. *)
Theorem get_repos_on_rewritten (config config' : dict)
    (forced skip_merge_check : bool) (w : world) :
  config_rewritten config config' ->
  fst (get_repos config' forced skip_merge_check w)
  = fst (get_repos config forced skip_merge_check w)
  /\ same_effects (snd (get_repos config' forced skip_merge_check w))
                  (snd (get_repos config forced skip_merge_check w)).
Proof.
  intros Hconfig. unfold get_repos.
  destruct (get_repos_loop_same_run forced skip_merge_check _ _ Hconfig 0 []
              (enter config w) (enter config' w)) as [Hresult Heffects];
    [now split |].
  split; [now symmetry |].
  destruct Heffects as (Hgit & Hcalls & Hwarnings). now repeat split.
Qed.

(** X12: without the merge check, calling [get_repos] again on the
    mapping as the first call left it, in the world as the first call
    left it, gives what the first call gave: the same list or the same
    exception, with the same calls made and nothing logged. *)
Theorem get_repos_twice (config : dict) (forced : bool) (w : world) :
  let first := get_repos config forced true w in
  let again :=
    get_repos (input (snd first)) forced true (git (snd first)) in
  fst again = fst first /\ same_effects (snd again) (snd first).
Proof.
  intros first again. subst again.
  assert (Hgit : git (snd first) = w).
  { subst first. unfold get_repos.
    destruct (get_repos_loop 0 config forced true [] (enter config w))
      as [r s'] eqn:Hrun.
    now apply get_repos_loop_lists_remotes_only in Hrun as (Hgit & _). }
  assert (Hconfig : config_rewritten config (input (snd first))).
  { subst first. unfold get_repos.
    destruct (get_repos_loop 0 config forced true [] (enter config w))
      as [r s'] eqn:Hrun.
    apply (get_repos_loop_rewrites _ _ _ []) in Hrun
      as (items' & Hitems' & Hinput'); [| reflexivity].
    cbn [snd]. now rewrite Hinput'. }
  rewrite Hgit. unfold get_repos.
  destruct (get_repos_loop_same_run forced true _ _ Hconfig 0 []
              (enter config w) (enter (input (snd first)) w))
    as [Hresult Heffects]; [now split |].
  fold (get_repos config forced true w) in Hresult, Heffects.
  fold first in Hresult, Heffects.
  split; [now symmetry |].
  destruct Heffects as (Hg & Hc & Hw). now repeat split.
Qed.

End Again.

(** ** The file of variables *)

Section EnvFile.

Lemma count_char_append (c : ascii) (a b : string) :
  count_char c (a +:+ b) = count_char c a + count_char c b.
Proof.
  induction a as [| c' a IH]; [reflexivity |].
  change (String c' a +:+ b) with (String c' (a +:+ b)).
  cbn [count_char]. rewrite IH. lia.
Qed.

Lemma no_space_append (a b : string) :
  no_space (a +:+ b) = no_space a && no_space b.
Proof.
  induction a as [| c a IH]; [reflexivity |].
  change (String c a +:+ b) with (String c (a +:+ b)).
  cbn [no_space]. now rewrite IH, andb_assoc.
Qed.

Lemma lstrip_no_space (s : string) : no_space s = true -> lstrip s = s.
Proof.
  destruct s as [| c s]; [reflexivity |]. cbn [no_space lstrip].
  now destruct (isspace c).
Qed.

Lemma rstrip_no_space (s : string) : no_space s = true -> rstrip s = s.
Proof.
  induction s as [| c s IH]; [reflexivity |]. cbn [no_space rstrip].
  intros [Hc Hs]%andb_true_iff. rewrite IH by assumption.
  destruct s; [| reflexivity]. now destruct (isspace c).
Qed.

Lemma strip_no_space (s : string) : no_space s = true -> strip s = s.
Proof.
  intros Hs. unfold strip. now rewrite rstrip_no_space, lstrip_no_space.
Qed.

Lemma split_whole (sep : ascii) (s : string) :
  count_char sep s = 0 -> split sep s = [s].
Proof.
  induction s as [| c s IH]; [reflexivity |]. cbn [count_char split].
  destruct (Ascii.eqb c sep); [discriminate |].
  intros Hs. now rewrite IH.
Qed.

Lemma split_at (sep : ascii) (a b : string) :
  count_char sep a = 0 ->
  split sep (a +:+ String sep b) = a :: split sep b.
Proof.
  induction a as [| c a IH].
  - intros _. change ("" +:+ String sep b) with (String sep b).
    cbn [split]. now rewrite Ascii.eqb_refl.
  - change (String c a +:+ String sep b) with (String c (a +:+ String sep b)).
    cbn [count_char split]. destruct (Ascii.eqb c sep); [discriminate |].
    intros Ha. now rewrite IH.
Qed.

Lemma env_line_skips environment line :
  assigns line = false -> env_line environment line = Got environment.
Proof.
  unfold assigns, env_line.
  destruct (startswith "#" (strip line)); [reflexivity |].
  cbn [negb andb]. now intros ->.
Qed.



Lemma env_lines_app (lines lines' : list string) :
  forall environment,
    env_lines (lines ++ lines') environment
    = attempt_bind (env_lines lines environment) (env_lines lines').
Proof.
  induction lines as [| line lines IH]; intros environment; [reflexivity |].
  cbn [app env_lines].
  destruct (env_line environment line) as [environment' | e]; cbn [attempt_bind];
    [apply IH | reflexivity].
Qed.


(** X13: comments and lines without a [=] do not count: reading the file
    and reading the lines of it that assign give the same variables, or
    end in the same exception. *)
Theorem env_lines_assigning (lines : list string)
    (environment : gmap string string) :
  env_lines (filter (fun line => assigns line = true) lines) environment
  = env_lines lines environment.
Proof.
  revert environment.
  induction lines as [| line lines IH]; intros environment; [reflexivity |].
  rewrite filter_cons. destruct (decide (assigns line = true)) as [Hline | Hline].
  - cbn [env_lines].
    destruct (env_line environment line); cbn [attempt_bind];
      [apply IH | reflexivity].
  - cbn [env_lines]. rewrite env_line_skips by now destruct (assigns line).
    cbn [attempt_bind]. apply IH.
Qed.

Lemma env_line_plain environment key value :
  plain key = true -> plain value = true -> startswith "#" key = false ->
  env_line environment (key +:+ "=" +:+ value)
  = Got (<[key := value]> environment).
Proof.
  unfold plain. intros [Hk Hk0]%andb_true_iff [Hv Hv0]%andb_true_iff Hcomment.
  apply Nat.eqb_eq in Hk0, Hv0.
  assert (Hline : no_space (key +:+ "=" +:+ value) = true).
  { rewrite no_space_append, Hk.
    change ("=" +:+ value) with (String "=" value). cbn [no_space].
    now rewrite Hv. }
  unfold env_line. rewrite (strip_no_space _ Hline).
  assert (Hstart : startswith "#" (key +:+ "=" +:+ value) = false).
  { destruct key as [| c key]; [reflexivity |].
    change (String c key +:+ "=" +:+ value)
      with (String c (key +:+ "=" +:+ value)).
    unfold startswith in *. cbn [String.prefix] in *.
    destruct (ascii_dec "#" c); [| reflexivity]. now destruct key. }
  rewrite Hstart. unfold has_char.
  change ("=" +:+ value) with (String "=" value).
  rewrite count_char_append. cbn [count_char]. rewrite Ascii.eqb_refl.
  replace (Nat.ltb 0 (count_char "=" key + (1 + count_char "=" value)))
    with true by (symmetry; apply Nat.ltb_lt; lia).
  rewrite split_at, split_whole by assumption.
  now rewrite !strip_no_space.
Qed.

End EnvFile.

(** ** Loading *)

Section Loaded.

Context {world : Type} {runtime : Runtime world} {loading : Loading world}.

(** X14: a line [name=value] written plainly at the end of the file of
    variables sets the name, over the lines before it; the variables of
    the process come over those of the file.  After it, the name stands
    for its value in the process if it has one, for [value] if not; any
    other name stands for what it stood for without the line. *)
Theorem load_environment_precedence (path : string) (w : world)
    (lines : list string) (key value : string)
    (environment : gmap string string) :
  isfile w path = true ->
  readlines w path = Got (lines ++ [key +:+ "=" +:+ value]) ->
  env_lines lines ∅ = Got environment ->
  plain key = true -> plain value = true -> startswith "#" key = false ->
  exists expanded,
    load_environment (Some path) w = Got expanded
    /\ expanded !! key = Some (default value (environ w !! key))
    /\ forall other,
        other <> key ->
        expanded !! other = (environ w ∪ environment) !! other.
Proof.
  intros Hfile Hlines Hread Hkey Hvalue Hcomment.
  exists (environ w ∪ <[key := value]> environment).
  unfold load_environment. rewrite Hfile, Hlines. cbn [attempt_bind].
  rewrite env_lines_app, Hread. cbn [attempt_bind env_lines].
  rewrite env_line_plain by assumption. cbn [attempt_bind].
  split; [reflexivity |]. split.
  - rewrite lookup_union, lookup_insert_eq.
    now destruct (environ w !! key).
  - intros other Hother.
    now rewrite !lookup_union, lookup_insert_ne.
Qed.


Lemma get_repos_invariants (config : dict) (forced skip : bool) (w : world)
    (found : list repo_dict) (s' : state world) :
  get_repos config forced skip w = (Ok found, s') ->
  Forall (fun r =>
            foreign_keys_hold r = true
            /\ record_complete r = true
            /\ target_in_words r = true) found.
Proof.
  unfold get_repos. intros Hrun.
  apply get_repos_loop_ok in Hrun as (new & -> & Hnew). cbn [app].
  induction Hnew as [| item r items new (k & s1 & s2 & Hr) _ IH];
    constructor; [| exact IH].
  repeat split.
  - eapply get_repo_foreign_keys, Hr.
  - eapply get_repo_complete, Hr.
  - eapply get_repo_target_in_words, Hr.
Qed.

(** X16: [load_config] returns a list only for a file that exists and is
    named [.yaml] or [.yml], and every record of the list keeps the
    invariants of the resolver: its merges and its target name remotes
    of the record, it has a remote and a merge at least, its merges have
    text fields and its target is made of words. *)
Theorem load_config_records (config : string) (expand_env : bool)
    (env_file : option string) (forced skip_merge_check : bool) (w : world)
    (found : list repo_dict) (s' : state world) :
  load_config config expand_env env_file forced skip_merge_check w
  = Got (Ok found, s') ->
  path_exists w config = true
  /\ (after_first (snd (splitext config)) = "yaml"
      \/ after_first (snd (splitext config)) = "yml")
  /\ Forall (fun r =>
               foreign_keys_hold r = true
               /\ record_complete r = true
               /\ target_in_words r = true) found.
Proof.
  unfold load_config.
  destruct (path_exists w config); cbn [negb]; [| discriminate].
  destruct (String.eqb (after_first (snd (splitext config))) "yaml") eqn:Hyaml;
    destruct (String.eqb (after_first (snd (splitext config))) "yml") eqn:Hyml;
    cbn [orb negb]; try discriminate;
    (intros Hload; split; [reflexivity |]; split;
     [first [left; now apply String.eqb_eq | right; now apply String.eqb_eq] |]).
  all: destruct (if expand_env then _ else _) as [text |];
    cbn [attempt_bind] in Hload; try discriminate.
  all: destruct (yaml_load text) as [conf |]; cbn [attempt_bind] in Hload;
    try discriminate.
  all: unfold resolve_document in Hload;
    destruct (py_or conf (PyDict [])) as [| b | z | t | xs | kvs];
    try discriminate; injection Hload as Hrun.
  all: eapply get_repos_invariants, Hrun.
Qed.

(** X17: a document that is no mapping.  When the file parses to nothing
    (null, or an empty mapping, list or text), [load_config] returns the
    empty list and asks nothing of any working copy; when it parses to a
    value that is true in a condition and is no mapping, a list or a
    text say, [load_config] raises an [AttributeError], which is no
    configuration error. *)
Theorem load_config_without_mapping (config text : string) (conf : pyval)
    (env_file : option string) (forced skip_merge_check : bool) (w : world) :
  path_exists w config = true ->
  after_first (snd (splitext config)) = "yaml"
  \/ after_first (snd (splitext config)) = "yml" ->
  read w config = Got text ->
  yaml_load text = Got conf ->
  (py_bool conf = false ->
   load_config config false env_file forced skip_merge_check w
   = Got (Ok [], enter [] w))
  /\ (py_bool conf = true -> is_mapping conf = false ->
      load_config config false env_file forced skip_merge_check w
      = GaveUp (Resolving AttributeError)).
Proof.
  intros Hexists Hext Hread Hparse. unfold load_config.
  rewrite Hexists, Hread. cbn [negb attempt_bind].
  rewrite Hparse. cbn [attempt_bind].
  assert (Hnamed : negb (String.eqb (after_first (snd (splitext config))) "yaml"
                         || String.eqb (after_first (snd (splitext config)))
                              "yml") = false).
  { destruct Hext as [-> | ->]; reflexivity. }
  rewrite Hnamed. unfold resolve_document, py_or. split.
  - now intros ->.
  - intros -> Hmapping. now destruct conf.
Qed.

End Loaded.

(** ** The commands to run afterwards *)

Section Commands.

Context {world : Type} {runtime : Runtime world}.

Lemma resolve_commands_listed (fields : dict) :
  commands_listed (resolve_commands fields) = true.
Proof.
  unfold resolve_commands.
  destruct (dict_get "shell_command_after" fields) as [cmds |]; [| reflexivity].
  destruct (py_bool cmds) eqn:Hcmds; [| reflexivity].
  destruct cmds as [| b | z | text | [| x xs] | kvs]; try reflexivity;
    try discriminate; exact Hcmds.
Qed.

Lemma get_repo_commands k directory repo_data forced skip s r s' :
  get_repo k directory repo_data forced skip s = (Ok r, s') ->
  commands_of (directory, repo_data) r.
Proof.
  unfold get_repo. intros Hrun.
  apply bind_ok_inv in Hrun as (d & s1 & _ & Hrun).
  apply bind_ok_inv in Hrun as (fields & s2 & [Hfields _]%lift_inv & Hrun).
  apply bind_ok_inv in Hrun as ([rs remote_names] & s3 & _ & Hrun).
  apply bind_ok_inv in Hrun as (found & s4 & _ & Hrun).
  apply bind_ok_inv in Hrun as (scope & s5 & _ & Hrun).
  apply bind_ok_inv in Hrun as (destination & s6 & _ & Hrun).
  apply ret_inv in Hrun as [[= ->] _].
  destruct repo_data as [| b | z | text | xs | kvs]; try discriminate.
  injection Hfields as <-.
  split; cbn [shell_command_after snd]; [apply resolve_commands_listed |].
  exists kvs. split; [reflexivity |]. unfold resolve_commands.
  repeat split.
  - now intros ->.
  - now intros cmds -> ->.
  - intros text -> Htext. cbn [py_bool].
    now destruct (String.eqb_spec text "").
  - intros cmds -> -> Hother.
    destruct cmds as [| b | z | text | xs | fields]; try reflexivity.
    now destruct (Hother text).
Qed.

(** X18: the [shell_command_after] of a record [get_repos] returns is
    never a text and never a value that is false in a condition, the
    empty list apart.  What is absent, null or empty gives the empty
    list; a configured text, not empty, is held as the list of that one
    command; any other value is held as it is. *)
Theorem get_repos_commands (config : dict) (forced skip_merge_check : bool)
    (w : world) (found : list repo_dict) (s' : state world) :
  get_repos config forced skip_merge_check w = (Ok found, s') ->
  Forall2 commands_of config found.
Proof.
  unfold get_repos. intros Hrun.
  apply get_repos_loop_ok in Hrun as (new & -> & Hnew). cbn [app].
  eapply Forall2_impl; [exact Hnew |].
  intros [directory repo_data] r (k & s1 & s2 & Hr). cbn [fst snd] in Hr.
  now apply get_repo_commands in Hr.
Qed.

End Commands.

(** ** The properties at work *)

Lemma get_repos_foreign_keys_witness :
  Forall (fun r => foreign_keys_hold r = true) [minimal_repo "/srv/D" false].
Proof.
  exact (get_repos_foreign_keys (runtime := offline) (minimal_config "D")
           false true tt _ _ eq_refl).
Defined.

Lemma get_repos_fail_fast_witness :
  exists s2,
    get_repos (runtime := offline) second_of_three false true tt
    = (Raise (ConfigException "/srv/b: merges is not defined."), s2).
Proof.
  eexists. unfold second_of_three.
  eapply (get_repos_fail_fast (runtime := offline)); reflexivity.
Defined.

Lemma ref_check_drops_or_keeps_witness :
  fst (resolve_merge (runtime := unknown_ref) 0 0 "/srv/D" [PyStr "origin"]
         false (Some handle) (PyStr "origin 14.0")
         (enter (minimal_config "D") tt)) = Ok None
  /\ fst (resolve_merge (runtime := timed_out) 0 0 "/srv/D" [PyStr "origin"]
            false (Some handle) (PyStr "origin 14.0")
            (enter (minimal_config "D") tt))
     = Ok (Some (PyDict [(PyStr "remote", PyStr "origin");
                         (PyStr "ref", PyStr "14.0")])).
Proof.
  split.
  - destruct (ref_check_drops_or_keeps (runtime := unknown_ref) 0 0 "/srv/D"
                [PyStr "origin"] handle (PyStr "origin 14.0") _
                (PyStr "origin") (PyStr "14.0")
                (enter (minimal_config "D") tt) _
                eq_refl eq_refl eq_refl eq_refl) as [Hdropped _].
    destruct (Hdropped "" eq_refl eq_refl) as [Hturn _].
    now rewrite Hturn.
  - destruct (ref_check_drops_or_keeps (runtime := timed_out) 0 0 "/srv/D"
                [PyStr "origin"] handle (PyStr "origin 14.0") _
                (PyStr "origin") (PyStr "14.0")
                (enter (minimal_config "D") tt) _
                eq_refl eq_refl eq_refl eq_refl) as [_ Hkept].
    destruct (Hkept "timed out" eq_refl) as [Hturn _].
    now rewrite Hturn.
Defined.

Lemma get_repos_rewrites_merges_only_witness :
  config_rewritten (runtime := offline) integer_ref
    (input (snd (get_repos (runtime := offline) integer_ref false true tt)))
  /\ input (snd (get_repos (runtime := offline) (mapping_config "D") false
                   true tt))
     = mapping_config "D".
Proof.
  split.
  - exact (proj1 (get_repos_rewrites_merges_only (runtime := offline)
                    integer_ref false true tt) eq_refl).
  - exact (proj2 (get_repos_rewrites_merges_only (runtime := offline)
                    (mapping_config "D") false true tt) eq_refl).
Defined.

Lemma working_copy_gates_remotes_only_witness :
  calls (snd (get_repo (runtime := offline) 0 (PyStr "D")
                (PyDict [(PyStr "remotes", origin_only);
                         (PyStr "merges", PyList [PyStr "origin 14.0"])])
                false false (enter (minimal_config "D") tt)))
  = [QueryRemoteRef "/srv/D" "origin" "14.0"]
  /\ calls (snd (get_repo (runtime := timed_out) 0 (PyStr "D")
                   (PyDict [(PyStr "remotes", origin_only);
                            (PyStr "merges", PyList [PyStr "origin 14.0"])])
                   false false (enter (minimal_config "D") tt)))
     = [SetRemote "/srv/D" (PyStr "origin") (PyStr "u");
        QueryRemoteRef "/srv/D" "origin" "14.0"].
Proof.
  split.
  - destruct (working_copy_gates_remotes_only (runtime := offline) 0 "D"
                (PyDict [(PyStr "remotes", origin_only);
                         (PyStr "merges", PyList [PyStr "origin 14.0"])])
                false (enter (minimal_config "D") tt) _ _ eq_refl)
      as (_ & _ & Htrace).
    destruct (Htrace _ _ _ _ _ eq_refl eq_refl eq_refl eq_refl)
      as (_ & Habsent & _).
    exact (Habsent eq_refl).
  - destruct (working_copy_gates_remotes_only (runtime := timed_out) 0 "D"
                (PyDict [(PyStr "remotes", origin_only);
                         (PyStr "merges", PyList [PyStr "origin 14.0"])])
                false (enter (minimal_config "D") tt) _ _ eq_refl)
      as (_ & _ & Htrace).
    destruct (Htrace _ _ _ _ _ eq_refl eq_refl eq_refl eq_refl)
      as (_ & _ & Hpresent).
    apply (Hpresent eq_refl).
    intros w directory remote_name remote_url. now exists tt.
Defined.

Lemma get_repos_fetch_all_witness :
  Forall2 (fun item r =>
             exists fields,
               snd item = PyDict fields
               /\ fetch_scope_of fields (fetch_all r))
    fetch_everything
    (match fst (get_repos (runtime := offline) fetch_everything false true tt)
     with
     | Ok found => found
     | Raise _ => []
     end).
Proof.
  exact (get_repos_fetch_all (runtime := offline) fetch_everything false true tt
           _ _ eq_refl).
Defined.

Lemma get_repos_errors_witness :
  exists msg D,
    fst (get_repos (runtime := offline) unknown_remote false true tt)
    = Raise (ConfigException msg)
    /\ In (PyStr D) (map fst unknown_remote)
    /\ startswith ((if isabs (Runtime := offline) D then D
                    else abspath (Runtime := offline) D) +:+ ": ") msg = true.
Proof.
  destruct (get_repos_errors (runtime := offline) unknown_remote false true tt
              _ _ eq_refl)
    as [(done & directory & repo_data & rest & found & s1
         & Hconfig & _ & _ & Hprefix) Hconfigured].
  destruct (Hconfigured eq_refl (or_introl eq_refl)) as [msg Hmsg].
  destruct (Hprefix msg Hmsg) as (D & -> & Hstarts).
  exists msg, D. split; [now rewrite <- Hmsg |]. split; [| exact Hstarts].
  rewrite Hconfig, map_app. apply in_or_app. right. now left.
Defined.

Lemma get_repos_one_record_per_directory_witness :
  Forall2 (heads (runtime := offline) false) (minimal_config "D")
    [minimal_repo "/srv/D" false].
Proof.
  exact (get_repos_one_record_per_directory (runtime := offline)
           (minimal_config "D") false true tt _ _ eq_refl).
Defined.

Lemma get_repos_records_complete_witness :
  Forall (fun r => record_complete r = true) [minimal_repo "/srv/D" false].
Proof.
  exact (get_repos_records_complete (runtime := offline) (minimal_config "D")
           false true tt _ _ eq_refl).
Defined.

Lemma get_repos_target_in_words_witness :
  exists found,
    fst (get_repos (runtime := offline) (targeted_config "D") false true tt)
    = Ok found
    /\ Forall (fun r => target_in_words r = true) found.
Proof.
  eexists. split; [reflexivity |].
  exact (get_repos_target_in_words (runtime := offline) (targeted_config "D")
           false true tt _ _ eq_refl).
Defined.

Lemma merge_text_has_one_space_witness :
  (exists remote_name ref,
      parse_merge (runtime := offline) 0 0 "/srv/D" (PyStr "origin 14.0")
        (enter (minimal_config "D") tt)
      = (Ok (PyDict [(PyStr "remote", PyStr remote_name);
                     (PyStr "ref", PyStr ref)]),
         enter (minimal_config "D") tt)
      /\ "origin 14.0" = remote_name +:+ " " +:+ ref
      /\ count_char " " remote_name = 0
      /\ count_char " " ref = 0)
  /\ fst (parse_merge (runtime := offline) 0 0 "/srv/D"
            (PyStr "origin 14.0 15.0") (enter (minimal_config "D") tt))
     = Raise (ConfigException
                ("/srv/D: Merge must be formatted as "
                   +:+ dquote +:+ "remote_name ref" +:+ dquote +:+ ".")).
Proof.
  split.
  - apply (proj1 (merge_text_has_one_space (runtime := offline) 0 0 "/srv/D"
                    "origin 14.0" (enter (minimal_config "D") tt))).
    reflexivity.
  - rewrite (proj2 (merge_text_has_one_space (runtime := offline) 0 0 "/srv/D"
                      "origin 14.0 15.0" (enter (minimal_config "D") tt)));
      [reflexivity | vm_compute; discriminate].
Defined.

Lemma get_repos_accepts_witness :
  forallb (entry_accepted (runtime := offline)) (targeted_config "D") = true.
Proof.
  exact (get_repos_accepts (runtime := offline) (targeted_config "D")
           false true tt _ _ eq_refl).
Defined.

Lemma get_repo_remotes_witness :
  exists kvs,
    origin_only = PyDict kvs
    /\ remotes (minimal_repo "/srv/D" false) = map remote_of kvs.
Proof.
  exact (get_repo_remotes (runtime := offline) 0 "D"
           [(PyStr "remotes", origin_only);
            (PyStr "merges", PyList [PyStr "origin 14.0"])]
           false true (enter (minimal_config "D") tt) _ _ eq_refl).
Defined.

Lemma get_repo_remotes_errors_witness :
  fst (get_repo (runtime := offline) 0 (PyStr "D")
         (PyDict [(PyStr "remotes", PyNone)]) false true (enter [] tt))
  = Raise (ConfigException "/srv/D: You should at least define one remote.")
  /\ fst (get_repo (runtime := offline) 0 (PyStr "D")
            (PyDict [(PyStr "remotes",
                      PyDict [(PyStr "origin", PyStr "u");
                              (PyStr "fork", PyNone);
                              (PyStr "mirror", PyNone)])])
            false true (enter [] tt))
     = Raise (ConfigException "/srv/D: No url defined for remote fork.")
  /\ fst (get_repo (runtime := offline) 0 (PyStr "D")
            (PyDict [(PyStr "merges", PyList [PyStr "origin 14.0"])])
            false true (enter [] tt))
     = Raise (ConfigException "/srv/D: remotes is not defined.").
Proof.
  split; [| split].
  - destruct (get_repo_remotes_errors (runtime := offline) 0 "D"
                [(PyStr "remotes", PyNone)] false true (enter [] tt))
      as (Hempty & _ & _).
    now rewrite (Hempty PyNone eq_refl eq_refl).
  - destruct (get_repo_remotes_errors (runtime := offline) 0 "D"
                [(PyStr "remotes",
                  PyDict [(PyStr "origin", PyStr "u");
                          (PyStr "fork", PyNone);
                          (PyStr "mirror", PyNone)])]
                false true (enter [] tt))
      as (_ & Hurl & _).
    now rewrite (Hurl [(PyStr "origin", PyStr "u")] (PyStr "fork") PyNone
                   [(PyStr "mirror", PyNone)] eq_refl eq_refl eq_refl).
  - destruct (get_repo_remotes_errors (runtime := offline) 0 "D"
                [(PyStr "merges", PyList [PyStr "origin 14.0"])]
                false true (enter [] tt))
      as (_ & _ & Hlisting).
    now rewrite (Hlisting "not a git repository" eq_refl eq_refl).
Defined.

Lemma get_repos_nothing_found_witness :
  exists msg,
    fst (get_repos (runtime := unknown_ref) (minimal_config "D") false false tt)
    = Raise (ConfigException msg).
Proof.
  destruct (get_repos_nothing_found (runtime := unknown_ref)
              (minimal_config "D") false tt)
    as (e & Hraise & Hconfig).
  - intros w directory remote_name ref. now exists "".
  - reflexivity.
  - discriminate.
  - destruct (Hconfig eq_refl) as [msg ->].
    + intros w directory remote_name remote_url. now exists tt.
    + now exists msg.
Defined.

Lemma get_repos_on_rewritten_witness :
  fst (get_repos (runtime := offline) integer_ref_after false true tt)
  = fst (get_repos (runtime := offline) integer_ref false true tt)
  /\ same_effects
       (snd (get_repos (runtime := offline) integer_ref_after false true tt))
       (snd (get_repos (runtime := offline) integer_ref false true tt)).
Proof.
  apply (get_repos_on_rewritten (runtime := offline)).
  constructor; [| constructor]. split; [reflexivity |]. right.
  exists [(PyStr "remotes", origin_only);
          (PyStr "merges",
           PyList [PyDict [(PyStr "remote", PyStr "origin");
                           (PyStr "ref", PyInt 14)]])],
    [PyDict [(PyStr "remote", PyStr "origin"); (PyStr "ref", PyInt 14)]],
    [PyDict [(PyStr "remote", PyStr "origin"); (PyStr "ref", PyStr "14")]].
  repeat split.
  constructor; [| constructor]. right.
  exists [(PyStr "remote", PyStr "origin"); (PyStr "ref", PyInt 14)].
  split; reflexivity.
Defined.


Lemma load_environment_precedence_witness :
  exists expanded,
    load_environment
      (loading := scripted_loading ["# variables"; "B = 1"; "B=2"] PyNone)
      (Some "/srv/vars") tt
    = Got expanded
    /\ expanded !! "B" = Some "2"
    /\ expanded !! "HOME" = Some "/root".
Proof.
  destruct (load_environment_precedence
              (loading := scripted_loading ["# variables"; "B = 1"; "B=2"] PyNone)
              "/srv/vars" tt ["# variables"; "B = 1"] "B" "2" _
              eq_refl eq_refl eq_refl eq_refl eq_refl eq_refl)
    as (expanded & Hload & Hkey & Hother).
  exists expanded. split; [exact Hload |]. split; [exact Hkey |].
  rewrite (Hother "HOME") by discriminate. reflexivity.
Defined.

Lemma load_config_records_witness :
  Forall (fun r =>
            foreign_keys_hold r = true
            /\ record_complete r = true
            /\ target_in_words r = true)
    [minimal_repo "/srv/D" false].
Proof.
  exact (proj2 (proj2 (load_config_records (runtime := unknown_ref)
                         (loading := scripted_loading []
                                       (PyDict (minimal_config "D")))
                         "/srv/repos.yaml" false None false true tt _ _
                         eq_refl))).
Defined.

Lemma load_config_without_mapping_witness :
  load_config (runtime := unknown_ref) (loading := scripted_loading [] PyNone)
    "/srv/repos.yaml" false None false true tt
  = Got (Ok [], enter [] tt)
  /\ load_config (runtime := unknown_ref)
       (loading := scripted_loading [] (PyList [PyStr "D"]))
       "/srv/repos.yaml" false None false true tt
     = GaveUp (Resolving AttributeError).
Proof.
  split.
  - apply (proj1 (load_config_without_mapping (runtime := unknown_ref)
                    (loading := scripted_loading [] PyNone)
                    "/srv/repos.yaml" "./D: ..." PyNone None false true tt
                    eq_refl (or_introl eq_refl) eq_refl eq_refl)).
    reflexivity.
  - apply (proj2 (load_config_without_mapping (runtime := unknown_ref)
                    (loading := scripted_loading [] (PyList [PyStr "D"]))
                    "/srv/repos.yaml" "./D: ..." (PyList [PyStr "D"]) None
                    false true tt
                    eq_refl (or_introl eq_refl) eq_refl eq_refl));
      reflexivity.
Defined.

Lemma get_repos_commands_witness :
  exists found,
    fst (get_repos (runtime := offline) (commanded_config "D") false true tt)
    = Ok found
    /\ Forall2 commands_of (commanded_config "D") found
    /\ map shell_command_after found = [PyList [PyStr "make"]].
Proof.
  eexists. split; [reflexivity |]. split; [| reflexivity].
  exact (get_repos_commands (runtime := offline) (commanded_config "D")
           false true tt _ _ eq_refl).
Defined.

Lemma get_repos_target_reads_witness :
  exists found,
    fst (get_repos (runtime := offline) (targeted_config "D") false true tt)
    = Ok found
    /\ Forall2 (target_reads (runtime := offline)) (targeted_config "D") found
    /\ map target found = [{| remote := Some "origin"; branch := "agg" |}].
Proof.
  eexists. split; [reflexivity |]. split; [| reflexivity].
  exact (get_repos_target_reads (runtime := offline) (targeted_config "D")
           false true tt _ _ eq_refl).
Defined.

(** ** Where the code departs from its specification *)

(** C5: [{D: {remotes: {origin: "u"}, merges: [{remote: origin, ref:
    14}]}}] is not the same after [get_repos]: the ref of its merge, the
    integer 14 before, is the text ["14"]. *)
Lemma get_repos_rewrites_integer_ref :
  input (snd (get_repos (runtime := offline) integer_ref false true tt))
  = integer_ref_after
  /\ integer_ref_after <> integer_ref.
Proof. split; [reflexivity | discriminate]. Qed.

(** C6: with the merge check on and no working copy on disk, the ref of
    the merge of [{D: {remotes: {origin: "u"}, merges: ["origin 14.0"]}}]
    is asked of its remote. *)
Lemma query_without_working_copy :
  path_exists (Runtime := offline) tt "/srv/D" = false
  /\ In (QueryRemoteRef "/srv/D" "origin" "14.0")
        (calls (snd (get_repos (runtime := offline) (minimal_config "D")
                       false false tt))).
Proof. split; [reflexivity | now left]. Qed.

(** C7: [fetch_all: true] gives a record whose [fetch_all] is [true],
    neither [false] nor a set. *)
Lemma fetch_all_true_is_kept :
  exists found,
    fst (get_repos (runtime := offline) fetch_everything false true tt)
    = Ok found
    /\ ~ Forall false_or_set found.
Proof.
  eexists. split; [reflexivity |].
  intros Hall. inversion Hall as [| r rest [Hfalse | [members Hset]] _];
    discriminate.
Qed.

(** C8: [merges: [14]] ends in a [TypeError], which is no configuration
    error. *)
Lemma integer_merge_raises_type_error :
  fst (get_repos (runtime := offline) integer_merge false true tt)
  = Raise TypeError
  /\ forall msg, TypeError <> ConfigException msg.
Proof. split; [reflexivity | discriminate]. Qed.
